(** * github-repo-scraper: the upsert layer, the schema and the driver loop

    A shallow embedding of [main.py] and [db_init.py].

    - The SQLite store is a record of ten tables, each a list of rows in
      insertion order.  That is the order of the rowids, except in
      reviews, comments and pull_requests, whose ids come with the answer:
      of these three tables the properties speak by id and by membership,
      never by position.  Every SQL statement of [main.py] is a function
      [DB -> result DB] that performs the checks SQLite performs for it, in
      SQLite's order: the binding of the parameters, NOT NULL, the
      uniqueness conflict named by the [on conflict] clause, and the
      foreign keys of [db_init.py] ([PRAGMA foreign_keys = ON]).
    - A Python exception is the [Raise] case of [result].
    - A text value is a [string]; each [ascii] of it stands for one
      character of the text.
    - A GraphQL answer is a typed record following the query of
      [prepareQuery]; [dict.get] of an absent or null key is [None].  A
      [fullDatabaseId], a numeric string, is the integer it denotes.
    - The order in which [select ... where login like ?] visits the rows
      is the engine's choice; it is a parameter of the lookups.
    - The transport and the clock are the environment of the driver loop:
      the loop is a function of the exchanges with the server, and time is
      a simulated [time.perf_counter()].

    Left out: [con.commit()] (the store is what the one connection sees),
    logging and printing, a rowid beyond 2^63 - 1, SQLite's limit on the
    length of a LIKE pattern, and the exceptions of the transport other
    than [TransportServerError], which nothing catches. *)

From Stdlib Require Import ZArith List String Ascii Bool Lia Permutation.
Import ListNotations.
Local Open Scope string_scope.
Local Open Scope list_scope.
Local Open Scope Z_scope.

(** ** Exceptions and the error monad *)

Inductive constraint := NOT_NULL | FOREIGN_KEY.

Inductive exn :=
| TypeError                      (* int(None) *)
| OverflowError                  (* Python int too large for SQLite INTEGER *)
| IntegrityError (c : constraint)
| IndexError                     (* token_pool[i] out of range *)
| AttributeError.                (* result.message on a dict *)

Inductive result (A : Type) :=
| Ok (a : A)
| Raise (e : exn).
Arguments Ok {A} a.
Arguments Raise {A} e.

Definition bind {A B} (m : result A) (k : A -> result B) : result B :=
  match m with
  | Ok a => k a
  | Raise e => Raise e
  end.

Notation "'do' x <- m ; k" := (bind m (fun x => k))
  (at level 10, x name, m at level 100, k at level 200).
Notation "'do' ' p <- m ; k" := (bind m (fun x => let 'p := x in k))
  (at level 10, p pattern, m at level 100, k at level 200).

(** ** Text and the LIKE operator

    [X like P] of SQLite with its defaults: [%] matches any sequence of
    characters, [_] matches exactly one character, any other character
    matches itself or, for the 26 ASCII letters, its other case.  There is
    no escape character in the statements of [main.py]. *)

Definition sqlite3Tolower (c : ascii) : ascii :=
  let n := nat_of_ascii c in
  if ((65 <=? n) && (n <=? 90))%nat then ascii_of_nat (n + 32) else c.

Definition chr_nocase_eqb (a b : ascii) : bool :=
  Ascii.eqb (sqlite3Tolower a) (sqlite3Tolower b).

Definition matchAll : ascii := "%".
Definition matchOne : ascii := "_".

Fixpoint like (pattern s : string) : bool :=
  match pattern with
  | EmptyString => match s with EmptyString => true | String _ _ => false end
  | String c p =>
      if Ascii.eqb c matchAll then
        (fix any (s : string) : bool :=
           like p s ||
           match s with
           | EmptyString => false
           | String _ s' => any s'
           end) s
      else if Ascii.eqb c matchOne then
        match s with
        | EmptyString => false
        | String _ s' => like p s'
        end
      else
        match s with
        | EmptyString => false
        | String c2 s' => chr_nocase_eqb c c2 && like p s'
        end
  end.

(** Two texts that are equal up to the case of ASCII letters. *)
Fixpoint eq_nocase (a b : string) : bool :=
  match a, b with
  | EmptyString, EmptyString => true
  | String x a', String y b' => chr_nocase_eqb x y && eq_nocase a' b'
  | _, _ => false
  end.

(** Python's [sub in s] on [str]. *)
Fixpoint prefixb (p s : string) : bool :=
  match p, s with
  | EmptyString, _ => true
  | String a p', String b s' => Ascii.eqb a b && prefixb p' s'
  | String _ _, EmptyString => false
  end.

Fixpoint str_in (sub s : string) : bool :=
  prefixb sub s ||
  match s with
  | EmptyString => false
  | String _ s' => str_in sub s'
  end.

(** ** Values bound to a statement *)

Definition INT64_MIN : Z := - 2 ^ 63.
Definition INT64_MAX : Z := 2 ^ 63 - 1.

(** sqlite3 refuses a Python int outside the 64-bit range when it binds it.
    The statements bind this way the integers that come from the answer;
    an [author_id] or [label_id] was read from the store and is bound as
    it is. *)
Definition bind_int (z : Z) : result Z :=
  if (INT64_MIN <=? z) && (z <=? INT64_MAX) then Ok z else Raise OverflowError.

Definition bind_int_opt (z : option Z) : result (option Z) :=
  match z with
  | None => Ok None
  | Some v => do v' <- bind_int v; Ok (Some v')
  end.

(** Python's [int(x)]: [None] is a TypeError. *)
Definition int_ (x : option Z) : result Z :=
  match x with
  | Some z => Ok z
  | None => Raise TypeError
  end.

Definition int_of_bool (x : option bool) : result Z :=
  match x with
  | Some true => Ok 1
  | Some false => Ok 0
  | None => Raise TypeError
  end.

(** A NULL bound to a [not null] column. *)
Definition not_null {A} (v : option A) : result A :=
  match v with
  | Some a => Ok a
  | None => Raise (IntegrityError NOT_NULL)
  end.

(** SQL's [coalesce(a, b)]. *)
Definition coalesce {A} (a b : option A) : option A :=
  match a with
  | Some _ => a
  | None => b
  end.

(** The rowid SQLite gives a row inserted without one: one more than the
    largest rowid of the table, 1 in an empty table. *)
Definition next_rowid (ids : list Z) : Z := fold_right Z.max 0 ids + 1.

(** A child key is either NULL or the key of a parent row. *)
Definition references (parents : list Z) (k : option Z) : bool :=
  match k with
  | None => true
  | Some v => existsb (Z.eqb v) parents
  end.

Definition foreign_key (parents : list Z) (k : option Z) : result unit :=
  if references parents k then Ok tt else Raise (IntegrityError FOREIGN_KEY).

(** ** The schema of [db_init.py]: one record of columns per table *)

Module Author.
Record row := mk { id : Z; login : string; name : option string }.
End Author.

Module PullRequest.
Record row := mk {
  id : Z;
  author_id : option Z;
  title : string;
  state : string;
  created_at : string;
  closed_at : option string;
  merged_at : option string;
  additions : Z;
  deletions : Z;
  author_association : string;
  head_repository_url : option string;
  is_cross_repository : Z;
  merge_commit_ci_state : option string;
  api_total_comments_count : Z }.
End PullRequest.

Module Commit.
Record row := mk {
  id : Z;
  pull_request_id : option Z;
  url : option string;
  committed_at : string }.
End Commit.

Module Review.
Record row := mk {
  id : Z;
  author_id : option Z;
  pull_request_id : option Z;
  created_at : string }.
End Review.

Module ReviewThread.
Record row := mk { id : Z; node_id : string; pull_request_id : option Z }.
End ReviewThread.

Module Comment.
Record row := mk {
  id : Z;
  author_id : option Z;
  pull_request_id : option Z;
  review_id : option Z;
  review_thread_id : option Z;
  created_at : string }.
End Comment.

Module File.
Record row := mk {
  id : Z;
  pull_request_id : option Z;
  path : string;
  change_type : option string;
  additions : option Z;
  deletions : option Z }.
End File.

Module AuthorPullRequest.
Record row := mk { author_id : option Z; pull_request_id : option Z }.
End AuthorPullRequest.

Module Label.
Record row := mk { id : Z; name : string }.
End Label.

Module LabelPullRequest.
Record row := mk { label_id : option Z; pull_request_id : option Z }.
End LabelPullRequest.

Record DB := mkDB {
  authors : list Author.row;
  pull_requests : list PullRequest.row;
  commits : list Commit.row;
  reviews : list Review.row;
  review_threads : list ReviewThread.row;
  comments : list Comment.row;
  files : list File.row;
  author_pull_request : list AuthorPullRequest.row;
  labels : list Label.row;
  label_pull_request : list LabelPullRequest.row }.

Definition empty_db : DB := mkDB [] [] [] [] [] [] [] [] [] [].

Definition set_authors (db : DB) v :=
  mkDB v (pull_requests db) (commits db) (reviews db) (review_threads db)
       (comments db) (files db) (author_pull_request db) (labels db)
       (label_pull_request db).
Definition set_pull_requests (db : DB) v :=
  mkDB (authors db) v (commits db) (reviews db) (review_threads db)
       (comments db) (files db) (author_pull_request db) (labels db)
       (label_pull_request db).
Definition set_commits (db : DB) v :=
  mkDB (authors db) (pull_requests db) v (reviews db) (review_threads db)
       (comments db) (files db) (author_pull_request db) (labels db)
       (label_pull_request db).
Definition set_reviews (db : DB) v :=
  mkDB (authors db) (pull_requests db) (commits db) v (review_threads db)
       (comments db) (files db) (author_pull_request db) (labels db)
       (label_pull_request db).
Definition set_review_threads (db : DB) v :=
  mkDB (authors db) (pull_requests db) (commits db) (reviews db) v
       (comments db) (files db) (author_pull_request db) (labels db)
       (label_pull_request db).
Definition set_comments (db : DB) v :=
  mkDB (authors db) (pull_requests db) (commits db) (reviews db)
       (review_threads db) v (files db) (author_pull_request db) (labels db)
       (label_pull_request db).
Definition set_files (db : DB) v :=
  mkDB (authors db) (pull_requests db) (commits db) (reviews db)
       (review_threads db) (comments db) v (author_pull_request db)
       (labels db) (label_pull_request db).
Definition set_author_pull_request (db : DB) v :=
  mkDB (authors db) (pull_requests db) (commits db) (reviews db)
       (review_threads db) (comments db) (files db) v (labels db)
       (label_pull_request db).
Definition set_labels (db : DB) v :=
  mkDB (authors db) (pull_requests db) (commits db) (reviews db)
       (review_threads db) (comments db) (files db) (author_pull_request db)
       v (label_pull_request db).
Definition set_label_pull_request (db : DB) v :=
  mkDB (authors db) (pull_requests db) (commits db) (reviews db)
       (review_threads db) (comments db) (files db) (author_pull_request db)
       (labels db) v.

(** The keys of the parent tables. *)
Definition author_ids (db : DB) : list Z := map Author.id (authors db).
Definition pull_request_ids (db : DB) : list Z := map PullRequest.id (pull_requests db).
Definition review_ids (db : DB) : list Z := map Review.id (reviews db).
Definition review_thread_ids (db : DB) : list Z := map ReviewThread.id (review_threads db).
Definition label_ids (db : DB) : list Z := map Label.id (labels db).

(** [con.executemany(stmt, query_data)]: the statement once per tuple, in
    order; the first failure is raised. *)
Fixpoint executemany {P} (stmt : P -> DB -> result DB) (query_data : list P)
    (db : DB) : result DB :=
  match query_data with
  | [] => Ok db
  | p :: rest => do db' <- stmt p db; executemany stmt rest db'
  end.

(** SQL equality of a stored key column with an incoming value: NULL is
    equal to nothing, so a NULL never takes part in a uniqueness conflict. *)
Definition sql_eqb {A} (eqb : A -> A -> bool) (a b : option A) : bool :=
  match a, b with
  | Some x, Some y => eqb x y
  | _, _ => false
  end.

(** ** The answer of the GraphQL query of [prepareQuery]

    One record per selection set; a field is [None] when its key is absent
    or null, which is what [dict.get] returns. *)

Record connection (A : Type) := { nodes : option (list A) }.
Arguments nodes {A} c.

Module Actor.
Record t := mk { login : option string; name : option string }.
End Actor.

Module CommitNode.
Record commit_t := mk_commit {
  commitUrl : option string;
  committedDate : option string }.
Record t := mk { commit : option commit_t }.
End CommitNode.

Module CommentNode.
Record t := mk {
  fullDatabaseId : option Z;
  author : option Actor.t;
  createdAt : option string }.
End CommentNode.

Module ReviewNode.
Record t := mk {
  author : option Actor.t;
  createdAt : option string;
  fullDatabaseId : option Z;
  comments : option (connection CommentNode.t) }.
End ReviewNode.

Module ReviewThreadNode.
Record t := mk {
  id : option string;
  comments : option (connection CommentNode.t) }.
End ReviewThreadNode.

Module FileNode.
Record t := mk {
  path : option string;
  changeType : option string;
  additions : option Z;
  deletions : option Z }.
End FileNode.

Module LabelNode.
Record t := mk { name : option string }.
End LabelNode.

Module PullRequestNode.
Record headRepository_t := mk_headRepository { url : option string }.
Record statusCheckRollup_t := mk_statusCheckRollup { state_ : option string }.
Record mergeCommit_t := mk_mergeCommit {
  statusCheckRollup : option statusCheckRollup_t }.
Record t := mk {
  number : option Z;
  author : option Actor.t;
  title : option string;
  state : option string;
  createdAt : option string;
  closedAt : option string;
  mergedAt : option string;
  additions : option Z;
  deletions : option Z;
  commits : option (connection CommitNode.t);
  comments : option (connection CommentNode.t);
  reviews : option (connection ReviewNode.t);
  reviewThreads : option (connection ReviewThreadNode.t);
  files : option (connection FileNode.t);
  participants : option (connection Actor.t);
  authorAssociation : option string;
  headRepository : option headRepository_t;
  isCrossRepository : option bool;
  labels : option (connection LabelNode.t);
  mergeCommit : option mergeCommit_t;
  totalCommentsCount : option Z }.
End PullRequestNode.

(** [(x.get(k) or {}).get(k')]. *)
Definition or_empty_get {A B} (x : option A) (get : A -> option B) : option B :=
  match x with
  | Some a => get a
  | None => None
  end.

(** ** The statements of [main.py] *)

(** [insert into authors (login, name) values (?, ?)
     on conflict (login) do update set name = excluded.name
     where excluded.name is not null] *)
Definition insert_into_authors (p : option string * option string) (db : DB)
    : result DB :=
  let '(login, name) := p in
  do login <- not_null login;
  if existsb (fun r => String.eqb (Author.login r) login) (authors db) then
    match name with
    | Some _ =>
        Ok (set_authors db
              (map (fun r =>
                      if String.eqb (Author.login r) login
                      then Author.mk (Author.id r) (Author.login r) name
                      else r)
                   (authors db)))
    | None => Ok db
    end
  else
    Ok (set_authors db
          (authors db ++ [Author.mk (next_rowid (author_ids db)) login name])).

(** [insert into commits (pull_request_id, url, committed_at) values (?, ?, ?)
     on conflict (pull_request_id, url) do nothing] *)
Definition insert_into_commits (p : Z * option string * option string)
    (db : DB) : result DB :=
  let '(pull_request_id, url, committed_at) := p in
  do pull_request_id <- bind_int pull_request_id;
  do committed_at <- not_null committed_at;
  if existsb (fun r =>
                sql_eqb Z.eqb (Commit.pull_request_id r) (Some pull_request_id)
                && sql_eqb String.eqb (Commit.url r) url)
             (commits db)
  then Ok db
  else
    do _ <- foreign_key (pull_request_ids db) (Some pull_request_id);
    Ok (set_commits db
          (commits db ++
           [Commit.mk (next_rowid (map Commit.id (commits db)))
                      (Some pull_request_id) url committed_at])).

(** [insert into comments (id, author_id, pull_request_id, review_id,
     review_thread_id, created_at) values (?, ?, ?, ?, ?, ?)
     on conflict (id) do update set
       pull_request_id  = coalesce(excluded.pull_request_id,  comments.pull_request_id),
       review_id        = coalesce(excluded.review_id,        comments.review_id),
       review_thread_id = coalesce(excluded.review_thread_id, comments.review_thread_id)] *)
Definition merge_comment (pull_request_id review_id review_thread_id : option Z)
    (r : Comment.row) : Comment.row :=
  Comment.mk (Comment.id r) (Comment.author_id r)
    (coalesce pull_request_id (Comment.pull_request_id r))
    (coalesce review_id (Comment.review_id r))
    (coalesce review_thread_id (Comment.review_thread_id r))
    (Comment.created_at r).

Definition comment_tuple : Type :=
  Z * option Z * option Z * option Z * option Z * option string.

Definition insert_into_comments (p : comment_tuple) (db : DB) : result DB :=
  let '(id, author_id, pull_request_id, review_id, review_thread_id, created_at) := p in
  do id <- bind_int id;
  do pull_request_id <- bind_int_opt pull_request_id;
  do review_id <- bind_int_opt review_id;
  do review_thread_id <- bind_int_opt review_thread_id;
  do created_at <- not_null created_at;
  match find (fun r => Comment.id r =? id) (comments db) with
  | Some old =>
      let new := merge_comment pull_request_id review_id review_thread_id old in
      do _ <- foreign_key (pull_request_ids db) (Comment.pull_request_id new);
      do _ <- foreign_key (review_ids db) (Comment.review_id new);
      do _ <- foreign_key (review_thread_ids db) (Comment.review_thread_id new);
      Ok (set_comments db
            (map (fun r =>
                    if Comment.id r =? id
                    then merge_comment pull_request_id review_id review_thread_id r
                    else r)
                 (comments db)))
  | None =>
      do _ <- foreign_key (author_ids db) author_id;
      do _ <- foreign_key (pull_request_ids db) pull_request_id;
      do _ <- foreign_key (review_ids db) review_id;
      do _ <- foreign_key (review_thread_ids db) review_thread_id;
      Ok (set_comments db
            (comments db ++
             [Comment.mk id author_id pull_request_id review_id
                         review_thread_id created_at]))
  end.

(** [insert into reviews (id, author_id, pull_request_id, created_at)
     values (?, ?, ?, ?) on conflict (id) do nothing] *)
Definition insert_into_reviews (p : Z * option Z * Z * option string) (db : DB)
    : result DB :=
  let '(id, author_id, pull_request_id, created_at) := p in
  do id <- bind_int id;
  do pull_request_id <- bind_int pull_request_id;
  do created_at <- not_null created_at;
  if existsb (fun r => Review.id r =? id) (reviews db) then Ok db
  else
    do _ <- foreign_key (author_ids db) author_id;
    do _ <- foreign_key (pull_request_ids db) (Some pull_request_id);
    Ok (set_reviews db
          (reviews db ++ [Review.mk id author_id (Some pull_request_id) created_at])).

(** [insert into review_threads (node_id, pull_request_id) values (?, ?)
     on conflict (node_id) do update set node_id = excluded.node_id
     returning id]; the second component is what [cur.fetchone()] gives. *)
Definition insert_into_review_threads (p : option string * Z) (db : DB)
    : result (DB * option Z) :=
  let '(node_id, pull_request_id) := p in
  do pull_request_id <- bind_int pull_request_id;
  do node_id <- not_null node_id;
  match find (fun r => String.eqb (ReviewThread.node_id r) node_id)
             (review_threads db) with
  | Some old =>
      Ok (set_review_threads db
            (map (fun r =>
                    if String.eqb (ReviewThread.node_id r) node_id
                    then ReviewThread.mk (ReviewThread.id r) node_id
                                         (ReviewThread.pull_request_id r)
                    else r)
                 (review_threads db)),
          Some (ReviewThread.id old))
  | None =>
      do _ <- foreign_key (pull_request_ids db) (Some pull_request_id);
      let id := next_rowid (review_thread_ids db) in
      Ok (set_review_threads db
            (review_threads db ++
             [ReviewThread.mk id node_id (Some pull_request_id)]),
          Some id)
  end.

(** [insert into files (pull_request_id, path, change_type, additions,
     deletions) values (?, ?, ?, ?, ?)
     on conflict (pull_request_id, path) do nothing] *)
Definition file_tuple : Type :=
  Z * option string * option string * option Z * option Z.

Definition insert_into_files (p : file_tuple) (db : DB) : result DB :=
  let '(pull_request_id, path, change_type, additions, deletions) := p in
  do pull_request_id <- bind_int pull_request_id;
  do additions <- bind_int_opt additions;
  do deletions <- bind_int_opt deletions;
  do path <- not_null path;
  if existsb (fun r =>
                sql_eqb Z.eqb (File.pull_request_id r) (Some pull_request_id)
                && String.eqb (File.path r) path)
             (files db)
  then Ok db
  else
    do _ <- foreign_key (pull_request_ids db) (Some pull_request_id);
    Ok (set_files db
          (files db ++
           [File.mk (next_rowid (map File.id (files db)))
                    (Some pull_request_id) path change_type additions
                    deletions])).

(** [insert into author_pull_request (author_id, pull_request_id)
     values (?, ?) on conflict (author_id, pull_request_id) do nothing] *)
Definition insert_into_author_pull_request (p : Z * Z) (db : DB) : result DB :=
  let '(author_id, pull_request_id) := p in
  do pull_request_id <- bind_int pull_request_id;
  if existsb (fun r =>
                sql_eqb Z.eqb (AuthorPullRequest.author_id r) (Some author_id)
                && sql_eqb Z.eqb (AuthorPullRequest.pull_request_id r)
                                 (Some pull_request_id))
             (author_pull_request db)
  then Ok db
  else
    do _ <- foreign_key (author_ids db) (Some author_id);
    do _ <- foreign_key (pull_request_ids db) (Some pull_request_id);
    Ok (set_author_pull_request db
          (author_pull_request db ++
           [AuthorPullRequest.mk (Some author_id) (Some pull_request_id)])).

(** [insert into labels (name) values (?) on conflict (name) do nothing] *)
Definition insert_into_labels (p : option string) (db : DB) : result DB :=
  do name <- not_null p;
  if existsb (fun r => String.eqb (Label.name r) name) (labels db) then Ok db
  else
    Ok (set_labels db (labels db ++ [Label.mk (next_rowid (label_ids db)) name])).

(** [insert into label_pull_request (label_id, pull_request_id)
     values (?, ?) on conflict (label_id, pull_request_id) do nothing] *)
Definition insert_into_label_pull_request (p : Z * Z) (db : DB) : result DB :=
  let '(label_id, pull_request_id) := p in
  do pull_request_id <- bind_int pull_request_id;
  if existsb (fun r =>
                sql_eqb Z.eqb (LabelPullRequest.label_id r) (Some label_id)
                && sql_eqb Z.eqb (LabelPullRequest.pull_request_id r)
                                 (Some pull_request_id))
             (label_pull_request db)
  then Ok db
  else
    do _ <- foreign_key (label_ids db) (Some label_id);
    do _ <- foreign_key (pull_request_ids db) (Some pull_request_id);
    Ok (set_label_pull_request db
          (label_pull_request db ++
           [LabelPullRequest.mk (Some label_id) (Some pull_request_id)])).

(** [insert into pull_requests (id, author_id, title, ...) values (...)
     on conflict (id) do update set author_id = excluded.author_id,
     title = excluded.title, ..., api_total_comments_count =
     excluded.api_total_comments_count] *)
Definition pull_request_tuple : Type :=
  Z * option Z * option string * option string * option string
  * option string * option string * Z * Z * option string * option string
  * Z * option string * option Z.

Definition insert_into_pull_requests (p : pull_request_tuple) (db : DB)
    : result DB :=
  let '(id, author_id, title, state, created_at, closed_at, merged_at,
        additions, deletions, author_association, head_repository_url,
        is_cross_repository, merge_commit_ci_state,
        api_total_comments_count) := p in
  do id <- bind_int id;
  do additions <- bind_int additions;
  do deletions <- bind_int deletions;
  do is_cross_repository <- bind_int is_cross_repository;
  do api_total_comments_count <- bind_int_opt api_total_comments_count;
  do title <- not_null title;
  do state <- not_null state;
  do created_at <- not_null created_at;
  do author_association <- not_null author_association;
  do api_total_comments_count <- not_null api_total_comments_count;
  do _ <- foreign_key (author_ids db) author_id;
  let excluded (id : Z) :=
    PullRequest.mk id author_id title state created_at closed_at merged_at
      additions deletions author_association head_repository_url
      is_cross_repository merge_commit_ci_state api_total_comments_count in
  if existsb (fun r => PullRequest.id r =? id) (pull_requests db) then
    Ok (set_pull_requests db
          (map (fun r =>
                  if PullRequest.id r =? id then excluded (PullRequest.id r)
                  else r)
               (pull_requests db)))
  else Ok (set_pull_requests db (pull_requests db ++ [excluded id])).

(** ** The functions of [main.py] *)

Definition saveAuthor (login : string) (name : option string) (db : DB)
    : result DB :=
  insert_into_authors (Some login, name) db.

Definition saveAuthors (authors : option (list Actor.t)) (db : DB) : result DB :=
  match authors with
  | None | Some [] => Ok db
  | Some l =>
      executemany insert_into_authors
        (map (fun author => (Actor.login author, Actor.name author)) l) db
  end.

Definition saveCommits (commits : option (list CommitNode.t))
    (pull_request_id : Z) (db : DB) : result DB :=
  match commits with
  | None | Some [] => Ok db
  | Some l =>
      executemany insert_into_commits
        (map (fun commit =>
                (pull_request_id,
                 or_empty_get (CommitNode.commit commit) CommitNode.commitUrl,
                 or_empty_get (CommitNode.commit commit) CommitNode.committedDate))
             l)
        db
  end.

Definition saveFiles (files : option (list FileNode.t)) (pull_request_id : Z)
    (db : DB) : result DB :=
  match files with
  | None | Some [] => Ok db
  | Some l =>
      executemany insert_into_files
        (map (fun file =>
                (pull_request_id, FileNode.path file, FileNode.changeType file,
                 FileNode.additions file, FileNode.deletions file))
             l)
        db
  end.

Definition saveLabels (labels : option (list LabelNode.t)) (db : DB)
    : result DB :=
  match labels with
  | None | Some [] => Ok db
  | Some l => executemany insert_into_labels (map LabelNode.name l) db
  end.

Section Store.

(** The order in which a [select] without [order by] visits a table. *)
Variable scan_authors : list Author.row -> list Author.row.
Variable scan_labels : list Label.row -> list Label.row.

(** [select id from authors where login like ?], [fetchone()]. *)
Definition getAuthorIDByLogin (login : string) (db : DB) : option Z :=
  match find (fun r => like login (Author.login r))
             (scan_authors (authors db)) with
  | Some author => Some (Author.id author)
  | None => None
  end.

(** [select id from labels where name like ?], [fetchone()]. *)
Definition getLabelIDByName (name : string) (db : DB) : option Z :=
  match find (fun r => like name (Label.name r))
             (scan_labels (labels db)) with
  | Some label => Some (Label.id label)
  | None => None
  end.

(** The lines shared by [saveComments], [saveReviews] and
    [savePullRequests]:
    [author_login = (x.get("author") or {}).get("login")], then
    [saveAuthor(author_login)] and [getAuthorIDByLogin(author_login)]
    when the login is not [None]. *)
Definition resolve_author (author : option Actor.t) (db : DB)
    : result (DB * option Z) :=
  match or_empty_get author Actor.login with
  | Some author_login =>
      do db' <- saveAuthor author_login None db;
      Ok (db', getAuthorIDByLogin author_login db')
  | None => Ok (db, None)
  end.

(** The first loop of [saveComments]: it saves the authors and builds
    [query_data]. *)
Fixpoint saveComments_query_data (comments : list CommentNode.t)
    (pull_request_id review_id review_thread_id : option Z) (db : DB)
    : result (DB * list comment_tuple) :=
  match comments with
  | [] => Ok (db, [])
  | comment :: rest =>
      do '(db1, author_id) <- resolve_author (CommentNode.author comment) db;
      do id <- int_ (CommentNode.fullDatabaseId comment);
      do '(db2, query_data) <-
        saveComments_query_data rest pull_request_id review_id
                                review_thread_id db1;
      Ok (db2,
          (id, author_id, pull_request_id, review_id, review_thread_id,
           CommentNode.createdAt comment) :: query_data)
  end.

Definition saveComments (comments : option (list CommentNode.t))
    (pull_request_id review_id review_thread_id : option Z) (db : DB)
    : result DB :=
  match comments with
  | None | Some [] => Ok db
  | Some l =>
      do '(db1, query_data) <-
        saveComments_query_data l pull_request_id review_id
                                review_thread_id db;
      executemany insert_into_comments query_data db1
  end.

Fixpoint saveReviews_loop (reviews : list ReviewNode.t) (pull_request_id : Z)
    (db : DB) : result DB :=
  match reviews with
  | [] => Ok db
  | review :: rest =>
      do review_id <- int_ (ReviewNode.fullDatabaseId review);
      do '(db1, author_id) <- resolve_author (ReviewNode.author review) db;
      do db2 <-
        insert_into_reviews
          (review_id, author_id, pull_request_id, ReviewNode.createdAt review)
          db1;
      do db3 <-
        saveComments (or_empty_get (ReviewNode.comments review) nodes)
                     None (Some review_id) None db2;
      saveReviews_loop rest pull_request_id db3
  end.

Definition saveReviews (reviews : option (list ReviewNode.t))
    (pull_request_id : Z) (db : DB) : result DB :=
  match reviews with
  | None | Some [] => Ok db
  | Some l => saveReviews_loop l pull_request_id db
  end.

Fixpoint saveReviewThreads_loop (threads : list ReviewThreadNode.t)
    (pull_request_id : Z) (db : DB) : result DB :=
  match threads with
  | [] => Ok db
  | thread :: rest =>
      let node_id := ReviewThreadNode.id thread in
      do '(db1, res) <-
        insert_into_review_threads (node_id, pull_request_id) db;
      let thread_id := res in
      do db2 <-
        saveComments (or_empty_get (ReviewThreadNode.comments thread) nodes)
                     None None thread_id db1;
      saveReviewThreads_loop rest pull_request_id db2
  end.

Definition saveReviewThreads (threads : option (list ReviewThreadNode.t))
    (pull_request_id : Z) (db : DB) : result DB :=
  match threads with
  | None | Some [] => Ok db
  | Some l => saveReviewThreads_loop l pull_request_id db
  end.

(** The loop of [saveParticipants]: an author without login, or whose
    login is not found, is skipped. *)
Fixpoint saveParticipants_query_data (authors : list Actor.t)
    (pull_request_id : Z) (db : DB) : list (Z * Z) :=
  match authors with
  | [] => []
  | author :: rest =>
      let author_id :=
        match Actor.login author with
        | Some author_login => getAuthorIDByLogin author_login db
        | None => None
        end in
      match author_id with
      | None => saveParticipants_query_data rest pull_request_id db
      | Some author_id =>
          (author_id, pull_request_id)
            :: saveParticipants_query_data rest pull_request_id db
      end
  end.

Definition saveParticipants (authors : option (list Actor.t))
    (pull_request_id : Z) (db : DB) : result DB :=
  match authors with
  | None | Some [] => Ok db
  | Some l =>
      do db1 <- saveAuthors authors db;
      executemany insert_into_author_pull_request
        (saveParticipants_query_data l pull_request_id db1) db1
  end.

Fixpoint linkLabelsWithPullRequest_query_data (labels : list LabelNode.t)
    (pull_request_id : Z) (db : DB) : list (Z * Z) :=
  match labels with
  | [] => []
  | label :: rest =>
      let label_id :=
        match LabelNode.name label with
        | Some label_name => getLabelIDByName label_name db
        | None => None
        end in
      match label_id with
      | None => linkLabelsWithPullRequest_query_data rest pull_request_id db
      | Some label_id =>
          (label_id, pull_request_id)
            :: linkLabelsWithPullRequest_query_data rest pull_request_id db
      end
  end.

Definition linkLabelsWithPullRequest (labels : option (list LabelNode.t))
    (pull_request_id : Z) (db : DB) : result DB :=
  match labels with
  | None | Some [] => Ok db
  | Some l =>
      do db1 <- saveLabels labels db;
      executemany insert_into_label_pull_request
        (linkLabelsWithPullRequest_query_data l pull_request_id db1) db1
  end.

(** The tuple bound to the statement of [savePullRequests]. *)
Definition pull_request_values (pull_request : PullRequestNode.t)
    (pull_request_id : Z) (author_id : option Z) : result pull_request_tuple :=
  do additions <- int_ (PullRequestNode.additions pull_request);
  do deletions <- int_ (PullRequestNode.deletions pull_request);
  do is_cross_repository <-
    int_of_bool (PullRequestNode.isCrossRepository pull_request);
  Ok (pull_request_id,
      author_id,
      PullRequestNode.title pull_request,
      PullRequestNode.state pull_request,
      PullRequestNode.createdAt pull_request,
      PullRequestNode.closedAt pull_request,
      PullRequestNode.mergedAt pull_request,
      additions,
      deletions,
      PullRequestNode.authorAssociation pull_request,
      or_empty_get (PullRequestNode.headRepository pull_request)
                   PullRequestNode.url,
      is_cross_repository,
      or_empty_get
        (or_empty_get (PullRequestNode.mergeCommit pull_request)
                      PullRequestNode.statusCheckRollup)
        PullRequestNode.state_,
      PullRequestNode.totalCommentsCount pull_request).

(** One turn of the loop of [savePullRequests]. *)
Definition savePullRequest (pull_request : PullRequestNode.t) (db : DB)
    : result DB :=
  do pull_request_id <- int_ (PullRequestNode.number pull_request);
  do '(db, author_id) <-
    resolve_author (PullRequestNode.author pull_request) db;
  do values <- pull_request_values pull_request pull_request_id author_id;
  do db <- insert_into_pull_requests values db;
  do db <- saveCommits
             (or_empty_get (PullRequestNode.commits pull_request) nodes)
             pull_request_id db;
  do db <- saveComments
             (or_empty_get (PullRequestNode.comments pull_request) nodes)
             (Some pull_request_id) None None db;
  do db <- saveReviews
             (or_empty_get (PullRequestNode.reviews pull_request) nodes)
             pull_request_id db;
  do db <- saveReviewThreads
             (or_empty_get (PullRequestNode.reviewThreads pull_request) nodes)
             pull_request_id db;
  do db <- saveFiles
             (or_empty_get (PullRequestNode.files pull_request) nodes)
             pull_request_id db;
  do db <- saveParticipants
             (or_empty_get (PullRequestNode.participants pull_request) nodes)
             pull_request_id db;
  linkLabelsWithPullRequest
    (or_empty_get (PullRequestNode.labels pull_request) nodes)
    pull_request_id db.

Fixpoint savePullRequests (pull_requests : list PullRequestNode.t) (db : DB)
    : result DB :=
  match pull_requests with
  | [] => Ok db
  | pull_request :: rest =>
      do db' <- savePullRequest pull_request db;
      savePullRequests rest db'
  end.

End Store.

(** ** Deleting a parent row under the foreign keys of [db_init.py]

    [main.py] deletes nothing; what a [delete from authors where id = ?] or
    a [delete from pull_requests where id = ?] does to the child tables is
    fixed by the [on delete] action each foreign key declares. *)

Inductive on_delete := SET_NULL | CASCADE.

Module Schema.
(* foreign key (author_id) references authors(id) on delete ... *)
Definition pull_requests_author_id := SET_NULL.
Definition reviews_author_id := SET_NULL.
Definition comments_author_id := SET_NULL.
Definition author_pull_request_author_id := CASCADE.
(* foreign key (pull_request_id) references pull_requests(id) on delete ... *)
Definition commits_pull_request_id := SET_NULL.
Definition reviews_pull_request_id := SET_NULL.
Definition review_threads_pull_request_id := SET_NULL.
Definition comments_pull_request_id := SET_NULL.
Definition files_pull_request_id := CASCADE.
Definition author_pull_request_pull_request_id := CASCADE.
Definition label_pull_request_pull_request_id := CASCADE.
End Schema.

(** The action of one foreign key on its child table when the parent row
    with key [parent] is deleted. *)
Definition on_parent_delete {R} (action : on_delete) (child_key : R -> option Z)
    (set_null : R -> R) (parent : Z) (rows : list R) : list R :=
  match action with
  | SET_NULL =>
      map (fun r =>
             if sql_eqb Z.eqb (child_key r) (Some parent) then set_null r else r)
          rows
  | CASCADE =>
      filter (fun r => negb (sql_eqb Z.eqb (child_key r) (Some parent))) rows
  end.

(** A child row after [set null] on its [author_id], on its
    [pull_request_id]. *)
Definition pull_request_author_null (r : PullRequest.row) : PullRequest.row :=
  PullRequest.mk (PullRequest.id r) None (PullRequest.title r)
    (PullRequest.state r) (PullRequest.created_at r) (PullRequest.closed_at r)
    (PullRequest.merged_at r) (PullRequest.additions r) (PullRequest.deletions r)
    (PullRequest.author_association r) (PullRequest.head_repository_url r)
    (PullRequest.is_cross_repository r) (PullRequest.merge_commit_ci_state r)
    (PullRequest.api_total_comments_count r).
Definition review_author_null (r : Review.row) : Review.row :=
  Review.mk (Review.id r) None (Review.pull_request_id r) (Review.created_at r).
Definition comment_author_null (r : Comment.row) : Comment.row :=
  Comment.mk (Comment.id r) None (Comment.pull_request_id r)
    (Comment.review_id r) (Comment.review_thread_id r) (Comment.created_at r).
Definition author_pull_request_author_null (r : AuthorPullRequest.row)
    : AuthorPullRequest.row :=
  AuthorPullRequest.mk None (AuthorPullRequest.pull_request_id r).

Definition commit_pull_request_null (r : Commit.row) : Commit.row :=
  Commit.mk (Commit.id r) None (Commit.url r) (Commit.committed_at r).
Definition review_pull_request_null (r : Review.row) : Review.row :=
  Review.mk (Review.id r) (Review.author_id r) None (Review.created_at r).
Definition review_thread_pull_request_null (r : ReviewThread.row)
    : ReviewThread.row :=
  ReviewThread.mk (ReviewThread.id r) (ReviewThread.node_id r) None.
Definition comment_pull_request_null (r : Comment.row) : Comment.row :=
  Comment.mk (Comment.id r) (Comment.author_id r) None (Comment.review_id r)
    (Comment.review_thread_id r) (Comment.created_at r).
Definition file_pull_request_null (r : File.row) : File.row :=
  File.mk (File.id r) None (File.path r) (File.change_type r)
    (File.additions r) (File.deletions r).
Definition author_pull_request_pull_request_null (r : AuthorPullRequest.row)
    : AuthorPullRequest.row :=
  AuthorPullRequest.mk (AuthorPullRequest.author_id r) None.
Definition label_pull_request_pull_request_null (r : LabelPullRequest.row)
    : LabelPullRequest.row :=
  LabelPullRequest.mk (LabelPullRequest.label_id r) None.

(** [delete from authors where id = ?]. *)
Definition delete_from_authors (id : Z) (db : DB) : DB :=
  mkDB
    (filter (fun r => negb (Author.id r =? id)) (authors db))
    (on_parent_delete Schema.pull_requests_author_id PullRequest.author_id
       pull_request_author_null id (pull_requests db))
    (commits db)
    (on_parent_delete Schema.reviews_author_id Review.author_id
       review_author_null id (reviews db))
    (review_threads db)
    (on_parent_delete Schema.comments_author_id Comment.author_id
       comment_author_null id (comments db))
    (files db)
    (on_parent_delete Schema.author_pull_request_author_id
       AuthorPullRequest.author_id author_pull_request_author_null id
       (author_pull_request db))
    (labels db)
    (label_pull_request db).

(** [delete from pull_requests where id = ?]. *)
Definition delete_from_pull_requests (id : Z) (db : DB) : DB :=
  mkDB
    (authors db)
    (filter (fun r => negb (PullRequest.id r =? id)) (pull_requests db))
    (on_parent_delete Schema.commits_pull_request_id Commit.pull_request_id
       commit_pull_request_null id (commits db))
    (on_parent_delete Schema.reviews_pull_request_id Review.pull_request_id
       review_pull_request_null id (reviews db))
    (on_parent_delete Schema.review_threads_pull_request_id
       ReviewThread.pull_request_id review_thread_pull_request_null id
       (review_threads db))
    (on_parent_delete Schema.comments_pull_request_id Comment.pull_request_id
       comment_pull_request_null id (comments db))
    (on_parent_delete Schema.files_pull_request_id File.pull_request_id
       file_pull_request_null id (files db))
    (on_parent_delete Schema.author_pull_request_pull_request_id
       AuthorPullRequest.pull_request_id author_pull_request_pull_request_null
       id (author_pull_request db))
    (labels db)
    (on_parent_delete Schema.label_pull_request_pull_request_id
       LabelPullRequest.pull_request_id label_pull_request_pull_request_null
       id (label_pull_request db)).

(** ** The driver loop of [main.py]

    The transport and the clock are the environment.  The clock is a
    simulated [time.perf_counter()], counted in milliseconds: it advances by
    what [time.sleep] is given and by the time an exchange with the server
    takes.  Each turn of the loop makes one call of [executeQuery]; the
    loop is a function of the list of the exchanges that follow. *)

Definition PRS_PER_REQUEST : Z := 10.
Definition COST_PER_MINUTE : Z := 1900.
Definition WINDOW : Z := 60 * 1000.          (* the 60 of [60 - (cur - start)] *)
Definition PAGE_DELAY : Z := 100.            (* [time.sleep(.1)] *)

Module Answer.
Record rateLimit_t := mk_rateLimit { cost : Z }.
Record pageInfo_t := mk_pageInfo {
  endCursor : option string;
  hasNextPage : bool }.
Record pullRequests_t := mk_pullRequests {
  nodes : list PullRequestNode.t;
  pageInfo : pageInfo_t }.
Record repository_t := mk_repository { pullRequests : pullRequests_t }.
(** A field is [None] when its key is not in the answer. *)
Record t := mk {
  repository : option repository_t;
  rateLimit : option rateLimit_t;
  message : option string }.
End Answer.

Inductive reply :=
| TransportServerError (err : string)
| Result (result : Answer.t).

(** One call of [executeQuery] as the environment decides it: what comes
    back, and the time that passes until it has come back. *)
Record exchange := { answer : reply; elapsed : Z }.

(** What the run does to its environment: it sleeps, and it requests a
    page, with a credential, after a cursor, at a time. *)
Inductive event :=
| Sleep (duration : Z)
| Request (token : string) (after : option string) (at_ : Z).

(** The variables of the loop, with the store, the clock and the events
    so far. *)
Record driver := mkDriver {
  current_token_idx : nat;
  current_cost : Z;
  has_next_page : bool;
  next_page_after : option string;
  start : Z;
  saved_pull_requests : Z;
  con : DB;
  perf_counter : Z;
  trace : list event }.

Inductive outcome :=
| Running (d : driver)           (* the end of a turn of the loop *)
| Finished (d : driver)          (* [has_next_page] is false *)
| Exited (d : driver)            (* [safeExit()] *)
| Crashed (e : exn) (d : driver) (* an exception nobody catches *).

(** [time.sleep(duration)]. *)
Definition sleep (duration : Z) (d : driver) : driver :=
  mkDriver (current_token_idx d) (current_cost d) (has_next_page d)
    (next_page_after d) (start d) (saved_pull_requests d) (con d)
    (perf_counter d + duration) (trace d ++ [Sleep duration]).

(** The [if current_cost >= COST_PER_MINUTE] block that opens a turn. *)
Definition cooldown (d : driver) : driver :=
  if current_cost d >=? COST_PER_MINUTE then
    let cur := perf_counter d in
    let cooldown := WINDOW - (cur - start d) in
    let d := if cooldown >? 0 then sleep cooldown d else d in
    mkDriver (current_token_idx d) 0 (has_next_page d) (next_page_after d)
      (perf_counter d) (saved_pull_requests d) (con d) (perf_counter d)
      (trace d)
  else d.

(** [executeQuery(q, token)]: the request leaves at the current time and
    its answer arrives [elapsed] later. *)
Definition executeQuery (token : string) (x : exchange) (d : driver) : driver :=
  mkDriver (current_token_idx d) (current_cost d) (has_next_page d)
    (next_page_after d) (start d) (saved_pull_requests d) (con d)
    (perf_counter d + elapsed x)
    (trace d ++ [Request token (next_page_after d) (perf_counter d)]).

(** The [except TransportServerError] block. *)
Definition on_TransportServerError (token_pool : list string) (err : string)
    (d : driver) : outcome :=
  if negb (str_in "rate limit exceeded" err) && negb (str_in "Unauthorized" err)
  then Exited d
  else
    let d :=
      mkDriver (S (current_token_idx d)) (current_cost d) (has_next_page d)
        (next_page_after d) (start d) (saved_pull_requests d) (con d)
        (perf_counter d) (trace d) in
    if (List.length token_pool <=? current_token_idx d)%nat then Exited d
    else Running d.

Section Driver.

Variable scan_authors : list Author.row -> list Author.row.
Variable scan_labels : list Label.row -> list Label.row.
Variable token_pool : list string.

(** The [try] block after the request, for an answer [result]. *)
Definition on_result (result : Answer.t) (d : driver) : outcome :=
  match Answer.repository result, Answer.rateLimit result with
  | Some repository, Some rate_limit =>
      let current_cost := current_cost d + Answer.cost rate_limit in
      let page_info := Answer.pageInfo (Answer.pullRequests repository) in
      let pull_requests := Answer.nodes (Answer.pullRequests repository) in
      let d :=
        mkDriver (current_token_idx d) current_cost (has_next_page d)
          (next_page_after d) (start d) (saved_pull_requests d) (con d)
          (perf_counter d) (trace d) in
      match savePullRequests scan_authors scan_labels pull_requests (con d) with
      | Raise e => Crashed e d
      | Ok db =>
          let has_next_page := Answer.hasNextPage page_info in
          Running
            (sleep PAGE_DELAY
               (mkDriver (current_token_idx d) current_cost has_next_page
                  (if has_next_page then Answer.endCursor page_info else None)
                  (start d) (saved_pull_requests d + PRS_PER_REQUEST) db
                  (perf_counter d) (trace d)))
      end
  | _, _ =>
      match Answer.message result with
      | None => Exited d
      | Some _ => Crashed AttributeError d   (* [result.message] *)
      end
  end.

(** One turn of [while has_next_page]. *)
Definition turn (x : exchange) (d : driver) : outcome :=
  let d := cooldown d in
  match nth_error token_pool (current_token_idx d) with
  | None => Crashed IndexError d
  | Some token =>
      let d := executeQuery token x d in
      match answer x with
      | TransportServerError err => on_TransportServerError token_pool err d
      | Result result => on_result result d
      end
  end.

(** The loop, fed the exchanges to come; it returns with the exchanges it
    has not used.  [Running] is the loop waiting for more. *)
Fixpoint main (script : list exchange) (d : driver)
    : outcome * list exchange :=
  if has_next_page d then
    match script with
    | [] => (Running d, [])
    | x :: rest =>
        match turn x d with
        | Running d' => main rest d'
        | stop => (stop, rest)
        end
    end
  else (Finished d, script).

End Driver.

(** The state of [main.py] before the loop. *)
Definition initial (db : DB) (now : Z) : driver :=
  mkDriver 0 0 true None now 0 db now [].

(** The requests of a trace, in order, and the credential and the cursor
    of each. *)
Definition requests (t : list event) : list event :=
  filter (fun e => match e with Request _ _ _ => true | Sleep _ => false end) t.

Fixpoint tokens (t : list event) : list string :=
  match t with
  | [] => []
  | Request token _ _ :: t' => token :: tokens t'
  | Sleep _ :: t' => tokens t'
  end.

Fixpoint cursors (t : list event) : list (option string) :=
  match t with
  | [] => []
  | Request _ after _ :: t' => after :: cursors t'
  | Sleep _ :: t' => cursors t'
  end.

(** The state an outcome carries. *)
Definition state_of (o : outcome) : driver :=
  match o with
  | Running d | Finished d | Exited d | Crashed _ d => d
  end.

(** An exchange that fails with the authorization or rate-limit class of
    [TransportServerError]. *)
Definition auth_failure (x : exchange) : bool :=
  match answer x with
  | TransportServerError err =>
      str_in "rate limit exceeded" err || str_in "Unauthorized" err
  | Result _ => false
  end.

(** Rows by key. *)
Definition find_comment (id : Z) (db : DB) : option Comment.row :=
  find (fun r => Comment.id r =? id) (comments db).

Definition fits_int64 (z : Z) : Prop := INT64_MIN <= z <= INT64_MAX.
Definition opt_fits_int64 (z : option Z) : Prop :=
  match z with
  | Some v => fits_int64 v
  | None => True
  end.

(** The tables, to say which of them a piece of code may write. *)
Inductive table :=
| t_authors | t_pull_requests | t_commits | t_reviews | t_review_threads
| t_comments | t_files | t_author_pull_request | t_labels
| t_label_pull_request.

(** Every table outside [ts] is the same in [db] and [db']. *)
Definition unchanged_outside (ts : list table) (db db' : DB) : Prop :=
  (~ In t_authors ts -> authors db' = authors db)
  /\ (~ In t_pull_requests ts -> pull_requests db' = pull_requests db)
  /\ (~ In t_commits ts -> commits db' = commits db)
  /\ (~ In t_reviews ts -> reviews db' = reviews db)
  /\ (~ In t_review_threads ts -> review_threads db' = review_threads db)
  /\ (~ In t_comments ts -> comments db' = comments db)
  /\ (~ In t_files ts -> files db' = files db)
  /\ (~ In t_author_pull_request ts ->
      author_pull_request db' = author_pull_request db)
  /\ (~ In t_labels ts -> labels db' = labels db)
  /\ (~ In t_label_pull_request ts ->
      label_pull_request db' = label_pull_request db).

Definition comment_id (t : comment_tuple) : Z :=
  let '(id, _, _, _, _, _) := t in id.
Definition comment_links (t : comment_tuple) : option Z * option Z * option Z :=
  let '(_, _, pull_request_id, review_id, review_thread_id, _) := t in
  (pull_request_id, review_id, review_thread_id).

(** How many rows of [comments] carry the id. *)
Definition count_comments (id : Z) (db : DB) : nat :=
  List.length (filter (fun r => Comment.id r =? id) (comments db)).

(** ** Stored keys

    A tuple bound to an append-only statement has its key stored when a row
    carries the same values in the columns of the [on conflict] target, none
    of them null. *)

Definition commit_stored (p : Z * option string * option string) (db : DB)
    : Prop :=
  let '(pull_request_id, url, _) := p in
  exists r u,
    In r (commits db) /\ Commit.pull_request_id r = Some pull_request_id
    /\ url = Some u /\ Commit.url r = Some u.

Definition review_stored (p : Z * option Z * Z * option string) (db : DB)
    : Prop :=
  let '(id, _, _, _) := p in
  exists r, In r (reviews db) /\ Review.id r = id.

Definition file_stored (p : file_tuple) (db : DB) : Prop :=
  let '(pull_request_id, path, _, _, _) := p in
  exists r,
    In r (files db) /\ File.pull_request_id r = Some pull_request_id
    /\ path = Some (File.path r).

Definition label_stored (p : option string) (db : DB) : Prop :=
  exists r, In r (labels db) /\ p = Some (Label.name r).

Definition author_pull_request_stored (p : Z * Z) (db : DB) : Prop :=
  In (AuthorPullRequest.mk (Some (fst p)) (Some (snd p))) (author_pull_request db).

Definition label_pull_request_stored (p : Z * Z) (db : DB) : Prop :=
  In (LabelPullRequest.mk (Some (fst p)) (Some (snd p))) (label_pull_request db).

(** What lets a tuple through the binding and the [not null] checks. *)
Definition commit_bindable (p : Z * option string * option string) : Prop :=
  let '(pull_request_id, _, committed_at) := p in
  fits_int64 pull_request_id /\ committed_at <> None.

Definition review_bindable (p : Z * option Z * Z * option string) : Prop :=
  let '(id, _, pull_request_id, created_at) := p in
  fits_int64 id /\ fits_int64 pull_request_id /\ created_at <> None.

Definition file_bindable (p : file_tuple) : Prop :=
  let '(pull_request_id, _, _, additions, deletions) := p in
  fits_int64 pull_request_id /\ opt_fits_int64 additions
  /\ opt_fits_int64 deletions.

Definition link_bindable (p : Z * Z) : Prop := fits_int64 (snd p).

(** ** Sample stores and answers *)

(** The scan of a table in the order of its rows. *)
Definition rowid_order {R} (rows : list R) : list R := rows.

Definition sample_pull_request : PullRequest.row :=
  PullRequest.mk 5 None "Fix the parser" "OPEN" "2023-08-31T12:16:25Z" None
    None 10 2 "MEMBER" None 0 None 3.

(** A store with pull request 5 and review 7, and no comment yet. *)
Definition sample_store : DB :=
  mkDB [Author.mk 1 "alice" (Some "Alice")]
       [sample_pull_request] []
       [Review.mk 7 None (Some 5) "2023-09-01T08:00:00Z"]
       [] [] [] [] [] [].

Definition sample_comment : CommentNode.t :=
  CommentNode.mk (Some 100) (Some (Actor.mk (Some "alice") None))
                 (Some "2023-09-01T09:00:00Z").

(** [sample_store] after [saveComments([sample_comment], pull_request_id=5)]. *)
Definition sample_store_commented : DB :=
  set_comments sample_store
    [Comment.mk 100 (Some 1) (Some 5) None None "2023-09-01T09:00:00Z"].

Definition commit_without_url : CommitNode.t :=
  CommitNode.mk (Some (CommitNode.mk_commit None (Some "2023-08-31T12:00:00Z"))).

(** [sample_store] with one commit of pull request 5. *)
Definition sample_store_committed : DB :=
  set_commits sample_store
    [Commit.mk 1 (Some 5) (Some "https://example.org/c/1") "2023-08-31T12:00:00Z"].



(** A store with one row in every table, all tied to author 1 and pull
    request 5. *)
Definition sample_store_full : DB :=
  mkDB [Author.mk 1 "alice" (Some "Alice")]
       [PullRequest.mk 5 (Some 1) "Fix the parser" "OPEN"
          "2023-08-31T12:16:25Z" None None 10 2 "MEMBER" None 0 None 3]
       [Commit.mk 1 (Some 5) (Some "https://example.org/c/1")
          "2023-08-31T12:00:00Z"]
       [Review.mk 7 (Some 1) (Some 5) "2023-09-01T08:00:00Z"]
       [ReviewThread.mk 1 "PRRT_1" (Some 5)]
       [Comment.mk 100 (Some 1) (Some 5) None None "2023-09-01T09:00:00Z"]
       [File.mk 1 (Some 5) "src/parser.c" (Some "MODIFIED") (Some 10) (Some 2)]
       [AuthorPullRequest.mk (Some 1) (Some 5)]
       [Label.mk 1 "clang"]
       [LabelPullRequest.mk (Some 1) (Some 5)].

(** The store after [saveAuthor("alice")] and [saveAuthor("Alice")]: the
    logins differ for the [unique] constraint, so both rows are stored. *)
Definition store_two_cases : DB :=
  set_authors empty_db [Author.mk 1 "alice" None; Author.mk 2 "Alice" None].

Definition unauthorized : exchange :=
  {| answer := TransportServerError "401, message='Unauthorized'"; elapsed := 5 |}.

(** The driver with the cost at the budget, 20 seconds into the window. *)
Definition driver_over_budget : driver :=
  mkDriver 0 1900 true (Some "cursor-1") 1000 10 sample_store 21000 [].

(** A comment and a review as the API may report them: [fullDatabaseId] is
    nullable in the schema the query of [prepareQuery] annotates. *)
Definition comment_without_id : CommentNode.t :=
  CommentNode.mk None (Some (Actor.mk (Some "alice") None))
                 (Some "2023-09-01T09:00:00Z").

Definition review_without_id : ReviewNode.t :=
  ReviewNode.mk (Some (Actor.mk (Some "alice") None))
                (Some "2023-09-01T08:00:00Z") None None.

(** A text without [%] and [_]. *)
Fixpoint no_wildcard (s : string) : bool :=
  match s with
  | EmptyString => true
  | String c s' =>
      negb (Ascii.eqb c matchAll) && negb (Ascii.eqb c matchOne)
      && no_wildcard s'
  end.

(** ** Invariants of the store *)

(** [l'] is [l] followed by further elements. *)
Definition prefix {A} (l l' : list A) : Prop := exists extra, l' = l ++ extra.

(** The lists of the model only grow: a statement leaves the rows of the
    append-only tables as they are and puts a new row at the end of its
    list; an author keeps its id and login, a pull request its id, a
    comment its id, author and date.  The end of the list is where SQLite
    puts a row whose rowid it chooses; for the order of the other rows see
    [rows_kept]. *)
Definition grows (db db' : DB) : Prop :=
  prefix (map (fun r => (Author.id r, Author.login r)) (authors db))
         (map (fun r => (Author.id r, Author.login r)) (authors db'))
  /\ prefix (map PullRequest.id (pull_requests db))
            (map PullRequest.id (pull_requests db'))
  /\ prefix (commits db) (commits db')
  /\ prefix (reviews db) (reviews db')
  /\ prefix (review_threads db) (review_threads db')
  /\ prefix (map (fun r => (Comment.id r, Comment.author_id r, Comment.created_at r))
                 (comments db))
            (map (fun r => (Comment.id r, Comment.author_id r, Comment.created_at r))
                 (comments db'))
  /\ prefix (files db) (files db')
  /\ prefix (author_pull_request db) (author_pull_request db')
  /\ prefix (labels db) (labels db')
  /\ prefix (label_pull_request db) (label_pull_request db').

(** Every child key of [rows] is null or the key of a parent. *)
Definition fk {R} (rows : list R) (key : R -> option Z) (parents : list Z)
    : Prop :=
  Forall (fun r => references parents (key r) = true) rows.

(** The fourteen foreign keys of [db_init.py] hold. *)
Definition fk_valid (db : DB) : Prop :=
  fk (pull_requests db) PullRequest.author_id (author_ids db)
  /\ fk (commits db) Commit.pull_request_id (pull_request_ids db)
  /\ fk (reviews db) Review.author_id (author_ids db)
  /\ fk (reviews db) Review.pull_request_id (pull_request_ids db)
  /\ fk (review_threads db) ReviewThread.pull_request_id (pull_request_ids db)
  /\ fk (comments db) Comment.author_id (author_ids db)
  /\ fk (comments db) Comment.pull_request_id (pull_request_ids db)
  /\ fk (comments db) Comment.review_id (review_ids db)
  /\ fk (comments db) Comment.review_thread_id (review_thread_ids db)
  /\ fk (files db) File.pull_request_id (pull_request_ids db)
  /\ fk (author_pull_request db) AuthorPullRequest.author_id (author_ids db)
  /\ fk (author_pull_request db) AuthorPullRequest.pull_request_id
        (pull_request_ids db)
  /\ fk (label_pull_request db) LabelPullRequest.label_id (label_ids db)
  /\ fk (label_pull_request db) LabelPullRequest.pull_request_id
        (pull_request_ids db).

(** The key of a two-column [unique] constraint: it takes part in the
    constraint only when both columns are not null. *)
Definition key2 {A B} (a : option A) (b : option B) : option (A * B) :=
  match a, b with
  | Some x, Some y => Some (x, y)
  | _, _ => None
  end.

Fixpoint somes {K} (l : list (option K)) : list K :=
  match l with
  | [] => []
  | Some k :: l' => k :: somes l'
  | None :: l' => somes l'
  end.

(** No two of the keys that are not null are equal. *)
Definition sql_unique {K} (keys : list (option K)) : Prop := NoDup (somes keys).

(** The [primary key] and [unique] constraints of [db_init.py] hold. *)
Definition unique_valid (db : DB) : Prop :=
  NoDup (map Author.id (authors db))
  /\ NoDup (map Author.login (authors db))
  /\ NoDup (map PullRequest.id (pull_requests db))
  /\ NoDup (map Commit.id (commits db))
  /\ sql_unique (map (fun r => key2 (Commit.pull_request_id r) (Commit.url r))
                     (commits db))
  /\ NoDup (map Review.id (reviews db))
  /\ NoDup (map ReviewThread.id (review_threads db))
  /\ NoDup (map ReviewThread.node_id (review_threads db))
  /\ NoDup (map Comment.id (comments db))
  /\ NoDup (map File.id (files db))
  /\ sql_unique (map (fun r => key2 (File.pull_request_id r) (Some (File.path r)))
                     (files db))
  /\ sql_unique (map (fun r => key2 (AuthorPullRequest.author_id r)
                                    (AuthorPullRequest.pull_request_id r))
                     (author_pull_request db))
  /\ NoDup (map Label.id (labels db))
  /\ NoDup (map Label.name (labels db))
  /\ sql_unique (map (fun r => key2 (LabelPullRequest.label_id r)
                                    (LabelPullRequest.pull_request_id r))
                     (label_pull_request db)).

(** The login bound to the statement of [saveAuthor] is that of a stored
    author. *)
Definition login_stored (p : option string * option string) (db : DB) : Prop :=
  match fst p with
  | Some login => In login (map Author.login (authors db))
  | None => False
  end.

(** A property of the store that each of the ten statements keeps. *)
Definition statements_keep (I : DB -> Prop) : Prop :=
  (forall p db db', I db -> insert_into_authors p db = Ok db' -> I db')
  /\ (forall p db db', I db -> insert_into_pull_requests p db = Ok db' -> I db')
  /\ (forall p db db', I db -> insert_into_commits p db = Ok db' -> I db')
  /\ (forall p db db', I db -> insert_into_reviews p db = Ok db' -> I db')
  /\ (forall p db db' res,
         I db -> insert_into_review_threads p db = Ok (db', res) -> I db')
  /\ (forall p db db', I db -> insert_into_comments p db = Ok db' -> I db')
  /\ (forall p db db', I db -> insert_into_files p db = Ok db' -> I db')
  /\ (forall p db db',
         I db -> insert_into_author_pull_request p db = Ok db' -> I db')
  /\ (forall p db db', I db -> insert_into_labels p db = Ok db' -> I db')
  /\ (forall p db db',
         I db -> insert_into_label_pull_request p db = Ok db' -> I db').

(** An outcome other than an exception nobody catches. *)
Definition not_crashed (o : outcome) : Prop :=
  match o with
  | Crashed _ _ => False
  | _ => True
  end.

(** The one page of the end-to-end example: pull request 5 of [alice] with
    a commit, a comment, a file, a participant and the label [clang]. *)
Definition sample_page : list PullRequestNode.t :=
  [PullRequestNode.mk (Some 5) (Some (Actor.mk (Some "alice") None))
     (Some "Fix the parser") (Some "OPEN") (Some "2023-08-31T12:16:25Z") None
     None (Some 10) (Some 2)
     (Some {| nodes := Some [CommitNode.mk
                (Some (CommitNode.mk_commit (Some "https://example.org/c/1")
                                            (Some "2023-08-31T12:00:00Z")))] |})
     (Some {| nodes := Some [sample_comment] |})
     None None
     (Some {| nodes := Some [FileNode.mk (Some "src/parser.c") (Some "MODIFIED")
                                         (Some 10) (Some 2)] |})
     (Some {| nodes := Some [Actor.mk (Some "alice") (Some "Alice")] |})
     (Some "MEMBER") None (Some false)
     (Some {| nodes := Some [LabelNode.mk (Some "clang")] |})
     None (Some 3)].

(** The answer that carries [sample_page] as the last page. *)
Definition sample_answer : exchange :=
  {| answer :=
       Result
         (Answer.mk
            (Some (Answer.mk_repository
                     (Answer.mk_pullRequests sample_page
                        (Answer.mk_pageInfo (Some "cursor-1") false))))
            (Some (Answer.mk_rateLimit 7)) None);
     elapsed := 300 |}.

(** ** The cursor of a run *)

(** The [pageInfo] of an exchange whose answer has both [repository] and
    [rateLimit]. *)
Definition page_of (x : exchange) : option Answer.pageInfo_t :=
  match answer x with
  | Result result =>
      match Answer.repository result, Answer.rateLimit result with
      | Some repository, Some _ =>
          Some (Answer.pageInfo (Answer.pullRequests repository))
      | _, _ => None
      end
  | TransportServerError _ => None
  end.

(** The cursor after an exchange: that of the page it brought, the same
    cursor when it brought none. *)
Definition cursor_after (after : option string) (x : exchange) : option string :=
  match page_of x with
  | Some page_info =>
      if Answer.hasNextPage page_info then Answer.endCursor page_info else None
  | None => after
  end.

(** The cursors of one request for each exchange, from [after] on. *)
Fixpoint cursors_of (after : option string) (used : list exchange)
    : list (option string) :=
  match used with
  | [] => []
  | x :: rest => after :: cursors_of (cursor_after after x) rest
  end.

(** A transport failure of neither class, a bad gateway, and an answer
    that is only a message. *)
Definition bad_gateway : exchange :=
  {| answer := TransportServerError "502, message='Bad Gateway'"; elapsed := 5 |}.

Definition only_message : exchange :=
  {| answer := Result (Answer.mk None None (Some "Bad credentials"));
     elapsed := 5 |}.

(** A page with a next page: it carries no pull request. *)
Definition empty_page (cursor : string) : exchange :=
  {| answer :=
       Result
         (Answer.mk
            (Some (Answer.mk_repository
                     (Answer.mk_pullRequests []
                        (Answer.mk_pageInfo (Some cursor) true))))
            (Some (Answer.mk_rateLimit 1)) None);
     elapsed := 300 |}.

(** ** The cost a run has counted *)

(** The [cost] an answer reports in its [rateLimit]. *)
Definition reported_cost (x : exchange) : Z :=
  match answer x with
  | Result result =>
      match Answer.rateLimit result with
      | Some rate_limit => Answer.cost rate_limit
      | None => 0
      end
  | TransportServerError _ => 0
  end.

(** The sum of the costs reported by [used], from [current_cost] on, begun
    again at zero by each turn that starts at or over the budget. *)
Fixpoint counted_cost (current_cost : Z) (used : list exchange) : Z :=
  match used with
  | [] => current_cost
  | x :: rest =>
      counted_cost
        ((if current_cost >=? COST_PER_MINUTE then 0 else current_cost)
         + reported_cost x)
        rest
  end.

(** A page with a next page that costs the whole budget. *)
Definition costly_page : exchange :=
  {| answer :=
       Result
         (Answer.mk
            (Some (Answer.mk_repository
                     (Answer.mk_pullRequests []
                        (Answer.mk_pageInfo (Some "cursor-1") true))))
            (Some (Answer.mk_rateLimit 1900)) None);
     elapsed := 300 |}.

(** ** Rows that are kept *)

(** What a save keeps of the store.  The rows of commits, review_threads,
    files, labels and the two join tables get their rowid from SQLite, one
    more than the largest: they stay where they are and new rows come
    after them.  A review, a comment and a pull request get their id from
    the answer, so a new row may come before a stored one: every stored
    review is still stored, unchanged, and so are the id of every pull
    request and the id, author and date of every comment.  An author keeps
    its id and login. *)
Definition rows_kept (db db' : DB) : Prop :=
  prefix (map (fun r => (Author.id r, Author.login r)) (authors db))
         (map (fun r => (Author.id r, Author.login r)) (authors db'))
  /\ incl (map PullRequest.id (pull_requests db))
          (map PullRequest.id (pull_requests db'))
  /\ prefix (commits db) (commits db')
  /\ incl (reviews db) (reviews db')
  /\ prefix (review_threads db) (review_threads db')
  /\ incl (map (fun r => (Comment.id r, Comment.author_id r, Comment.created_at r))
               (comments db))
          (map (fun r => (Comment.id r, Comment.author_id r, Comment.created_at r))
               (comments db'))
  /\ prefix (files db) (files db')
  /\ prefix (author_pull_request db) (author_pull_request db')
  /\ prefix (labels db) (labels db')
  /\ prefix (label_pull_request db) (label_pull_request db').

(** * Properties *)

(** ** The error monad *)

Lemma bind_Ok {A B} (m : result A) (k : A -> result B) (b : B) :
  bind m k = Ok b -> exists a, m = Ok a /\ k a = Ok b.
Proof. destruct m as [a|e]; cbn; [eauto | discriminate]. Qed.

Lemma bind_int_Ok z z' : bind_int z = Ok z' -> z' = z /\ fits_int64 z.
Proof.
  unfold bind_int, fits_int64.
  destruct (INT64_MIN <=? z) eqn:Hlo; destruct (z <=? INT64_MAX) eqn:Hhi;
    cbn; intros H; inversion H; subst.
  apply Z.leb_le in Hlo, Hhi. auto.
Qed.

Lemma bind_int_fits z : fits_int64 z -> bind_int z = Ok z.
Proof.
  unfold bind_int, fits_int64. intros [Hlo Hhi].
  apply Z.leb_le in Hlo, Hhi. now rewrite Hlo, Hhi.
Qed.

Lemma bind_int_opt_Ok z z' :
  bind_int_opt z = Ok z' -> z' = z /\ opt_fits_int64 z.
Proof.
  destruct z as [v|]; cbn.
  - intros H. apply bind_Ok in H. destruct H as (v' & Hv & H).
    apply bind_int_Ok in Hv. destruct Hv; subst. inversion H. now split.
  - intros H. inversion H. now split.
Qed.

Lemma bind_int_opt_fits z : opt_fits_int64 z -> bind_int_opt z = Ok z.
Proof.
  destruct z as [v|]; cbn; [|reflexivity].
  intros H. now rewrite (bind_int_fits _ H).
Qed.

Lemma not_null_Ok {A} (v : option A) a : not_null v = Ok a -> v = Some a.
Proof. destruct v; cbn; intros H; inversion H; reflexivity. Qed.

Lemma int_Ok x z : int_ x = Ok z -> x = Some z.
Proof. destruct x; cbn; intros H; inversion H; reflexivity. Qed.

Lemma foreign_key_Ok parents k u :
  foreign_key parents k = Ok u -> references parents k = true.
Proof. unfold foreign_key. destruct (references parents k); [reflexivity | discriminate]. Qed.

Lemma foreign_key_references parents k :
  references parents k = true -> foreign_key parents k = Ok tt.
Proof. unfold foreign_key. now intros ->. Qed.

(** Splits a successful run of monadic code into its successful steps. *)
Ltac monad_inv :=
  repeat match goal with
    | H : Ok _ = Ok _ |- _ => inversion H; subst; clear H
    | H : Raise _ = Ok _ |- _ => discriminate H
    | H : bind _ _ = Ok _ |- _ =>
        apply bind_Ok in H; destruct H as (? & ? & H); cbv beta in H
    | H : bind_int _ = Ok _ |- _ =>
        apply bind_int_Ok in H; destruct H as [? ?]; subst
    | H : bind_int_opt _ = Ok _ |- _ =>
        apply bind_int_opt_Ok in H; destruct H as [? ?]; subst
    | H : not_null (Some _) = Ok _ |- _ => cbn [not_null] in H
    | H : not_null _ = Ok _ |- _ => apply not_null_Ok in H; subst
    | H : int_ _ = Ok _ |- _ => apply int_Ok in H
    | H : foreign_key _ _ = Ok _ |- _ => apply foreign_key_Ok in H
    | H : (let '(_, _) := ?x in _) = Ok _ |- _ => destruct x
    end.

(** ** Lists of rows *)

Lemma find_app_Some {A} (f : A -> bool) l l' x :
  find f l = Some x -> find f (l ++ l') = Some x.
Proof.
  induction l as [|a l IH]; cbn; [discriminate|].
  destruct (f a); [trivial | exact IH].
Qed.

Lemma find_app_None {A} (f : A -> bool) l l' :
  find f l = None -> find f (l ++ l') = find f l'.
Proof.
  induction l as [|a l IH]; cbn; [reflexivity|].
  destruct (f a); [discriminate | exact IH].
Qed.

Lemma find_existsb {A} (f : A -> bool) l :
  existsb f l = match find f l with Some _ => true | None => false end.
Proof.
  induction l as [|a l IH]; cbn; [reflexivity|].
  destruct (f a); [reflexivity | exact IH].
Qed.

(** Updating the rows that satisfy [p] with an [upd] that keeps [p]'s
    verdict does not move the first row found by [p]. *)
Lemma find_map_update {A} (p q : A -> bool) (upd : A -> A) l :
  (forall r, q r = true -> p (upd r) = p r) ->
  find p (map (fun r => if q r then upd r else r) l)
  = option_map (fun r => if q r then upd r else r) (find p l).
Proof.
  intros Hp. induction l as [|a l IH]; cbn; [reflexivity|].
  destruct (q a) eqn:Hq.
  - rewrite (Hp a Hq). destruct (p a); cbn; [now rewrite Hq | exact IH].
  - destruct (p a); cbn; [now rewrite Hq | exact IH].
Qed.

Lemma map_update_id {A} (q : A -> bool) (upd : A -> A) l :
  (forall r, In r l -> q r = true -> upd r = r) ->
  map (fun r => if q r then upd r else r) l = l.
Proof.
  induction l as [|a l IH]; cbn; intros H; [reflexivity|].
  rewrite IH by (intros; apply H; auto).
  destruct (q a) eqn:Hq; [rewrite H; auto | reflexivity].
Qed.

Lemma count_map_update {A} (p q : A -> bool) (upd : A -> A) l :
  (forall r, p (upd r) = p r) ->
  List.length (filter p (map (fun r => if q r then upd r else r) l))
  = List.length (filter p l).
Proof.
  intros Hp. induction l as [|a l IH]; cbn; [reflexivity|].
  destruct (q a); rewrite ?Hp; destruct (p a); cbn; now rewrite IH.
Qed.

(** ** Authors *)


Lemma saveAuthor_total login name db :
  exists db', saveAuthor login name db = Ok db'.
Proof.
  unfold saveAuthor, insert_into_authors. cbn.
  destruct (existsb _ (authors db)); [destruct name|]; eauto.
Qed.

(** ** Which tables a statement writes *)

Lemma unchanged_refl ts db : unchanged_outside ts db db.
Proof. unfold unchanged_outside. tauto. Qed.

Lemma unchanged_trans ts db1 db2 db3 :
  unchanged_outside ts db1 db2 -> unchanged_outside ts db2 db3 ->
  unchanged_outside ts db1 db3.
Proof.
  unfold unchanged_outside.
  intros (A1 & A2 & A3 & A4 & A5 & A6 & A7 & A8 & A9 & A10)
         (B1 & B2 & B3 & B4 & B5 & B6 & B7 & B8 & B9 & B10).
  repeat split; intros H;
    [ rewrite B1, A1 | rewrite B2, A2 | rewrite B3, A3 | rewrite B4, A4
    | rewrite B5, A5 | rewrite B6, A6 | rewrite B7, A7 | rewrite B8, A8
    | rewrite B9, A9 | rewrite B10, A10 ]; auto.
Qed.

Lemma unchanged_incl ts ts' db db' :
  incl ts ts' -> unchanged_outside ts db db' -> unchanged_outside ts' db db'.
Proof.
  unfold unchanged_outside, incl.
  intros Hi (A1 & A2 & A3 & A4 & A5 & A6 & A7 & A8 & A9 & A10).
  repeat split; intros H;
    [ apply A1 | apply A2 | apply A3 | apply A4 | apply A5 | apply A6
    | apply A7 | apply A8 | apply A9 | apply A10 ]; intros Hin; apply H; auto.
Qed.

(** Closes [unchanged_outside] for a statement that rebuilds one table. *)
Ltac frame_setter :=
  unfold unchanged_outside; cbn;
  repeat split; intros Hnot; try reflexivity;
  exfalso; apply Hnot; auto.

Ltac frame_stmt :=
  monad_inv;
  repeat match goal with
    | H : (if ?c then _ else _) = Ok _ |- _ => destruct c
    | H : match ?x with _ => _ end = Ok _ |- _ => destruct x
    | _ => progress monad_inv
    end;
  try apply unchanged_refl; frame_setter.

Lemma insert_into_authors_frame p db db' :
  insert_into_authors p db = Ok db' -> unchanged_outside [t_authors] db db'.
Proof. destruct p as [login name]. unfold insert_into_authors. intros H. frame_stmt. Qed.


Lemma insert_into_comments_frame p db db' :
  insert_into_comments p db = Ok db' -> unchanged_outside [t_comments] db db'.
Proof.
  destruct p as [[[[[a b] c] d] e] f]. unfold insert_into_comments.
  intros H. frame_stmt.
Qed.

Lemma insert_into_reviews_frame p db db' :
  insert_into_reviews p db = Ok db' -> unchanged_outside [t_reviews] db db'.
Proof. destruct p as [[[a b] c] d]. unfold insert_into_reviews. intros H. frame_stmt. Qed.



Lemma insert_into_author_pull_request_frame p db db' :
  insert_into_author_pull_request p db = Ok db' ->
  unchanged_outside [t_author_pull_request] db db'.
Proof. destruct p as [a b]. unfold insert_into_author_pull_request. intros H. frame_stmt. Qed.

Lemma insert_into_labels_frame p db db' :
  insert_into_labels p db = Ok db' -> unchanged_outside [t_labels] db db'.
Proof. unfold insert_into_labels. intros H. frame_stmt. Qed.

Lemma insert_into_label_pull_request_frame p db db' :
  insert_into_label_pull_request p db = Ok db' ->
  unchanged_outside [t_label_pull_request] db db'.
Proof. destruct p as [a b]. unfold insert_into_label_pull_request. intros H. frame_stmt. Qed.

Lemma insert_into_pull_requests_frame p db db' :
  insert_into_pull_requests p db = Ok db' ->
  unchanged_outside [t_pull_requests] db db'.
Proof.
  destruct p as [[[[[[[[[[[[[a b] c] d] e] f] g] h] i] j] k] l] m] n].
  unfold insert_into_pull_requests. intros H. frame_stmt.
Qed.

Lemma executemany_frame {P} (stmt : P -> DB -> result DB) ts :
  (forall p db db', stmt p db = Ok db' -> unchanged_outside ts db db') ->
  forall l db db', executemany stmt l db = Ok db' -> unchanged_outside ts db db'.
Proof.
  intros Hs. induction l as [|p l IH]; cbn; intros db db' H.
  - inversion H. apply unchanged_refl.
  - monad_inv. eapply unchanged_trans; eauto.
Qed.

(** ** Comments *)

Lemma merge_comment_idem p r t row :
  merge_comment p r t (merge_comment p r t row) = merge_comment p r t row.
Proof. destruct p, r, t; reflexivity. Qed.

(** One upsert: a stored row with the incoming id is merged, every other
    stored row is kept. *)
Lemma insert_into_comments_find tup db db' :
  insert_into_comments tup db = Ok db' ->
  forall id old,
    find_comment id db = Some old ->
    find_comment id db'
    = Some (if id =? comment_id tup
            then let '(p, r, t) := comment_links tup in merge_comment p r t old
            else old).
Proof.
  destruct tup as [[[[[cid a] p] r] t] ca].
  unfold insert_into_comments, find_comment. cbn [comment_id comment_links].
  intros H id old Hold. monad_inv.
  destruct (find_some _ _ Hold) as [_ Hid].
  destruct (find _ (comments db)) as [old'|] eqn:Hfind in H.
  - monad_inv. cbn [comments set_comments].
    rewrite (find_map_update (fun r0 => Comment.id r0 =? id)
               (fun r0 => Comment.id r0 =? cid) (merge_comment p r t))
      by (intros; reflexivity).
    rewrite Hold. cbn. apply Z.eqb_eq in Hid. now rewrite Hid.
  - monad_inv. cbn [comments set_comments].
    rewrite (find_app_Some _ _ _ _ Hold).
    destruct (id =? cid) eqn:E; [|reflexivity].
    apply Z.eqb_eq in E. subst cid. congruence.
Qed.

Lemma insert_into_comments_count tup db db' :
  insert_into_comments tup db = Ok db' ->
  forall id old,
    find_comment id db = Some old ->
    count_comments id db' = count_comments id db.
Proof.
  destruct tup as [[[[[cid a] p] r] t] ca].
  unfold insert_into_comments, find_comment, count_comments.
  intros H id old Hold. monad_inv.
  destruct (find _ (comments db)) as [old'|] eqn:Hfind in H.
  - monad_inv. cbn [comments set_comments].
    now apply count_map_update.
  - monad_inv. cbn [comments set_comments].
    rewrite filter_app, length_app. cbn.
    destruct (cid =? id) eqn:E; [|cbn; lia].
    apply Z.eqb_eq in E. subst cid. congruence.
Qed.

(** [executemany] of the upsert with the same three parent links in every
    tuple, as [saveComments] builds them. *)
Lemma executemany_comments_find p r t query_data :
  Forall (fun tup => comment_links tup = (p, r, t)) query_data ->
  forall db db',
    executemany insert_into_comments query_data db = Ok db' ->
    forall id old,
      find_comment id db = Some old ->
      find_comment id db'
      = Some (if existsb (Z.eqb id) (map comment_id query_data)
              then merge_comment p r t old else old)
      /\ count_comments id db' = count_comments id db.
Proof.
  induction 1 as [|tup l Htup _ IH]; cbn [executemany map existsb];
    intros db db' H id old Hold.
  - inversion H; subst. auto.
  - monad_inv.
    pose proof (insert_into_comments_find _ _ _ H0 _ _ Hold) as Hstep.
    pose proof (insert_into_comments_count _ _ _ H0 _ _ Hold) as Hcount.
    rewrite Htup in Hstep.
    destruct (IH _ _ H _ _ Hstep) as [Hrest Hc].
    split; [|congruence].
    rewrite Hrest.
    destruct (id =? comment_id tup); cbn [orb].
    + rewrite merge_comment_idem. now destruct (existsb _ _).
    + reflexivity.
Qed.

(** Proves [~ In t ts] for a table [t] that is not listed in [ts]. *)
Ltac not_in_tables :=
  let H := fresh in
  intros H; cbn in H; repeat (destruct H as [H|H]; [discriminate H|]); exact H.

(** Turns [unchanged_outside ts db db'] into the equations of the tables
    that are not in [ts]. *)
Ltac use_frame H :=
  let F1 := fresh "F" in let F2 := fresh "F" in let F3 := fresh "F" in
  let F4 := fresh "F" in let F5 := fresh "F" in let F6 := fresh "F" in
  let F7 := fresh "F" in let F8 := fresh "F" in let F9 := fresh "F" in
  let F10 := fresh "F" in
  destruct H as (F1 & F2 & F3 & F4 & F5 & F6 & F7 & F8 & F9 & F10);
  try specialize (F1 ltac:(not_in_tables));
  try specialize (F2 ltac:(not_in_tables));
  try specialize (F3 ltac:(not_in_tables));
  try specialize (F4 ltac:(not_in_tables));
  try specialize (F5 ltac:(not_in_tables));
  try specialize (F6 ltac:(not_in_tables));
  try specialize (F7 ltac:(not_in_tables));
  try specialize (F8 ltac:(not_in_tables));
  try specialize (F9 ltac:(not_in_tables));
  try specialize (F10 ltac:(not_in_tables)).

Section StoreFacts.

Variable scan_authors : list Author.row -> list Author.row.
Variable scan_labels : list Label.row -> list Label.row.

Lemma resolve_author_frame author db db' author_id :
  resolve_author scan_authors author db = Ok (db', author_id) ->
  unchanged_outside [t_authors] db db'.
Proof.
  unfold resolve_author, saveAuthor.
  destruct (or_empty_get author Actor.login); intros H; monad_inv.
  - eapply insert_into_authors_frame; eauto.
  - apply unchanged_refl.
Qed.

Lemma resolve_author_total author db :
  exists db' author_id,
    resolve_author scan_authors author db = Ok (db', author_id).
Proof.
  unfold resolve_author.
  destruct (or_empty_get author Actor.login) as [l|]; [|eauto].
  destruct (saveAuthor_total l None db) as [db' ->]. cbn. eauto.
Qed.

Lemma saveComments_query_data_spec l p r t :
  forall db db' query_data,
    saveComments_query_data scan_authors l p r t db = Ok (db', query_data) ->
    unchanged_outside [t_authors] db db'
    /\ Forall (fun tup => comment_links tup = (p, r, t)) query_data
    /\ map (fun tup => Some (comment_id tup)) query_data
       = map CommentNode.fullDatabaseId l.
Proof.
  induction l as [|c l IH]; cbn [saveComments_query_data];
    intros db db' query_data H.
  - monad_inv. split; [apply unchanged_refl | split; [constructor | reflexivity]].
  - monad_inv.
    lazymatch goal with
    | Hrec : saveComments_query_data _ _ _ _ _ _ = Ok _,
      Hres : resolve_author _ _ _ = Ok _,
      Hid : CommentNode.fullDatabaseId _ = Some _ |- _ =>
        destruct (IH _ _ _ Hrec) as (Hf & Hl & Hm);
        apply resolve_author_frame in Hres;
        split; [|split];
        [ eapply unchanged_trans; eauto
        | constructor; [reflexivity | exact Hl]
        | cbn [map comment_id]; now rewrite Hm, Hid ]
    end.
Qed.

Lemma saveComments_frame l p r t db db' :
  saveComments scan_authors l p r t db = Ok db' ->
  unchanged_outside [t_authors; t_comments] db db'.
Proof.
  unfold saveComments. destruct l as [[|c l]|]; intros H;
    try (monad_inv; apply unchanged_refl).
  monad_inv.
  lazymatch goal with
  | Hq : saveComments_query_data _ _ _ _ _ _ = Ok _,
    He : executemany _ _ _ = Ok _ |- _ =>
      apply saveComments_query_data_spec in Hq; destruct Hq as (Hf & _ & _);
      apply (executemany_frame _ _ insert_into_comments_frame) in He;
      eapply unchanged_trans;
        [eapply unchanged_incl; [|exact Hf] | eapply unchanged_incl; [|exact He]];
        intros x Hx; cbn in *; tauto
  end.
Qed.

Lemma existsb_comment_ids id (query_data : list comment_tuple) l :
  map (fun tup => Some (comment_id tup)) query_data = map CommentNode.fullDatabaseId l ->
  existsb (Z.eqb id) (map comment_id query_data) = true
  <-> In (Some id) (map CommentNode.fullDatabaseId l).
Proof.
  intros <-. rewrite existsb_exists. split.
  - intros (x & Hin & Hx). apply Z.eqb_eq in Hx. subst x.
    apply in_map_iff in Hin. destruct Hin as (tup & <- & Hin).
    apply in_map_iff. eauto.
  - intros Hin. apply in_map_iff in Hin. destruct Hin as (tup & Ht & Hin).
    inversion Ht. exists (comment_id tup). split.
    + now apply in_map.
    + now rewrite H0, Z.eqb_refl.
Qed.

(** C1.  [saveComments] merges the three parent links of a stored comment:
    a later save of a record with the same id puts the incoming
    [pull_request_id], [review_id] and [review_thread_id] where they are
    not null and keeps the stored ones where they are null, so a link
    that is set is never erased; the comment stays one row, and a stored
    comment that is not in the saved list is left as it is.  The save of
    one such record succeeds whenever its [createdAt] is present, the
    integers fit SQLite's and the merged links name stored parents. *)
Theorem C1_comment_parent_links_merge :
  forall (l : list CommentNode.t) (pull_request_id review_id review_thread_id : option Z)
         (db : DB) (id : Z) (old : Comment.row),
    find_comment id db = Some old ->
    (forall db',
        saveComments scan_authors (Some l) pull_request_id review_id
                     review_thread_id db = Ok db' ->
        exists new,
          find_comment id db' = Some new
          /\ count_comments id db' = count_comments id db
          /\ (In (Some id) (map CommentNode.fullDatabaseId l) ->
              Comment.pull_request_id new
              = match pull_request_id with
                | Some v => Some v
                | None => Comment.pull_request_id old
                end
              /\ Comment.review_id new
                 = match review_id with
                   | Some v => Some v
                   | None => Comment.review_id old
                   end
              /\ Comment.review_thread_id new
                 = match review_thread_id with
                   | Some v => Some v
                   | None => Comment.review_thread_id old
                   end
              /\ Comment.author_id new = Comment.author_id old
              /\ Comment.created_at new = Comment.created_at old)
          /\ (~ In (Some id) (map CommentNode.fullDatabaseId l) -> new = old)
          /\ (Comment.pull_request_id old <> None ->
              Comment.pull_request_id new <> None)
          /\ (Comment.review_id old <> None -> Comment.review_id new <> None)
          /\ (Comment.review_thread_id old <> None ->
              Comment.review_thread_id new <> None))
    /\ (forall author created_at,
           fits_int64 id ->
           opt_fits_int64 pull_request_id ->
           opt_fits_int64 review_id ->
           opt_fits_int64 review_thread_id ->
           references (pull_request_ids db)
             (coalesce pull_request_id (Comment.pull_request_id old)) = true ->
           references (review_ids db)
             (coalesce review_id (Comment.review_id old)) = true ->
           references (review_thread_ids db)
             (coalesce review_thread_id (Comment.review_thread_id old)) = true ->
           exists db',
             saveComments scan_authors
               (Some [CommentNode.mk (Some id) author (Some created_at)])
               pull_request_id review_id review_thread_id db = Ok db').
Proof.
  intros l p r t db id old Hold. split.
  - intros db' H. unfold saveComments in H.
    destruct l as [|c l'] eqn:El.
    { monad_inv. exists old. cbn. repeat split; auto; tauto. }
    rewrite <- El in *. clear El c l'. monad_inv.
    lazymatch goal with
    | Hq : saveComments_query_data _ _ _ _ _ _ = Ok (?d1, ?qd),
      He : executemany _ _ _ = Ok _ |- _ =>
        rename Hq into Hdata; rename He into Hexec;
        rename d1 into db1; rename qd into query_data
    end.
    apply saveComments_query_data_spec in Hdata.
    destruct Hdata as (Hf & Hlinks & Hids).
    destruct Hf as (_ & _ & _ & _ & _ & Hcomments & _).
    specialize (Hcomments ltac:(not_in_tables)).
    assert (Hold1 : find_comment id db1 = Some old)
      by (unfold find_comment in *; rewrite Hcomments; exact Hold).
    destruct (executemany_comments_find _ _ _ _ Hlinks _ _ Hexec _ _ Hold1)
      as [Hfind Hcount].
    pose proof (existsb_comment_ids id _ _ Hids) as Hin.
    assert (Hc : count_comments id db' = count_comments id db)
      by (unfold count_comments in *; rewrite Hcount, Hcomments; reflexivity).
    eexists. split; [exact Hfind|]. split; [exact Hc|].
    destruct (existsb (Z.eqb id) (map comment_id query_data)).
    + split; [intros _; destruct p, r, t; cbn; repeat split; reflexivity|].
      split; [intros Hn; exfalso; apply Hn, Hin; reflexivity|].
      destruct p, r, t; cbn; repeat split; congruence.
    + split; [intros Hi; apply Hin in Hi; discriminate|].
      repeat split; auto.
  - intros author created_at Hid Hp Hr Ht Fp Fr Ft.
    unfold saveComments.
    cbn [saveComments_query_data int_ bind CommentNode.author
         CommentNode.fullDatabaseId CommentNode.createdAt].
    destruct (resolve_author_total author db) as (db1 & aid & Hres).
    rewrite Hres. cbn [bind CommentNode.author CommentNode.fullDatabaseId
                       CommentNode.createdAt executemany].
    apply resolve_author_frame in Hres. use_frame Hres.
    unfold insert_into_comments.
    rewrite (bind_int_fits _ Hid), (bind_int_opt_fits _ Hp),
      (bind_int_opt_fits _ Hr), (bind_int_opt_fits _ Ht).
    cbn [bind not_null].
    unfold find_comment in Hold.
    replace (comments db1) with (comments db) by congruence.
    rewrite Hold.
    unfold pull_request_ids, review_ids, review_thread_ids in *.
    replace (pull_requests db1) with (pull_requests db) by congruence.
    replace (reviews db1) with (reviews db) by congruence.
    replace (review_threads db1) with (review_threads db) by congruence.
    cbn [merge_comment Comment.pull_request_id
      Comment.review_id Comment.review_thread_id].
    rewrite (foreign_key_references _ _ Fp), (foreign_key_references _ _ Fr),
      (foreign_key_references _ _ Ft).
    cbn. eauto.
Qed.

End StoreFacts.

(** The example of the specification: saved with [pull_request_id = 5],
    then with [review_id = 7], the comment is one row that carries both. *)
Example comment_saved_twice :
  (do db <- saveComments rowid_order (Some [sample_comment]) (Some 5) None None
                         sample_store;
   saveComments rowid_order (Some [sample_comment]) None (Some 7) None db)
  = Ok (set_comments sample_store
          [Comment.mk 100 (Some 1) (Some 5) (Some 7) None
                      "2023-09-01T09:00:00Z"]).
Proof. reflexivity. Qed.

Lemma C1_comment_parent_links_merge_witness :
  find_comment 100 sample_store_commented
  = Some (Comment.mk 100 (Some 1) (Some 5) None None "2023-09-01T09:00:00Z")
  /\ exists db' new,
      saveComments rowid_order (Some [sample_comment]) None (Some 7) None
                   sample_store_commented = Ok db'
      /\ find_comment 100 db' = Some new
      /\ count_comments 100 db' = 1%nat
      /\ Comment.pull_request_id new = Some 5
      /\ Comment.review_id new = Some 7.
Proof.
  split; [reflexivity|].
  destruct (C1_comment_parent_links_merge rowid_order [sample_comment]
              None (Some 7) None sample_store_commented 100 _ eq_refl)
    as [Hmerge Htotal].
  destruct (Htotal (Some (Actor.mk (Some "alice") None)) "2023-09-01T09:00:00Z")
    as [db' Hsave]; try reflexivity; try (split; discriminate).
  destruct (Hmerge db' Hsave) as (new & Hfind & Hcount & Hin & _).
  destruct Hin as (Hp & Hr & _); [left; reflexivity|].
  exists db', new. repeat split; assumption.
Defined.



(** ** Pull requests *)




Lemma saveAuthors_frame l db db' :
  saveAuthors l db = Ok db' -> unchanged_outside [t_authors] db db'.
Proof.
  unfold saveAuthors. destruct l as [[|a l]|]; intros H;
    try (monad_inv; apply unchanged_refl).
  eapply executemany_frame; [apply insert_into_authors_frame | exact H].
Qed.



Lemma saveLabels_frame l db db' :
  saveLabels l db = Ok db' -> unchanged_outside [t_labels] db db'.
Proof.
  unfold saveLabels. destruct l as [[|a l]|]; intros H;
    try (monad_inv; apply unchanged_refl).
  eapply executemany_frame; [apply insert_into_labels_frame | exact H].
Qed.

Section StoreFrames.

Variable scan_authors : list Author.row -> list Author.row.
Variable scan_labels : list Label.row -> list Label.row.





End StoreFrames.

Section PullRequests.

Variable scan_authors : list Author.row -> list Author.row.
Variable scan_labels : list Label.row -> list Label.row.


End PullRequests.

(** ** Append-only tables *)

Lemma executemany_noop {P} (stmt : P -> DB -> result DB)
    (stored : P -> DB -> Prop) :
  (forall p db db', stored p db -> stmt p db = Ok db' -> db' = db) ->
  forall l db db',
    Forall (fun p => stored p db) l -> executemany stmt l db = Ok db' -> db' = db.
Proof.
  intros Hs l db db' Hl. induction Hl as [|p l Hp _ IH]; cbn; intros H.
  - now inversion H.
  - monad_inv.
    lazymatch goal with
    | Hstep : stmt p db = Ok ?d |- _ =>
        assert (d = db) by (eapply Hs; eauto); subst d
    end.
    auto.
Qed.

Lemma executemany_total {P} (stmt : P -> DB -> result DB) (good : P -> Prop) db :
  (forall p, good p -> stmt p db = Ok db) ->
  forall l, Forall good l -> executemany stmt l db = Ok db.
Proof.
  intros Hs l Hl. induction Hl as [|p l Hp _ IH]; cbn; [reflexivity|].
  now rewrite (Hs p Hp).
Qed.

Lemma existsb_In {A} (f : A -> bool) l r :
  In r l -> f r = true -> existsb f l = true.
Proof. intros. apply existsb_exists. eauto. Qed.

Lemma insert_into_commits_stored p db :
  commit_stored p db ->
  (forall db', insert_into_commits p db = Ok db' -> db' = db)
  /\ (commit_bindable p -> insert_into_commits p db = Ok db).
Proof.
  destruct p as [[pid url] date]. intros (r & u & Hin & Hp & -> & Hu).
  assert (E : existsb (fun r0 =>
                sql_eqb Z.eqb (Commit.pull_request_id r0) (Some pid)
                && sql_eqb String.eqb (Commit.url r0) (Some u)) (commits db) = true).
  { apply (existsb_In _ _ r Hin). rewrite Hp, Hu. cbn.
    now rewrite Z.eqb_refl, String.eqb_refl. }
  unfold insert_into_commits. split.
  - intros db' H. monad_inv. rewrite E in H. now inversion H.
  - intros [Hfit Hdate]. destruct date as [d|]; [|contradiction].
    rewrite (bind_int_fits _ Hfit). cbn. now rewrite E.
Qed.

Lemma insert_into_reviews_stored p db :
  review_stored p db ->
  (forall db', insert_into_reviews p db = Ok db' -> db' = db)
  /\ (review_bindable p -> insert_into_reviews p db = Ok db).
Proof.
  destruct p as [[[id aid] pid] created]. intros (r & Hin & Hid).
  assert (E : existsb (fun r0 => Review.id r0 =? id) (reviews db) = true).
  { apply (existsb_In _ _ r Hin). now apply Z.eqb_eq. }
  unfold insert_into_reviews. split.
  - intros db' H. monad_inv. rewrite E in H. now inversion H.
  - intros (Hfit & Hfit' & Hc). destruct created as [c|]; [|contradiction].
    rewrite (bind_int_fits _ Hfit), (bind_int_fits _ Hfit'). cbn. now rewrite E.
Qed.

Lemma insert_into_files_stored p db :
  file_stored p db ->
  (forall db', insert_into_files p db = Ok db' -> db' = db)
  /\ (file_bindable p -> insert_into_files p db = Ok db).
Proof.
  destruct p as [[[[pid path] ct] a] d]. intros (r & Hin & Hp & ->).
  assert (E : existsb (fun r0 =>
                sql_eqb Z.eqb (File.pull_request_id r0) (Some pid)
                && String.eqb (File.path r0) (File.path r)) (files db) = true).
  { apply (existsb_In _ _ r Hin). rewrite Hp. cbn.
    now rewrite Z.eqb_refl, String.eqb_refl. }
  unfold insert_into_files. split.
  - intros db' H. monad_inv. rewrite E in H. now inversion H.
  - intros (Hfit & Ha & Hd).
    rewrite (bind_int_fits _ Hfit), (bind_int_opt_fits _ Ha),
      (bind_int_opt_fits _ Hd). cbn. now rewrite E.
Qed.

Lemma insert_into_labels_stored p db :
  label_stored p db -> insert_into_labels p db = Ok db.
Proof.
  intros (r & Hin & ->). unfold insert_into_labels. cbn.
  rewrite (existsb_In _ _ r Hin); [reflexivity | apply String.eqb_refl].
Qed.

Lemma insert_into_author_pull_request_stored p db :
  author_pull_request_stored p db ->
  (forall db', insert_into_author_pull_request p db = Ok db' -> db' = db)
  /\ (link_bindable p -> insert_into_author_pull_request p db = Ok db).
Proof.
  destruct p as [a pid]. unfold author_pull_request_stored, link_bindable.
  cbn [fst snd]. intros Hin.
  assert (E : existsb (fun r0 =>
                sql_eqb Z.eqb (AuthorPullRequest.author_id r0) (Some a)
                && sql_eqb Z.eqb (AuthorPullRequest.pull_request_id r0) (Some pid))
                (author_pull_request db) = true).
  { apply (existsb_In _ _ _ Hin). cbn. now rewrite !Z.eqb_refl. }
  unfold insert_into_author_pull_request. split.
  - intros db' H. monad_inv. rewrite E in H. now inversion H.
  - intros Hfit. rewrite (bind_int_fits _ Hfit). cbn. now rewrite E.
Qed.

Lemma insert_into_label_pull_request_stored p db :
  label_pull_request_stored p db ->
  (forall db', insert_into_label_pull_request p db = Ok db' -> db' = db)
  /\ (link_bindable p -> insert_into_label_pull_request p db = Ok db).
Proof.
  destruct p as [a pid]. unfold label_pull_request_stored, link_bindable.
  cbn [fst snd]. intros Hin.
  assert (E : existsb (fun r0 =>
                sql_eqb Z.eqb (LabelPullRequest.label_id r0) (Some a)
                && sql_eqb Z.eqb (LabelPullRequest.pull_request_id r0) (Some pid))
                (label_pull_request db) = true).
  { apply (existsb_In _ _ _ Hin). cbn. now rewrite !Z.eqb_refl. }
  unfold insert_into_label_pull_request. split.
  - intros db' H. monad_inv. rewrite E in H. now inversion H.
  - intros Hfit. rewrite (bind_int_fits _ Hfit). cbn. now rewrite E.
Qed.

(** Both halves for a list of tuples run by [executemany]. *)
Lemma executemany_stored {P} (stmt : P -> DB -> result DB)
    (stored : P -> DB -> Prop) (bindable : P -> Prop) :
  (forall p db, stored p db ->
                (forall db', stmt p db = Ok db' -> db' = db)
                /\ (bindable p -> stmt p db = Ok db)) ->
  forall l db,
    Forall (fun p => stored p db) l ->
    (forall db', executemany stmt l db = Ok db' -> db' = db)
    /\ (Forall bindable l -> executemany stmt l db = Ok db).
Proof.
  intros Hs l db Hl. split.
  - intros db'. apply (executemany_noop stmt stored); [|exact Hl].
    intros p d d' Hp. now apply Hs.
  - intros Hb.
    apply (executemany_total stmt (fun p => stored p db /\ bindable p)).
    + intros p [Hp Hbp]. now apply Hs.
    + rewrite Forall_forall in *. auto.
Qed.

(** The save functions that do more than one batch: [saveReviews] saves
    authors and comments besides, [saveParticipants] and
    [linkLabelsWithPullRequest] save authors and labels before they link
    them.  On stored keys each leaves the table of its entity as it is. *)
Lemma saveReviews_loop_stored scan_authors l pull_request_id :
  forall db db',
    (forall review id,
        In review l -> ReviewNode.fullDatabaseId review = Some id ->
        In id (review_ids db)) ->
    saveReviews_loop scan_authors l pull_request_id db = Ok db' ->
    reviews db' = reviews db.
Proof.
  induction l as [|review l IH]; cbn [saveReviews_loop]; intros db db' Hall H;
    monad_inv; [reflexivity|].
  lazymatch goal with
  | Hi : ReviewNode.fullDatabaseId review = Some ?rid,
    Ha : resolve_author _ _ _ = Ok (?d1, _),
    Hr : insert_into_reviews (_, ?aid, _, _) ?d1 = Ok ?d2,
    Hc : saveComments _ _ _ _ _ ?d2 = Ok ?d3 |- _ =>
      rename Hi into Hid; rename Ha into Hauthor; rename Hr into Hreview;
      rename Hc into Hcomments; rename d1 into db1; rename d2 into db2;
      rename d3 into db3; rename rid into review_id; rename aid into author_id
  end.
  apply resolve_author_frame in Hauthor.
  destruct Hauthor as (_ & _ & _ & Hr1 & _).
  specialize (Hr1 ltac:(not_in_tables)).
  assert (Hst : review_stored
                  (review_id, author_id, pull_request_id,
                   ReviewNode.createdAt review)
                  db1).
  { cbn [review_stored].
    pose proof (Hall review review_id (or_introl eq_refl) Hid) as Hin.
    unfold review_ids in Hin. apply in_map_iff in Hin.
    destruct Hin as (r & Hr & Hin). exists r. split; [now rewrite Hr1 | exact Hr]. }
  pose proof (proj1 (insert_into_reviews_stored _ _ Hst) _ Hreview) as E.
  subst db2.
  apply saveComments_frame in Hcomments.
  destruct Hcomments as (_ & _ & _ & Hr3 & _).
  specialize (Hr3 ltac:(not_in_tables)).
  rewrite (IH db3 db'); [congruence | | exact H].
  intros rv id Hin Hrv. unfold review_ids. rewrite Hr3, Hr1.
  apply (Hall rv id); [now right | exact Hrv].
Qed.

Lemma saveParticipants_query_data_inv scan_authors l pull_request_id db p :
  In p (saveParticipants_query_data scan_authors l pull_request_id db) ->
  exists author login,
    In author l /\ Actor.login author = Some login
    /\ getAuthorIDByLogin scan_authors login db = Some (fst p)
    /\ snd p = pull_request_id.
Proof.
  induction l as [|x l IH]; cbn [saveParticipants_query_data]; [contradiction|].
  destruct (Actor.login x) as [login|] eqn:El.
  - destruct (getAuthorIDByLogin scan_authors login db) as [id|] eqn:Eid.
    + intros [<-|Hin].
      * exists x, login. cbn. auto.
      * destruct (IH Hin) as (a & lg & Ha & Hrest). exists a, lg. cbn. auto.
    + intros Hin. destruct (IH Hin) as (a & lg & Ha & Hrest).
      exists a, lg. cbn. auto.
  - intros Hin. destruct (IH Hin) as (a & lg & Ha & Hrest).
    exists a, lg. cbn. auto.
Qed.

Lemma linkLabelsWithPullRequest_query_data_inv scan_labels l pull_request_id db p :
  In p (linkLabelsWithPullRequest_query_data scan_labels l pull_request_id db) ->
  exists label name,
    In label l /\ LabelNode.name label = Some name
    /\ getLabelIDByName scan_labels name db = Some (fst p)
    /\ snd p = pull_request_id.
Proof.
  induction l as [|x l IH]; cbn [linkLabelsWithPullRequest_query_data];
    [contradiction|].
  destruct (LabelNode.name x) as [name|] eqn:El.
  - destruct (getLabelIDByName scan_labels name db) as [id|] eqn:Eid.
    + intros [<-|Hin].
      * exists x, name. cbn. auto.
      * destruct (IH Hin) as (a & lg & Ha & Hrest). exists a, lg. cbn. auto.
    + intros Hin. destruct (IH Hin) as (a & lg & Ha & Hrest).
      exists a, lg. cbn. auto.
  - intros Hin. destruct (IH Hin) as (a & lg & Ha & Hrest).
    exists a, lg. cbn. auto.
Qed.

Lemma saveParticipants_stored scan_authors l pull_request_id db db' :
  (forall author login id,
      In author l -> Actor.login author = Some login ->
      getAuthorIDByLogin scan_authors login db' = Some id ->
      In (AuthorPullRequest.mk (Some id) (Some pull_request_id))
         (author_pull_request db)) ->
  saveParticipants scan_authors (Some l) pull_request_id db = Ok db' ->
  author_pull_request db' = author_pull_request db.
Proof.
  intros Hall H. unfold saveParticipants in H.
  destruct l as [|a0 l0] eqn:El; [now inversion H|]. rewrite <- El in *.
  clear El a0 l0. monad_inv.
  lazymatch goal with
  | Hs : saveAuthors _ _ = Ok ?d |- _ => rename Hs into Hsave; rename d into db1
  end.
  apply saveAuthors_frame in Hsave.
  destruct Hsave as (_ & _ & _ & _ & _ & _ & _ & Hl1 & _).
  specialize (Hl1 ltac:(not_in_tables)).
  pose proof (executemany_frame _ _ insert_into_author_pull_request_frame
                _ _ _ H) as (Ha & _).
  specialize (Ha ltac:(not_in_tables)).
  assert (E : db' = db1); [|now subst db'].
  revert H.
  apply (executemany_stored insert_into_author_pull_request
           author_pull_request_stored link_bindable
           insert_into_author_pull_request_stored).
  apply Forall_forall. intros [id pid] Hp.
  apply saveParticipants_query_data_inv in Hp.
  destruct Hp as (author & login & Hin & Hlogin & Hid & Hpid).
  cbn [fst snd] in *. subst pid.
  unfold author_pull_request_stored. cbn [fst snd]. rewrite Hl1.
  apply (Hall author login id Hin Hlogin).
  unfold getAuthorIDByLogin in *. now rewrite Ha.
Qed.

Lemma linkLabelsWithPullRequest_stored scan_labels l pull_request_id db db' :
  (forall label name id,
      In label l -> LabelNode.name label = Some name ->
      getLabelIDByName scan_labels name db' = Some id ->
      In (LabelPullRequest.mk (Some id) (Some pull_request_id))
         (label_pull_request db)) ->
  linkLabelsWithPullRequest scan_labels (Some l) pull_request_id db = Ok db' ->
  label_pull_request db' = label_pull_request db.
Proof.
  intros Hall H. unfold linkLabelsWithPullRequest in H.
  destruct l as [|a0 l0] eqn:El; [now inversion H|]. rewrite <- El in *.
  clear El a0 l0. monad_inv.
  lazymatch goal with
  | Hs : saveLabels _ _ = Ok ?d |- _ => rename Hs into Hsave; rename d into db1
  end.
  apply saveLabels_frame in Hsave.
  destruct Hsave as (_ & _ & _ & _ & _ & _ & _ & _ & _ & Hl1).
  specialize (Hl1 ltac:(not_in_tables)).
  pose proof (executemany_frame _ _ insert_into_label_pull_request_frame
                _ _ _ H) as (_ & _ & _ & _ & _ & _ & _ & _ & Ha & _).
  specialize (Ha ltac:(not_in_tables)).
  assert (E : db' = db1); [|now subst db'].
  revert H.
  apply (executemany_stored insert_into_label_pull_request
           label_pull_request_stored link_bindable
           insert_into_label_pull_request_stored).
  apply Forall_forall. intros [id pid] Hp.
  apply linkLabelsWithPullRequest_query_data_inv in Hp.
  destruct Hp as (label & name & Hin & Hname & Hid & Hpid).
  cbn [fst snd] in *. subst pid.
  unfold label_pull_request_stored. cbn [fst snd]. rewrite Hl1.
  apply (Hall label name id Hin Hname).
  unfold getLabelIDByName in *. now rewrite Ha.
Qed.

(** C4.  The append-only entities are idempotent on a stored key.  For
    commits, reviews, files, labels and the two join tables: when every
    tuple of a batch has its key stored, with no null key column, the
    batch leaves the store exactly as it was whenever it completes,
    whatever the other values of the tuples are, and it completes whenever
    the tuples pass the binding and the [not null] checks.  So do the
    save functions of [main.py]: on stored keys [saveCommits],
    [saveFiles] and [saveLabels] return the store as it was,
    [saveReviews] leaves the reviews as they were, and [saveParticipants]
    and [linkLabelsWithPullRequest] leave the rows of their join table as
    they were; the stored rows are unchanged and none is added. *)
Theorem C4_append_only_idempotent :
  (forall l db,
      Forall (fun p => commit_stored p db) l ->
      (forall db', executemany insert_into_commits l db = Ok db' -> db' = db)
      /\ (Forall commit_bindable l -> executemany insert_into_commits l db = Ok db))
  /\ (forall l db,
         Forall (fun p => review_stored p db) l ->
         (forall db', executemany insert_into_reviews l db = Ok db' -> db' = db)
         /\ (Forall review_bindable l ->
             executemany insert_into_reviews l db = Ok db))
  /\ (forall l db,
         Forall (fun p => file_stored p db) l ->
         (forall db', executemany insert_into_files l db = Ok db' -> db' = db)
         /\ (Forall file_bindable l -> executemany insert_into_files l db = Ok db))
  /\ (forall l db,
         Forall (fun p => label_stored p db) l ->
         executemany insert_into_labels l db = Ok db)
  /\ (forall l db,
         Forall (fun p => author_pull_request_stored p db) l ->
         (forall db',
             executemany insert_into_author_pull_request l db = Ok db' -> db' = db)
         /\ (Forall link_bindable l ->
             executemany insert_into_author_pull_request l db = Ok db))
  /\ (forall l db,
         Forall (fun p => label_pull_request_stored p db) l ->
         (forall db',
             executemany insert_into_label_pull_request l db = Ok db' -> db' = db)
         /\ (Forall link_bindable l ->
             executemany insert_into_label_pull_request l db = Ok db))
  /\ (forall commits pull_request_id db db',
         (forall commit, In commit commits ->
            commit_stored
              (pull_request_id,
               or_empty_get (CommitNode.commit commit) CommitNode.commitUrl,
               or_empty_get (CommitNode.commit commit) CommitNode.committedDate)
              db) ->
         saveCommits (Some commits) pull_request_id db = Ok db' -> db' = db)
  /\ (forall files pull_request_id db db',
         (forall file, In file files ->
            file_stored
              (pull_request_id, FileNode.path file, FileNode.changeType file,
               FileNode.additions file, FileNode.deletions file) db) ->
         saveFiles (Some files) pull_request_id db = Ok db' -> db' = db)
  /\ (forall labels db,
         (forall label, In label labels ->
            label_stored (LabelNode.name label) db) ->
         saveLabels (Some labels) db = Ok db)
  /\ (forall scan_authors reviews_ pull_request_id db db',
         (forall review id,
             In review reviews_ -> ReviewNode.fullDatabaseId review = Some id ->
             In id (review_ids db)) ->
         saveReviews scan_authors (Some reviews_) pull_request_id db = Ok db' ->
         reviews db' = reviews db)
  /\ (forall scan_authors authors_ pull_request_id db db',
         (forall author login id,
             In author authors_ -> Actor.login author = Some login ->
             getAuthorIDByLogin scan_authors login db' = Some id ->
             In (AuthorPullRequest.mk (Some id) (Some pull_request_id))
                (author_pull_request db)) ->
         saveParticipants scan_authors (Some authors_) pull_request_id db
         = Ok db' ->
         author_pull_request db' = author_pull_request db)
  /\ (forall scan_labels labels_ pull_request_id db db',
         (forall label name id,
             In label labels_ -> LabelNode.name label = Some name ->
             getLabelIDByName scan_labels name db' = Some id ->
             In (LabelPullRequest.mk (Some id) (Some pull_request_id))
                (label_pull_request db)) ->
         linkLabelsWithPullRequest scan_labels (Some labels_) pull_request_id db
         = Ok db' ->
         label_pull_request db' = label_pull_request db).
Proof.
  repeat lazymatch goal with |- _ /\ _ => split end;
    try (intros scan l pid db db'; first
           [ apply saveParticipants_stored
           | apply linkLabelsWithPullRequest_stored
           | intros Hall H; unfold saveReviews in H;
             destruct l as [|r0 l0] eqn:El; [now inversion H|];
             rewrite <- El in *;
             now apply (saveReviews_loop_stored scan l pid db db') ]).
  - apply executemany_stored, insert_into_commits_stored.
  - apply executemany_stored, insert_into_reviews_stored.
  - apply executemany_stored, insert_into_files_stored.
  - intros l db Hl.
    apply (executemany_total _ (fun p => label_stored p db)); [|exact Hl].
    intros p. apply insert_into_labels_stored.
  - apply executemany_stored, insert_into_author_pull_request_stored.
  - apply executemany_stored, insert_into_label_pull_request_stored.
  - intros commits pid db db' Hall H. unfold saveCommits in H.
    destruct commits as [|c l]; [now inversion H|].
    revert H. apply executemany_stored with (stored := commit_stored) (bindable := commit_bindable).
    + apply insert_into_commits_stored.
    + apply Forall_forall. intros p Hp. apply in_map_iff in Hp.
      destruct Hp as (x & <- & Hx). now apply Hall.
  - intros files pid db db' Hall H. unfold saveFiles in H.
    destruct files as [|c l]; [now inversion H|].
    revert H. apply executemany_stored with (stored := file_stored) (bindable := file_bindable).
    + apply insert_into_files_stored.
    + apply Forall_forall. intros p Hp. apply in_map_iff in Hp.
      destruct Hp as (x & <- & Hx). now apply Hall.
  - intros labels db Hall. unfold saveLabels.
    destruct labels as [|c l]; [reflexivity|].
    apply (executemany_total _ (fun p => label_stored p db)).
    + intros p. apply insert_into_labels_stored.
    + apply Forall_forall. intros p Hp. apply in_map_iff in Hp.
      destruct Hp as (x & <- & Hx). now apply Hall.
Qed.

Lemma C4_append_only_idempotent_witness :
  (Forall (fun p => commit_stored p sample_store_committed)
          [(5, Some "https://example.org/c/1", Some "2024-01-01T00:00:00Z")]
   /\ Forall commit_bindable
             [(5, Some "https://example.org/c/1", Some "2024-01-01T00:00:00Z")]
   /\ executemany insert_into_commits
        [(5, Some "https://example.org/c/1", Some "2024-01-01T00:00:00Z")]
        sample_store_committed
      = Ok sample_store_committed)
  /\ exists db',
      saveReviews rowid_order
        (Some [ReviewNode.mk (Some (Actor.mk (Some "bob") None))
                 (Some "2024-01-01T00:00:00Z") (Some 7) None])
        5 sample_store_full = Ok db'
      /\ reviews db' = reviews sample_store_full
      /\ db' <> sample_store_full.
Proof.
  assert (Hs : Forall (fun p => commit_stored p sample_store_committed)
                 [(5, Some "https://example.org/c/1", Some "2024-01-01T00:00:00Z")]).
  { constructor; [|constructor]. cbn.
    eexists; eexists. split; [left; reflexivity|]. repeat split. }
  assert (Hb : Forall commit_bindable
                 [(5, Some "https://example.org/c/1", Some "2024-01-01T00:00:00Z")]).
  { constructor; [|constructor]. cbn. repeat split; discriminate. }
  split.
  - split; [exact Hs|]. split; [exact Hb|].
    exact (proj2 (proj1 C4_append_only_idempotent _ _ Hs) Hb).
  - destruct C4_append_only_idempotent
      as (_ & _ & _ & _ & _ & _ & _ & _ & _ & Hreviews & _ & _).
    eexists. split; [reflexivity|]. split; [|discriminate].
    apply (Hreviews rowid_order
             [ReviewNode.mk (Some (Actor.mk (Some "bob") None))
                (Some "2024-01-01T00:00:00Z") (Some 7) None]
             5 sample_store_full); [|reflexivity].
    intros review id [<-|[]] Hid. inversion Hid. now left.
Defined.

(** A commit whose url is null never conflicts: the row (5, NULL) is
    stored by the first save, and the second save stores it again.  And a
    stored key does not make the save a no-op whatever the other values
    are: without [committedDate] the statement raises on [not null] before
    it looks for a conflict. *)
Lemma C4_null_url_saved_twice :
  exists db1 db2,
    saveCommits (Some [commit_without_url]) 5 sample_store = Ok db1
    /\ In (Commit.mk 1 (Some 5) None "2023-08-31T12:00:00Z") (commits db1)
    /\ saveCommits (Some [commit_without_url]) 5 db1 = Ok db2
    /\ db2 <> db1
    /\ commits db2
       = [Commit.mk 1 (Some 5) None "2023-08-31T12:00:00Z";
          Commit.mk 2 (Some 5) None "2023-08-31T12:00:00Z"]
    /\ saveCommits
         (Some [CommitNode.mk
                  (Some (CommitNode.mk_commit (Some "https://example.org/c/1")
                                              None))])
         5 sample_store_committed
       = Raise (IntegrityError NOT_NULL).
Proof.
  do 2 eexists. split; [reflexivity|]. split; [left; reflexivity|].
  split; [reflexivity|]. split; [discriminate|]. split; reflexivity.
Qed.

(** ** Review threads *)

Lemma next_rowid_fresh ids : ~ In (next_rowid ids) ids.
Proof.
  assert (H : forall x, In x ids -> x <= fold_right Z.max 0 ids).
  { induction ids as [|a l IH]; cbn; [tauto|].
    intros x [->|Hx]; [lia | specialize (IH x Hx); lia]. }
  unfold next_rowid. intros Hin. apply H in Hin. lia.
Qed.

Lemma set_review_threads_same db : set_review_threads db (review_threads db) = db.
Proof. now destruct db. Qed.




(** After an upsert the incoming id is stored, with every incoming link
    that is not null. *)
Lemma insert_into_comments_stores tup db db' :
  insert_into_comments tup db = Ok db' ->
  exists row,
    find_comment (comment_id tup) db' = Some row
    /\ forall p r t, comment_links tup = (p, r, t) ->
         (forall v, p = Some v -> Comment.pull_request_id row = Some v)
         /\ (forall v, r = Some v -> Comment.review_id row = Some v)
         /\ (forall v, t = Some v -> Comment.review_thread_id row = Some v).
Proof.
  destruct tup as [[[[[cid a] p] r] t] ca].
  unfold insert_into_comments, find_comment. cbn [comment_id comment_links].
  intros H. monad_inv.
  destruct (find _ (comments db)) as [old|] eqn:Hfind in H; monad_inv;
    cbn [comments set_comments].
  - rewrite (find_map_update (fun r0 => Comment.id r0 =? cid)
               (fun r0 => Comment.id r0 =? cid) (merge_comment p r t))
      by (intros; reflexivity).
    rewrite Hfind. cbn. destruct (find_some _ _ Hfind) as [_ ->].
    eexists. split; [reflexivity|].
    intros p' r' t' E. inversion E; subst.
    repeat split; intros v ->; reflexivity.
  - rewrite (find_app_None _ _ _ Hfind). cbn. rewrite Z.eqb_refl.
    eexists. split; [reflexivity|].
    intros p' r' t' E. inversion E; subst.
    repeat split; intros v ->; reflexivity.
Qed.

Lemma executemany_comments_links p r t query_data :
  Forall (fun tup => comment_links tup = (p, r, t)) query_data ->
  forall db db',
    executemany insert_into_comments query_data db = Ok db' ->
    forall tup, In tup query_data ->
      exists row,
        find_comment (comment_id tup) db' = Some row
        /\ (forall v, p = Some v -> Comment.pull_request_id row = Some v)
        /\ (forall v, r = Some v -> Comment.review_id row = Some v)
        /\ (forall v, t = Some v -> Comment.review_thread_id row = Some v).
Proof.
  induction 1 as [|hd l Hhd Hl IH]; cbn [executemany]; intros db db' H tup Hin.
  - destruct Hin.
  - monad_inv.
    lazymatch goal with
    | Hstep : insert_into_comments hd db = Ok ?d |- _ => rename d into db1
    end.
    destruct Hin as [<-|Hin]; [|eauto].
    lazymatch goal with
    | Hstep : insert_into_comments hd db = Ok db1 |- _ =>
        destruct (insert_into_comments_stores _ _ _ Hstep) as (row & Hrow & Hlinks)
    end.
    destruct (Hlinks _ _ _ Hhd) as (Hp & Hr & Ht).
    destruct (executemany_comments_find _ _ _ _ Hl _ _ H _ _ Hrow) as [Hfind _].
    eexists. split; [exact Hfind|].
    destruct (existsb _ _); [|auto].
    repeat split; intros v ->; reflexivity.
Qed.

Section ReviewThreads.

Variable scan_authors : list Author.row -> list Author.row.


End ReviewThreads.



(** ** Deletion under the schema's foreign keys *)

Lemma sql_eqb_Z_Some k parent :
  sql_eqb Z.eqb k (Some parent) = true <-> k = Some parent.
Proof.
  destruct k as [v|]; cbn; [|split; discriminate].
  rewrite Z.eqb_eq. split; [now intros -> | now inversion 1].
Qed.

(** [set null] keeps every row of the child table and empties the key of
    the rows that referenced the deleted parent. *)
Lemma on_parent_delete_set_null {R} (child_key : R -> option Z)
    (set_null : R -> R) parent rows :
  List.length (on_parent_delete SET_NULL child_key set_null parent rows)
  = List.length rows
  /\ (forall r, In r rows -> child_key r = Some parent ->
        In (set_null r)
           (on_parent_delete SET_NULL child_key set_null parent rows))
  /\ (forall r, In r rows -> child_key r <> Some parent ->
        In r (on_parent_delete SET_NULL child_key set_null parent rows)).
Proof.
  cbn [on_parent_delete]. split; [apply length_map|]. split.
  - intros r Hin Hk. apply in_map_iff. exists r. split; [|exact Hin].
    apply sql_eqb_Z_Some in Hk. now rewrite Hk.
  - intros r Hin Hk. apply in_map_iff. exists r. split; [|exact Hin].
    destruct (sql_eqb Z.eqb (child_key r) (Some parent)) eqn:E; [|reflexivity].
    apply sql_eqb_Z_Some in E. contradiction.
Qed.

(** [cascade] removes exactly the rows that referenced the deleted parent. *)
Lemma on_parent_delete_cascade {R} (child_key : R -> option Z)
    (set_null : R -> R) parent rows r :
  In r (on_parent_delete CASCADE child_key set_null parent rows)
  <-> In r rows /\ child_key r <> Some parent.
Proof.
  cbn [on_parent_delete]. rewrite filter_In, negb_true_iff.
  split; intros [Hin Hk]; (split; [exact Hin|]).
  - intros E. apply sql_eqb_Z_Some in E. congruence.
  - destruct (sql_eqb Z.eqb (child_key r) (Some parent)) eqn:E; [|reflexivity].
    apply sql_eqb_Z_Some in E. contradiction.
Qed.

(** C9.  The deletion policy of the schema.  Deleting an author keeps every
    pull request, review and comment row and sets [author_id] to null on
    those that named the author.  Deleting a pull request removes exactly
    its file, author-link and label-link rows, and keeps every commit,
    review and review-thread row, with [pull_request_id] set to null on
    those that named the pull request. *)
Theorem C9_deletion_policy :
  forall (db : DB) (id : Z),
    (* deleting the author [id] *)
    (forall r, In r (authors (delete_from_authors id db)) -> Author.id r <> id)
    /\ (List.length (pull_requests (delete_from_authors id db))
        = List.length (pull_requests db)
        /\ (forall r, In r (pull_requests db) ->
                      PullRequest.author_id r = Some id ->
                      In (pull_request_author_null r)
                         (pull_requests (delete_from_authors id db)))
        /\ (forall r, In r (pull_requests db) ->
                      PullRequest.author_id r <> Some id ->
                      In r (pull_requests (delete_from_authors id db))))
    /\ (List.length (reviews (delete_from_authors id db))
        = List.length (reviews db)
        /\ (forall r, In r (reviews db) -> Review.author_id r = Some id ->
                      In (review_author_null r)
                         (reviews (delete_from_authors id db)))
        /\ (forall r, In r (reviews db) -> Review.author_id r <> Some id ->
                      In r (reviews (delete_from_authors id db))))
    /\ (List.length (comments (delete_from_authors id db))
        = List.length (comments db)
        /\ (forall r, In r (comments db) -> Comment.author_id r = Some id ->
                      In (comment_author_null r)
                         (comments (delete_from_authors id db)))
        /\ (forall r, In r (comments db) -> Comment.author_id r <> Some id ->
                      In r (comments (delete_from_authors id db))))
    (* deleting the pull request [id] *)
    /\ (forall r, In r (pull_requests (delete_from_pull_requests id db)) ->
                  PullRequest.id r <> id)
    /\ (forall r, In r (files (delete_from_pull_requests id db))
                  <-> In r (files db) /\ File.pull_request_id r <> Some id)
    /\ (forall r, In r (author_pull_request (delete_from_pull_requests id db))
                  <-> In r (author_pull_request db)
                      /\ AuthorPullRequest.pull_request_id r <> Some id)
    /\ (forall r, In r (label_pull_request (delete_from_pull_requests id db))
                  <-> In r (label_pull_request db)
                      /\ LabelPullRequest.pull_request_id r <> Some id)
    /\ (List.length (commits (delete_from_pull_requests id db))
        = List.length (commits db)
        /\ (forall r, In r (commits db) -> Commit.pull_request_id r = Some id ->
                      In (commit_pull_request_null r)
                         (commits (delete_from_pull_requests id db)))
        /\ (forall r, In r (commits db) -> Commit.pull_request_id r <> Some id ->
                      In r (commits (delete_from_pull_requests id db))))
    /\ (List.length (reviews (delete_from_pull_requests id db))
        = List.length (reviews db)
        /\ (forall r, In r (reviews db) -> Review.pull_request_id r = Some id ->
                      In (review_pull_request_null r)
                         (reviews (delete_from_pull_requests id db)))
        /\ (forall r, In r (reviews db) -> Review.pull_request_id r <> Some id ->
                      In r (reviews (delete_from_pull_requests id db))))
    /\ (List.length (review_threads (delete_from_pull_requests id db))
        = List.length (review_threads db)
        /\ (forall r, In r (review_threads db) ->
                      ReviewThread.pull_request_id r = Some id ->
                      In (review_thread_pull_request_null r)
                         (review_threads (delete_from_pull_requests id db)))
        /\ (forall r, In r (review_threads db) ->
                      ReviewThread.pull_request_id r <> Some id ->
                      In r (review_threads (delete_from_pull_requests id db)))).
Proof.
  intros db id.
  repeat lazymatch goal with
    | |- (forall r, In r (authors _) -> _) /\ _ => split
    | |- (forall r, In r (pull_requests (delete_from_pull_requests _ _)) -> _) /\ _ =>
        split
    | |- (forall r, _ <-> _) /\ _ => split
    | |- (_ = _ /\ _) /\ _ => split
    end;
    try apply on_parent_delete_set_null;
    try (intros r; apply on_parent_delete_cascade).
  - intros r Hin. cbn in Hin. apply filter_In in Hin. destruct Hin as [_ Hid].
    apply negb_true_iff, Z.eqb_neq in Hid. exact Hid.
  - intros r Hin. cbn in Hin. apply filter_In in Hin. destruct Hin as [_ Hid].
    apply negb_true_iff, Z.eqb_neq in Hid. exact Hid.
Qed.

Lemma C9_deletion_policy_witness :
  delete_from_authors 1 sample_store_full
  = mkDB []
      [PullRequest.mk 5 None "Fix the parser" "OPEN" "2023-08-31T12:16:25Z"
         None None 10 2 "MEMBER" None 0 None 3]
      [Commit.mk 1 (Some 5) (Some "https://example.org/c/1")
         "2023-08-31T12:00:00Z"]
      [Review.mk 7 None (Some 5) "2023-09-01T08:00:00Z"]
      [ReviewThread.mk 1 "PRRT_1" (Some 5)]
      [Comment.mk 100 None (Some 5) None None "2023-09-01T09:00:00Z"]
      [File.mk 1 (Some 5) "src/parser.c" (Some "MODIFIED") (Some 10) (Some 2)]
      []
      [Label.mk 1 "clang"]
      [LabelPullRequest.mk (Some 1) (Some 5)]
  /\ delete_from_pull_requests 5 sample_store_full
     = mkDB [Author.mk 1 "alice" (Some "Alice")]
         []
         [Commit.mk 1 None (Some "https://example.org/c/1")
            "2023-08-31T12:00:00Z"]
         [Review.mk 7 (Some 1) None "2023-09-01T08:00:00Z"]
         [ReviewThread.mk 1 "PRRT_1" None]
         [Comment.mk 100 (Some 1) None None None "2023-09-01T09:00:00Z"]
         [] []
         [Label.mk 1 "clang"]
         []
  /\ In (review_pull_request_null (Review.mk 7 (Some 1) (Some 5) "2023-09-01T08:00:00Z"))
        (reviews (delete_from_pull_requests 5 sample_store_full)).
Proof.
  split; [reflexivity|]. split; [reflexivity|].
  destruct (C9_deletion_policy sample_store_full 5)
    as (_ & _ & _ & _ & _ & _ & _ & _ & _ & (_ & Hnull & _) & _).
  apply Hnull; [left; reflexivity | reflexivity].
Defined.

(** ** LIKE *)

Lemma like_cons c p s :
  like (String c p) s
  = if Ascii.eqb c matchAll then
      like p s
      || match s with
         | EmptyString => false
         | String _ s' => like (String c p) s'
         end
    else if Ascii.eqb c matchOne then
      match s with
      | EmptyString => false
      | String _ s' => like p s'
      end
    else
      match s with
      | EmptyString => false
      | String c2 s' => chr_nocase_eqb c c2 && like p s'
      end.
Proof.
  destruct s as [|a s']; cbn [like];
    destruct (Ascii.eqb c matchAll); reflexivity.
Qed.

(** Case folding sends no character onto a wildcard and moves no wildcard. *)
Lemma sqlite3Tolower_matchAll c :
  Ascii.eqb (sqlite3Tolower c) matchAll = Ascii.eqb c matchAll.
Proof. destruct c as [[] [] [] [] [] [] [] []]; reflexivity. Qed.

Lemma sqlite3Tolower_matchOne c :
  Ascii.eqb (sqlite3Tolower c) matchOne = Ascii.eqb c matchOne.
Proof. destruct c as [[] [] [] [] [] [] [] []]; reflexivity. Qed.

Lemma chr_nocase_eqb_eq a b :
  chr_nocase_eqb a b = true -> sqlite3Tolower a = sqlite3Tolower b.
Proof. unfold chr_nocase_eqb. apply Ascii.eqb_eq. Qed.

(** A pattern matches every text that is equal to it up to ASCII case. *)
Lemma like_eq_nocase p : forall s, eq_nocase p s = true -> like p s = true.
Proof.
  induction p as [|c p IH]; intros [|c2 s]; cbn [eq_nocase]; try discriminate.
  - reflexivity.
  - intros H. apply andb_true_iff in H. destruct H as [Hc Hs].
    rewrite like_cons.
    destruct (Ascii.eqb c matchAll) eqn:E.
    + apply orb_true_iff. right. now rewrite like_cons, E, (IH _ Hs).
    + destruct (Ascii.eqb c matchOne); [now apply IH|].
      now rewrite Hc, (IH _ Hs).
Qed.

(** Two patterns that are equal up to ASCII case match the same texts. *)
Lemma like_pattern_nocase p1 :
  forall p2, eq_nocase p1 p2 = true -> forall s, like p1 s = like p2 s.
Proof.
  induction p1 as [|c1 p1 IH]; intros [|c2 p2]; cbn [eq_nocase];
    try discriminate; [reflexivity|].
  intros H. apply andb_true_iff in H. destruct H as [Hc Hp].
  apply chr_nocase_eqb_eq in Hc.
  assert (Hall : Ascii.eqb c1 matchAll = Ascii.eqb c2 matchAll)
    by (rewrite <- (sqlite3Tolower_matchAll c1), <- (sqlite3Tolower_matchAll c2);
        now rewrite Hc).
  assert (Hone : Ascii.eqb c1 matchOne = Ascii.eqb c2 matchOne)
    by (rewrite <- (sqlite3Tolower_matchOne c1), <- (sqlite3Tolower_matchOne c2);
        now rewrite Hc).
  induction s as [|a s IHs]; rewrite (like_cons c1), (like_cons c2);
    rewrite <- Hall, <- Hone, (IH _ Hp).
  - reflexivity.
  - rewrite IHs, (IH _ Hp). unfold chr_nocase_eqb. now rewrite Hc.
Qed.

(** [%] matches any sequence of characters, [_] any one character. *)
Lemma like_matchAll p mid s :
  like p s = true -> like (String matchAll p) (mid ++ s) = true.
Proof.
  intros H. induction mid as [|a mid IH]; cbn [String.append];
    rewrite like_cons; cbn [Ascii.eqb matchAll Bool.eqb].
  - now rewrite H.
  - rewrite IH. apply orb_true_r.
Qed.

Lemma like_matchOne p c s : like (String matchOne p) (String c s) = like p s.
Proof. reflexivity. Qed.

Lemma find_ext_pointwise {A} (f g : A -> bool) l :
  (forall x, f x = g x) -> find f l = find g l.
Proof.
  intros H. induction l as [|a l IH]; cbn; [reflexivity|].
  now rewrite H, IH.
Qed.

(** [fetchone()] over a scan that visits every row once. *)
Lemma fetchone_spec {R} (scan : list R -> list R) (f : R -> bool) rows :
  (forall l, Permutation (scan l) l) ->
  (forall r, find f (scan rows) = Some r -> In r rows /\ f r = true)
  /\ (forall r, In r rows -> f r = true ->
                exists r', find f (scan rows) = Some r').
Proof.
  intros Hperm. split.
  - intros r H. apply find_some in H. destruct H as [Hin Hf].
    split; [|exact Hf]. eapply Permutation_in; [apply Hperm | exact Hin].
  - intros r Hin Hf.
    destruct (find f (scan rows)) as [r'|] eqn:E; [eauto|].
    exfalso. pose proof (find_none _ _ E r) as Hn.
    rewrite Hn in Hf; [discriminate|].
    eapply Permutation_in; [apply Permutation_sym, Hperm | exact Hin].
Qed.

Section Lookup.

Variable scan_authors : list Author.row -> list Author.row.
Variable scan_labels : list Label.row -> list Label.row.
Hypothesis scan_authors_visits_all : forall l, Permutation (scan_authors l) l.
Hypothesis scan_labels_visits_all : forall l, Permutation (scan_labels l) l.

(** C10.  [getAuthorIDByLogin] and [getLabelIDByName] match by LIKE
    pattern.  What a lookup returns is the id of a stored row whose login
    (name) matches the looked-up text as a pattern: the first such row the
    scan visits.  A stored row whose login is equal to the text up to ASCII
    case matches, so the lookup finds a row, and it is that row whenever
    every matching row carries its id.  Two texts equal up to ASCII case
    give the same result.  In the looked-up text [%] matches any sequence
    of characters and [_] any one character. *)
Theorem C10_lookup_by_like_pattern :
  forall db : DB,
    (forall s i,
        getAuthorIDByLogin scan_authors s db = Some i ->
        exists r, In r (authors db) /\ Author.id r = i
                  /\ like s (Author.login r) = true)
    /\ (forall r s,
           In r (authors db) -> eq_nocase s (Author.login r) = true ->
           like s (Author.login r) = true
           /\ (exists i, getAuthorIDByLogin scan_authors s db = Some i)
           /\ ((forall r', In r' (authors db) ->
                           like s (Author.login r') = true ->
                           Author.id r' = Author.id r) ->
               getAuthorIDByLogin scan_authors s db = Some (Author.id r)))
    /\ (forall s1 s2,
           eq_nocase s1 s2 = true ->
           getAuthorIDByLogin scan_authors s1 db
           = getAuthorIDByLogin scan_authors s2 db)
    /\ (forall s i,
           getLabelIDByName scan_labels s db = Some i ->
           exists r, In r (labels db) /\ Label.id r = i
                     /\ like s (Label.name r) = true)
    /\ (forall r s,
           In r (labels db) -> eq_nocase s (Label.name r) = true ->
           like s (Label.name r) = true
           /\ (exists i, getLabelIDByName scan_labels s db = Some i)
           /\ ((forall r', In r' (labels db) ->
                           like s (Label.name r') = true ->
                           Label.id r' = Label.id r) ->
               getLabelIDByName scan_labels s db = Some (Label.id r)))
    /\ (forall s1 s2,
           eq_nocase s1 s2 = true ->
           getLabelIDByName scan_labels s1 db = getLabelIDByName scan_labels s2 db)
    /\ (forall p mid s,
           like p s = true -> like (String matchAll p) (mid ++ s) = true)
    /\ (forall p c s, like (String matchOne p) (String c s) = like p s).
Proof.
  intros db.
  repeat lazymatch goal with |- _ /\ _ => split end.
  - intros s i H. unfold getAuthorIDByLogin in H.
    destruct (find _ _) as [r|] eqn:E in H; [|discriminate].
    inversion H; subst i.
    apply (fetchone_spec scan_authors _ _ scan_authors_visits_all) in E.
    exists r. tauto.
  - intros r s Hin Heq.
    pose proof (like_eq_nocase _ _ Heq) as Hlike.
    destruct (fetchone_spec scan_authors
                (fun r0 => like s (Author.login r0)) (authors db)
                scan_authors_visits_all) as [Hsome Hex].
    destruct (Hex r Hin Hlike) as [r' Hr'].
    unfold getAuthorIDByLogin. rewrite Hr'.
    split; [exact Hlike|]. split; [eauto|].
    intros Huniq. f_equal. destruct (Hsome _ Hr'). now apply Huniq.
  - intros s1 s2 Heq. unfold getAuthorIDByLogin.
    rewrite (find_ext_pointwise (fun r => like s1 (Author.login r))
               (fun r => like s2 (Author.login r))); [reflexivity|].
    intros x. now apply like_pattern_nocase.
  - intros s i H. unfold getLabelIDByName in H.
    destruct (find _ _) as [r|] eqn:E in H; [|discriminate].
    inversion H; subst i.
    apply (fetchone_spec scan_labels _ _ scan_labels_visits_all) in E.
    exists r. tauto.
  - intros r s Hin Heq.
    pose proof (like_eq_nocase _ _ Heq) as Hlike.
    destruct (fetchone_spec scan_labels
                (fun r0 => like s (Label.name r0)) (labels db)
                scan_labels_visits_all) as [Hsome Hex].
    destruct (Hex r Hin Hlike) as [r' Hr'].
    unfold getLabelIDByName. rewrite Hr'.
    split; [exact Hlike|]. split; [eauto|].
    intros Huniq. f_equal. destruct (Hsome _ Hr'). now apply Huniq.
  - intros s1 s2 Heq. unfold getLabelIDByName.
    rewrite (find_ext_pointwise (fun r => like s1 (Label.name r))
               (fun r => like s2 (Label.name r))); [reflexivity|].
    intros x. now apply like_pattern_nocase.
  - apply like_matchAll.
  - apply like_matchOne.
Qed.

End Lookup.

Lemma C10_lookup_by_like_pattern_witness :
  (forall l : list Author.row, Permutation (rowid_order l) l)
  /\ (forall l : list Label.row, Permutation (rowid_order l) l)
  /\ getAuthorIDByLogin rowid_order "ALICE" sample_store = Some 1
  /\ getAuthorIDByLogin rowid_order "a%" sample_store
     = getAuthorIDByLogin rowid_order "A%" sample_store.
Proof.
  assert (Ha : forall l : list Author.row, Permutation (rowid_order l) l)
    by (intros; apply Permutation_refl).
  assert (Hl : forall l : list Label.row, Permutation (rowid_order l) l)
    by (intros; apply Permutation_refl).
  split; [exact Ha|]. split; [exact Hl|].
  destruct (C10_lookup_by_like_pattern rowid_order rowid_order Ha Hl sample_store)
    as (_ & Hcase & Hsame & _).
  split.
  - destruct (Hcase (Author.mk 1 "alice" (Some "Alice")) "ALICE")
      as (_ & _ & Huniq); [left; reflexivity | reflexivity |].
    apply Huniq. intros r' [<-|[]] _. reflexivity.
  - apply Hsame. reflexivity.
Defined.

(** With the logins [alice] and [Alice] both stored, whatever the order of
    the scan, the lookup of [alice] cannot return the id of each of the two
    rows that are equal to it up to case. *)
Lemma C10_two_rows_match :
  (do db <- saveAuthor "alice" None empty_db; saveAuthor "Alice" None db)
  = Ok store_two_cases
  /\ forall scan : list Author.row -> list Author.row,
      exists r s,
        In r (authors store_two_cases)
        /\ eq_nocase s (Author.login r) = true
        /\ getAuthorIDByLogin scan s store_two_cases <> Some (Author.id r).
Proof.
  split; [reflexivity|]. intros scan.
  destruct (getAuthorIDByLogin scan "alice" store_two_cases) as [i|] eqn:E.
  - destruct (Z.eq_dec i 1) as [->|Hne].
    + exists (Author.mk 2 "Alice" None), "alice".
      split; [right; left; reflexivity|]. split; [reflexivity|].
      rewrite E. discriminate.
    + exists (Author.mk 1 "alice" None), "alice".
      split; [left; reflexivity|]. split; [reflexivity|].
      rewrite E. cbn. congruence.
  - exists (Author.mk 1 "alice" None), "alice".
    split; [left; reflexivity|]. split; [reflexivity|].
    rewrite E. discriminate.
Qed.

(** ** The driver loop *)

Lemma tokens_app t1 t2 : tokens (t1 ++ t2) = tokens t1 ++ tokens t2.
Proof.
  induction t1 as [|[d|tok after at_] t1 IH]; cbn; [reflexivity | exact IH|].
  now rewrite IH.
Qed.

Lemma cursors_app t1 t2 : cursors (t1 ++ t2) = cursors t1 ++ cursors t2.
Proof.
  induction t1 as [|[d|tok after at_] t1 IH]; cbn; [reflexivity | exact IH|].
  now rewrite IH.
Qed.

Lemma skipn_nth_error {A} (l : list A) : forall i x,
  nth_error l i = Some x -> skipn i l = x :: skipn (S i) l.
Proof.
  induction l as [|a l IH]; intros [|i] x; cbn; try discriminate.
  - now inversion 1.
  - intros H. now rewrite (IH _ _ H).
Qed.

(** The cooldown block touches the cost, the window start and the clock,
    and makes no request. *)
Lemma cooldown_keeps d :
  current_token_idx (cooldown d) = current_token_idx d
  /\ has_next_page (cooldown d) = has_next_page d
  /\ next_page_after (cooldown d) = next_page_after d
  /\ con (cooldown d) = con d
  /\ tokens (trace (cooldown d)) = tokens (trace d)
  /\ cursors (trace (cooldown d)) = cursors (trace d).
Proof.
  unfold cooldown.
  destruct (current_cost d >=? COST_PER_MINUTE); [|repeat split].
  destruct (WINDOW - (perf_counter d - start d) >? 0); cbn;
    rewrite ?tokens_app, ?cursors_app, ?app_nil_r; repeat split.
Qed.

Section DriverFacts.

Variable scan_authors : list Author.row -> list Author.row.
Variable scan_labels : list Label.row -> list Label.row.
Variable token_pool : list string.

(** One turn that meets an authorization-class failure: the request was
    made with the current credential for the current cursor; the index
    moves to the next credential and the cursor stays; the run goes on
    exactly when there is a next credential. *)
Lemma turn_auth_failure x d token :
  auth_failure x = true ->
  nth_error token_pool (current_token_idx d) = Some token ->
  exists d',
    turn scan_authors scan_labels token_pool x d
    = (if (List.length token_pool <=? S (current_token_idx d))%nat
       then Exited d' else Running d')
    /\ current_token_idx d' = S (current_token_idx d)
    /\ has_next_page d' = has_next_page d
    /\ next_page_after d' = next_page_after d
    /\ con d' = con d
    /\ tokens (trace d') = tokens (trace d) ++ [token]
    /\ cursors (trace d') = cursors (trace d) ++ [next_page_after d].
Proof.
  intros Hfail Htok. unfold turn, auth_failure in *.
  destruct (cooldown_keeps d) as (Hi & Hn & Ha & Hc & Ht & Hu).
  rewrite Hi, Htok.
  destruct (answer x) as [err|res]; [|discriminate].
  unfold on_TransportServerError.
  apply orb_true_iff in Hfail.
  replace (negb (str_in "rate limit exceeded" err)
           && negb (str_in "Unauthorized" err)) with false
    by (destruct Hfail as [-> | ->]; cbn; now rewrite ?andb_false_r).
  cbn [executeQuery current_token_idx current_cost has_next_page
       next_page_after start saved_pull_requests con perf_counter trace].
  rewrite Hi. eexists. split; [reflexivity|].
  cbn. rewrite tokens_app, cursors_app, Ht, Hu, Ha. cbn.
  repeat split; assumption.
Qed.

(** Fewer consecutive failures than credentials left: the loop is still
    running, on the same page, with the next credential. *)
Lemma main_auth_failures_running : forall script d,
  has_next_page d = true ->
  Forall (fun x => auth_failure x = true) script ->
  (current_token_idx d + List.length script < List.length token_pool)%nat ->
  exists d',
    main scan_authors scan_labels token_pool script d = (Running d', [])
    /\ current_token_idx d' = (current_token_idx d + List.length script)%nat
    /\ has_next_page d' = true
    /\ next_page_after d' = next_page_after d
    /\ con d' = con d
    /\ tokens (trace d')
       = tokens (trace d)
         ++ firstn (List.length script) (skipn (current_token_idx d) token_pool)
    /\ cursors (trace d')
       = cursors (trace d) ++ repeat (next_page_after d) (List.length script).
Proof.
  induction script as [|x script IH]; intros d Hnext Hall Hlen.
  - exists d. cbn. rewrite Hnext, Nat.add_0_r, !app_nil_r. repeat split; auto.
  - inversion Hall as [|? ? Hx Hrest]; subst. cbn [List.length] in Hlen.
    destruct (nth_error token_pool (current_token_idx d)) as [token|] eqn:Htok;
      [|apply nth_error_None in Htok; lia].
    destruct (turn_auth_failure x d token Hx Htok)
      as (d1 & Hturn & Hi & Hn & Ha & Hc & Ht & Hu).
    replace (List.length token_pool <=? S (current_token_idx d))%nat with false
      in Hturn by (symmetry; apply Nat.leb_gt; lia).
    destruct (IH d1) as (d' & Hmain & Hi' & Hn' & Ha' & Hc' & Ht' & Hu');
      [congruence | exact Hrest | lia |].
    exists d'. cbn [main]. rewrite Hnext, Hturn, Hmain.
    split; [reflexivity|]. split; [cbn; lia|]. split; [exact Hn'|].
    split; [congruence|]. split; [congruence|]. split.
    + rewrite Ht', Ht, Hi, <- app_assoc. cbn [List.length firstn app].
      now rewrite (skipn_nth_error _ _ _ Htok).
    + rewrite Hu', Hu, Ha, <- app_assoc. reflexivity.
Qed.

(** As many consecutive failures as credentials left: the last one ends
    the run with [safeExit()], and what follows it is never requested. *)
Lemma main_auth_failures_exit : forall script rest d,
  has_next_page d = true ->
  Forall (fun x => auth_failure x = true) script ->
  script <> [] ->
  (current_token_idx d + List.length script = List.length token_pool)%nat ->
  exists d',
    main scan_authors scan_labels token_pool (script ++ rest) d
    = (Exited d', rest)
    /\ con d' = con d
    /\ tokens (trace d')
       = tokens (trace d) ++ skipn (current_token_idx d) token_pool
    /\ cursors (trace d')
       = cursors (trace d) ++ repeat (next_page_after d) (List.length script).
Proof.
  induction script as [|x script IH]; intros rest d Hnext Hall Hne Hlen;
    [contradiction|].
  inversion Hall as [|? ? Hx Hrest]; subst. cbn [List.length] in Hlen.
  destruct (nth_error token_pool (current_token_idx d)) as [token|] eqn:Htok;
    [|apply nth_error_None in Htok; lia].
  destruct (turn_auth_failure x d token Hx Htok)
    as (d1 & Hturn & Hi & Hn & Ha & Hc & Ht & Hu).
  cbn [main app]. rewrite Hnext, Hturn.
  rewrite (skipn_nth_error _ _ _ Htok).
  destruct script as [|y script].
  - replace (List.length token_pool <=? S (current_token_idx d))%nat with true
      by (symmetry; apply Nat.leb_le; cbn in Hlen; lia).
    exists d1. cbn [app]. split; [reflexivity|]. split; [exact Hc|].
    split; [|exact Hu].
    rewrite Ht. f_equal. f_equal. symmetry. apply skipn_all2.
    cbn in Hlen. lia.
  - replace (List.length token_pool <=? S (current_token_idx d))%nat with false
      by (symmetry; apply Nat.leb_gt; cbn in Hlen; lia).
    destruct (IH rest d1) as (d' & Hmain & Hc' & Ht' & Hu');
      [congruence | exact Hrest | discriminate | cbn in *; lia |].
    exists d'. split; [exact Hmain|]. split; [congruence|]. split.
    + rewrite Ht', Ht, Hi, <- app_assoc. reflexivity.
    + rewrite Hu', Hu, Ha, <- app_assoc. reflexivity.
Qed.

End DriverFacts.

Section Turn.

Variable scan_authors : list Author.row -> list Author.row.
Variable scan_labels : list Label.row -> list Label.row.
Variable token_pool : list string.

(** What one turn adds to the trace: the events of the cooldown block,
    then the request, made with the current credential for the current
    cursor at the time the cooldown block ends, then no other request. *)
Lemma turn_trace x d token :
  nth_error token_pool (current_token_idx d) = Some token ->
  exists rest,
    trace (state_of (turn scan_authors scan_labels token_pool x d))
    = trace (cooldown d)
      ++ [Request token (next_page_after d) (perf_counter (cooldown d))]
      ++ rest
    /\ requests rest = [].
Proof.
  intros Htok. unfold turn.
  destruct (cooldown_keeps d) as (Hi & _ & Ha & _).
  rewrite Hi, Htok.
  destruct (answer x) as [err|res].
  - exists []. split; [|reflexivity].
    unfold on_TransportServerError.
    destruct (negb _ && negb _); [cbn; now rewrite Ha|].
    destruct (_ <=? _)%nat; cbn; now rewrite Ha.
  - unfold on_result.
    destruct (Answer.repository res) as [repo|];
      [destruct (Answer.rateLimit res) as [rl|]|].
    + destruct (savePullRequests _ _ _ _) as [db|e].
      * exists [Sleep PAGE_DELAY]. split; [|reflexivity].
        cbn. rewrite Ha, <- app_assoc. reflexivity.
      * exists []. split; [|reflexivity]. cbn. now rewrite Ha.
    + exists []. split; [|reflexivity].
      destruct (Answer.message res); cbn; now rewrite Ha.
    + exists []. split; [|reflexivity].
      destruct (Answer.message res); cbn; now rewrite Ha.
Qed.

(** C6.  Credential rotation.  In a run whose exchanges all fail with the
    authorization or rate-limit class of [TransportServerError], starting
    at the credential of index [i] in a pool of [n]: each failure moves to
    the next credential and leaves the cursor where it is; after fewer
    than [n - i] failures the loop is running and its next request uses
    the next credential for the same page; the failure number [n - i],
    the one met with the last credential, ends the run with [safeExit()],
    and no exchange after it is requested. *)
Theorem C6_credential_rotation :
  forall (script rest : list exchange) (d : driver),
    has_next_page d = true ->
    Forall (fun x => auth_failure x = true) script ->
    ((current_token_idx d + List.length script < List.length token_pool)%nat ->
     exists d',
       main scan_authors scan_labels token_pool script d = (Running d', [])
       /\ has_next_page d' = true
       /\ next_page_after d' = next_page_after d
       /\ con d' = con d
       /\ tokens (trace d')
          = tokens (trace d)
            ++ firstn (List.length script)
                      (skipn (current_token_idx d) token_pool)
       /\ cursors (trace d')
          = cursors (trace d) ++ repeat (next_page_after d) (List.length script)
       /\ exists token,
           nth_error token_pool (current_token_idx d + List.length script)
           = Some token
           /\ forall x,
               exists more,
                 trace (state_of (turn scan_authors scan_labels token_pool x d'))
                 = trace (cooldown d')
                   ++ [Request token (next_page_after d)
                               (perf_counter (cooldown d'))]
                   ++ more
                 /\ requests more = [])
    /\ (script <> [] ->
        (current_token_idx d + List.length script = List.length token_pool)%nat ->
        exists d',
          main scan_authors scan_labels token_pool (script ++ rest) d
          = (Exited d', rest)
          /\ con d' = con d
          /\ tokens (trace d')
             = tokens (trace d) ++ skipn (current_token_idx d) token_pool
          /\ cursors (trace d')
             = cursors (trace d)
               ++ repeat (next_page_after d) (List.length script)).
Proof.
  intros script rest d Hnext Hall. split.
  - intros Hlen.
    destruct (main_auth_failures_running scan_authors scan_labels token_pool
                script d Hnext Hall Hlen)
      as (d' & Hmain & Hi & Hn & Ha & Hc & Ht & Hu).
    exists d'. repeat (split; [assumption|]).
    destruct (nth_error token_pool (current_token_idx d + List.length script))
      as [token|] eqn:Htok; [|apply nth_error_None in Htok; lia].
    exists token. split; [reflexivity|]. intros x.
    rewrite <- Hi in Htok. rewrite <- Ha.
    apply turn_trace. exact Htok.
  - intros Hne Hlen.
    apply main_auth_failures_exit; assumption.
Qed.

(** The counter after the cooldown block. *)
Lemma current_cost_cooldown d :
  current_cost (cooldown d)
  = if current_cost d >=? COST_PER_MINUTE then 0 else current_cost d.
Proof.
  unfold cooldown. destruct (current_cost d >=? COST_PER_MINUTE); [|reflexivity].
  now destruct (_ >? 0).
Qed.

(** A turn after which the loop goes on has added the cost its answer
    reports to the counter, [current_cost += rate_limit["cost"]]. *)
Lemma turn_counts_cost x d d' :
  turn scan_authors scan_labels token_pool x d = Running d' ->
  current_cost d' = current_cost (cooldown d) + reported_cost x.
Proof.
  unfold turn, reported_cost.
  destruct (nth_error token_pool _) as [token|]; [|discriminate].
  destruct (answer x) as [err|res].
  - unfold on_TransportServerError.
    destruct (negb _ && negb _); [discriminate|].
    destruct (_ <=? _)%nat; [discriminate|].
    intros H. inversion H; subst d'. cbn. lia.
  - unfold on_result.
    destruct (Answer.repository res) as [repo|];
      [destruct (Answer.rateLimit res) as [rl|]|];
      try (destruct (Answer.message res); discriminate).
    destruct (savePullRequests _ _ _ _); [|discriminate].
    intros H. inversion H; subst d'. reflexivity.
Qed.

(** The counter of a run that used all its exchanges and goes on is the
    cost they reported, counted from the last turn that began at or over
    the budget. *)
Lemma main_counts_cost : forall script d d',
  main scan_authors scan_labels token_pool script d = (Running d', []) ->
  current_cost d' = counted_cost (current_cost d) script.
Proof.
  induction script as [|x script IH]; intros d d'; cbn [main counted_cost].
  - destruct (has_next_page d); intros H; inversion H. reflexivity.
  - destruct (has_next_page d); [|discriminate].
    pose proof (turn_counts_cost x d) as Hturn.
    destruct (turn scan_authors scan_labels token_pool x d) as [d1|d1|d1|e d1];
      try discriminate.
    intros H. rewrite (IH _ _ H), (Hturn d1 eq_refl), current_cost_cooldown.
    reflexivity.
Qed.

(** C7.  The cooldown of the rate governor.  In a turn that starts with
    the cost at or over the budget before the window has elapsed, the
    driver sleeps for what is left of the window, and only then makes its
    request, which leaves exactly at the end of the window, with the cost
    back at zero and the window starting at that time; the sleep is the
    only event before the request.  When the window has already elapsed
    the counter and the window start are reset without a sleep, and below
    the budget the block does nothing.  The counter is the cost the
    answers have reported: a turn after which the loop goes on has added
    the [cost] of its answer, so after any run the counter is the sum of
    the reported costs since the last reset, and when that sum has reached
    the budget inside the window the next turn sleeps before it requests. *)
Theorem C7_rate_governor_cooldown :
  forall (x : exchange) (d : driver) (token : string),
    nth_error token_pool (current_token_idx d) = Some token ->
    (current_cost d >= COST_PER_MINUTE ->
     perf_counter d - start d < WINDOW ->
     trace (cooldown d)
     = trace d ++ [Sleep (WINDOW - (perf_counter d - start d))]
     /\ perf_counter (cooldown d) = start d + WINDOW
     /\ current_cost (cooldown d) = 0
     /\ start (cooldown d) = perf_counter (cooldown d)
     /\ exists rest,
         trace (state_of (turn scan_authors scan_labels token_pool x d))
         = trace d
           ++ [Sleep (WINDOW - (perf_counter d - start d));
               Request token (next_page_after d) (start d + WINDOW)]
           ++ rest
         /\ requests rest = [])
    /\ (current_cost d >= COST_PER_MINUTE ->
        perf_counter d - start d >= WINDOW ->
        trace (cooldown d) = trace d
        /\ perf_counter (cooldown d) = perf_counter d
        /\ current_cost (cooldown d) = 0
        /\ start (cooldown d) = perf_counter d)
    /\ (current_cost d < COST_PER_MINUTE -> cooldown d = d)
    /\ (forall d',
           turn scan_authors scan_labels token_pool x d = Running d' ->
           current_cost d' = current_cost (cooldown d) + reported_cost x)
    /\ (forall script d1 token1,
           main scan_authors scan_labels token_pool script d = (Running d1, []) ->
           nth_error token_pool (current_token_idx d1) = Some token1 ->
           current_cost d1 = counted_cost (current_cost d) script
           /\ (counted_cost (current_cost d) script >= COST_PER_MINUTE ->
               perf_counter d1 - start d1 < WINDOW ->
               exists rest,
                 trace (state_of (turn scan_authors scan_labels token_pool x d1))
                 = trace d1
                   ++ [Sleep (WINDOW - (perf_counter d1 - start d1));
                       Request token1 (next_page_after d1) (start d1 + WINDOW)]
                   ++ rest
                 /\ requests rest = [])).
Proof.
  assert (Hblock : forall x d token,
             nth_error token_pool (current_token_idx d) = Some token ->
             current_cost d >= COST_PER_MINUTE ->
             perf_counter d - start d < WINDOW ->
             trace (cooldown d)
             = trace d ++ [Sleep (WINDOW - (perf_counter d - start d))]
             /\ perf_counter (cooldown d) = start d + WINDOW
             /\ current_cost (cooldown d) = 0
             /\ start (cooldown d) = perf_counter (cooldown d)
             /\ exists rest,
                 trace (state_of (turn scan_authors scan_labels token_pool x d))
                 = trace d
                   ++ [Sleep (WINDOW - (perf_counter d - start d));
                       Request token (next_page_after d) (start d + WINDOW)]
                   ++ rest
                 /\ requests rest = []).
  { intros x d token Htok Hcost Hwin.
    assert (E : cooldown d
                = mkDriver (current_token_idx d) 0 (has_next_page d)
                    (next_page_after d)
                    (perf_counter d + (WINDOW - (perf_counter d - start d)))
                    (saved_pull_requests d) (con d)
                    (perf_counter d + (WINDOW - (perf_counter d - start d)))
                    (trace d ++ [Sleep (WINDOW - (perf_counter d - start d))])).
    { unfold cooldown.
      replace (current_cost d >=? COST_PER_MINUTE) with true
        by (symmetry; apply Z.geb_le; lia).
      replace (WINDOW - (perf_counter d - start d) >? 0) with true
        by (symmetry; apply Z.gtb_lt; lia).
      reflexivity. }
    destruct (turn_trace x d token Htok) as (rest & Htrace & Hrest).
    rewrite E in *. cbn [trace perf_counter current_cost start] in *.
    split; [reflexivity|]. split; [lia|]. split; [reflexivity|].
    split; [reflexivity|].
    exists rest. split; [|exact Hrest].
    rewrite Htrace, <- app_assoc. cbn [app].
    replace (perf_counter d + (WINDOW - (perf_counter d - start d)))
      with (start d + WINDOW) by lia.
    reflexivity. }
  intros x d token Htok. split; [|split; [|split; [|split]]].
  - now apply Hblock.
  - intros Hcost Hwin. unfold cooldown.
    replace (current_cost d >=? COST_PER_MINUTE) with true
      by (symmetry; apply Z.geb_le; lia).
    replace (WINDOW - (perf_counter d - start d) >? 0) with false
      by (symmetry; rewrite Z.gtb_ltb; apply Z.ltb_ge; lia).
    repeat split.
  - intros Hcost. unfold cooldown.
    replace (current_cost d >=? COST_PER_MINUTE) with false; [reflexivity|].
    symmetry. rewrite Z.geb_leb. apply Z.leb_gt. lia.
  - apply turn_counts_cost.
  - intros script d1 token1 Hrun Htok1.
    pose proof (main_counts_cost _ _ _ Hrun) as Hcount.
    split; [exact Hcount|]. intros Hcost Hwin.
    destruct (Hblock x d1 token1 Htok1) as (_ & _ & _ & _ & Hturn);
      [now rewrite Hcount | exact Hwin | exact Hturn].
Qed.

End Turn.

Lemma C6_credential_rotation_witness :
  has_next_page (initial empty_db 0) = true
  /\ Forall (fun x => auth_failure x = true) [unauthorized; unauthorized]
  /\ exists d',
      main rowid_order rowid_order ["token-1"; "token-2"]
           ([unauthorized; unauthorized] ++ [unauthorized]) (initial empty_db 0)
      = (Exited d', [unauthorized])
      /\ tokens (trace d') = ["token-1"; "token-2"]
      /\ cursors (trace d') = [None; None].
Proof.
  assert (Hall : Forall (fun x => auth_failure x = true)
                        [unauthorized; unauthorized])
    by (repeat constructor).
  split; [reflexivity|]. split; [exact Hall|].
  destruct (proj2 (C6_credential_rotation rowid_order rowid_order
                     ["token-1"; "token-2"] [unauthorized; unauthorized]
                     [unauthorized] (initial empty_db 0) eq_refl Hall))
    as (d' & Hmain & _ & Ht & Hc); [discriminate | reflexivity |].
  exists d'. split; [exact Hmain|]. split; assumption.
Defined.

(** With two credentials the run is over at the second consecutive
    failure: of three failing exchanges the third is never requested. *)
Lemma C6_two_credentials_two_failures :
  exists d',
    main rowid_order rowid_order ["token-1"; "token-2"]
         [unauthorized; unauthorized; unauthorized] (initial empty_db 0)
    = (Exited d', [unauthorized])
    /\ trace d' = [Request "token-1" None 0; Request "token-2" None 5]
    /\ List.length (requests (trace d')) <> 3%nat.
Proof.
  eexists. split; [reflexivity|]. split; [reflexivity | discriminate].
Qed.

Lemma C7_rate_governor_cooldown_witness :
  (nth_error ["token-1"] (current_token_idx driver_over_budget) = Some "token-1"
   /\ current_cost driver_over_budget >= COST_PER_MINUTE
   /\ perf_counter driver_over_budget - start driver_over_budget < WINDOW
   /\ trace (cooldown driver_over_budget) = [Sleep 40000]
   /\ perf_counter (cooldown driver_over_budget) = 61000
   /\ current_cost (cooldown driver_over_budget) = 0
   /\ start (cooldown driver_over_budget) = 61000
   /\ exists rest,
       trace (state_of (turn rowid_order rowid_order ["token-1"] unauthorized
                             driver_over_budget))
       = [Sleep 40000; Request "token-1" (Some "cursor-1") 61000] ++ rest)
  /\ exists d1,
      main rowid_order rowid_order ["token-1"] [costly_page]
           (initial empty_db 0) = (Running d1, [])
      /\ current_cost d1 = 1900
      /\ perf_counter d1 - start d1 = 400
      /\ exists rest,
          trace (state_of (turn rowid_order rowid_order ["token-1"]
                                unauthorized d1))
          = trace d1
            ++ [Sleep 59600; Request "token-1" (Some "cursor-1") 60000]
            ++ rest.
Proof.
  assert (Hcost : current_cost driver_over_budget >= COST_PER_MINUTE)
    by (cbn; discriminate).
  assert (Hwin : perf_counter driver_over_budget - start driver_over_budget
                 < WINDOW) by reflexivity.
  split.
  - split; [reflexivity|]. split; [exact Hcost|]. split; [exact Hwin|].
    destruct (proj1 (C7_rate_governor_cooldown rowid_order rowid_order
                       ["token-1"] unauthorized driver_over_budget "token-1"
                       eq_refl) Hcost Hwin)
      as (Htrace & Hclock & Hzero & Hstart & rest & Hturn & _).
    split; [exact Htrace|]. split; [exact Hclock|]. split; [exact Hzero|].
    split; [now rewrite Hstart, Hclock|].
    exists rest. exact Hturn.
  - eexists. split; [reflexivity|].
    destruct (proj2 (proj2 (proj2 (proj2
                (C7_rate_governor_cooldown rowid_order rowid_order
                   ["token-1"] unauthorized (initial empty_db 0) "token-1"
                   eq_refl))))
                [costly_page] _ "token-1" eq_refl eq_refl)
      as (Hcount & Hblock).
    split; [exact Hcount|]. split; [reflexivity|].
    destruct Hblock as (rest & Hturn & _);
      [cbn; discriminate | reflexivity |].
    exists rest. exact Hturn.
Defined.

(** ** Absent fields *)

(** A comment without [fullDatabaseId] stops [saveComments] at
    [int(comment.get("fullDatabaseId"))], wherever it is in the list and
    before any comment is written. *)
Lemma saveComments_null_id scan_authors l :
  forall p r t db,
    (exists c, In c l /\ CommentNode.fullDatabaseId c = None) ->
    saveComments scan_authors (Some l) p r t db = Raise TypeError.
Proof.
  assert (H : forall p r t db,
             (exists c, In c l /\ CommentNode.fullDatabaseId c = None) ->
             saveComments_query_data scan_authors l p r t db = Raise TypeError).
  { induction l as [|c0 l IH]; intros p r t db (c & Hin & Hc); [destruct Hin|].
    cbn [saveComments_query_data].
    destruct (resolve_author_total scan_authors (CommentNode.author c0) db)
      as (db1 & aid & ->).
    cbn [bind]. destruct (CommentNode.fullDatabaseId c0) as [i|] eqn:E;
      [|reflexivity].
    cbn [int_ bind]. rewrite IH; [reflexivity|].
    destruct Hin as [<-|Hin]; [congruence | eauto]. }
  intros p r t db Hex. unfold saveComments.
  destruct l as [|c0 l']; [destruct Hex as (c & [] & _)|].
  now rewrite H.
Qed.

(** C8, the failing input.  [fullDatabaseId] is null: [saveComments] and
    [saveReviews] raise TypeError instead of completing. *)
Lemma C8_null_fullDatabaseId_raises :
  saveComments rowid_order (Some [comment_without_id]) (Some 5) None None
               sample_store
  = Raise TypeError
  /\ saveReviews rowid_order (Some [review_without_id]) 5 sample_store
     = Raise TypeError
  /\ savePullRequests rowid_order rowid_order
       [PullRequestNode.mk (Some 5) None (Some "Fix the parser") (Some "OPEN")
          (Some "2023-08-31T12:16:25Z") None None (Some 10) (Some 2) None
          (Some {| nodes := Some [comment_without_id] |}) None None None None
          (Some "MEMBER") None (Some false) None None (Some 3)]
       sample_store
     = Raise TypeError.
Proof. repeat split. Qed.

(** ** What every statement keeps, the upsert layer keeps

    The functions of [main.py] write to the store through the ten statements
    only, so a property of the store that each statement keeps holds after
    any of them. *)

Section Keeps.

Variable I : DB -> Prop.
Hypothesis statements : statements_keep I.
Variable scan_authors : list Author.row -> list Author.row.
Variable scan_labels : list Label.row -> list Label.row.

Lemma keep_authors p db db' :
  I db -> insert_into_authors p db = Ok db' -> I db'.
Proof. destruct statements as (H & _). apply H. Qed.

Lemma keep_pull_requests p db db' :
  I db -> insert_into_pull_requests p db = Ok db' -> I db'.
Proof. destruct statements as (_ & H & _). apply H. Qed.

Lemma keep_commits p db db' :
  I db -> insert_into_commits p db = Ok db' -> I db'.
Proof. destruct statements as (_ & _ & H & _). apply H. Qed.

Lemma keep_reviews p db db' :
  I db -> insert_into_reviews p db = Ok db' -> I db'.
Proof. destruct statements as (_ & _ & _ & H & _). apply H. Qed.

Lemma keep_review_threads p db db' res :
  I db -> insert_into_review_threads p db = Ok (db', res) -> I db'.
Proof. destruct statements as (_ & _ & _ & _ & H & _). apply H. Qed.

Lemma keep_comments p db db' :
  I db -> insert_into_comments p db = Ok db' -> I db'.
Proof. destruct statements as (_ & _ & _ & _ & _ & H & _). apply H. Qed.

Lemma keep_files p db db' :
  I db -> insert_into_files p db = Ok db' -> I db'.
Proof. destruct statements as (_ & _ & _ & _ & _ & _ & H & _). apply H. Qed.

Lemma keep_author_pull_request p db db' :
  I db -> insert_into_author_pull_request p db = Ok db' -> I db'.
Proof. destruct statements as (_ & _ & _ & _ & _ & _ & _ & H & _). apply H. Qed.

Lemma keep_labels p db db' :
  I db -> insert_into_labels p db = Ok db' -> I db'.
Proof.
  destruct statements as (_ & _ & _ & _ & _ & _ & _ & _ & H & _). apply H.
Qed.

Lemma keep_label_pull_request p db db' :
  I db -> insert_into_label_pull_request p db = Ok db' -> I db'.
Proof.
  destruct statements as (_ & _ & _ & _ & _ & _ & _ & _ & _ & H). apply H.
Qed.

Lemma executemany_keeps {P} (stmt : P -> DB -> result DB) :
  (forall p db db', I db -> stmt p db = Ok db' -> I db') ->
  forall l db db', I db -> executemany stmt l db = Ok db' -> I db'.
Proof.
  intros Hs. induction l as [|p l IH]; cbn; intros db db' Hdb H.
  - now inversion H; subst.
  - monad_inv. eauto.
Qed.

Lemma saveAuthor_keeps login name db db' :
  I db -> saveAuthor login name db = Ok db' -> I db'.
Proof. apply keep_authors. Qed.

Lemma saveAuthors_keeps l db db' :
  I db -> saveAuthors l db = Ok db' -> I db'.
Proof.
  intros Hdb H. unfold saveAuthors in H.
  destruct l as [[|a l]|]; try (now inversion H; subst).
  eapply executemany_keeps; [apply keep_authors | exact Hdb | exact H].
Qed.

Lemma saveCommits_keeps l pull_request_id db db' :
  I db -> saveCommits l pull_request_id db = Ok db' -> I db'.
Proof.
  intros Hdb H. unfold saveCommits in H.
  destruct l as [[|a l]|]; try (now inversion H; subst).
  eapply executemany_keeps; [apply keep_commits | exact Hdb | exact H].
Qed.

Lemma saveFiles_keeps l pull_request_id db db' :
  I db -> saveFiles l pull_request_id db = Ok db' -> I db'.
Proof.
  intros Hdb H. unfold saveFiles in H.
  destruct l as [[|a l]|]; try (now inversion H; subst).
  eapply executemany_keeps; [apply keep_files | exact Hdb | exact H].
Qed.

Lemma saveLabels_keeps l db db' :
  I db -> saveLabels l db = Ok db' -> I db'.
Proof.
  intros Hdb H. unfold saveLabels in H.
  destruct l as [[|a l]|]; try (now inversion H; subst).
  eapply executemany_keeps; [apply keep_labels | exact Hdb | exact H].
Qed.

Lemma resolve_author_keeps author db db' author_id :
  I db -> resolve_author scan_authors author db = Ok (db', author_id) -> I db'.
Proof.
  intros Hdb H. unfold resolve_author in H.
  destruct (or_empty_get author Actor.login); monad_inv; [|exact Hdb].
  eapply saveAuthor_keeps; eauto.
Qed.

Lemma saveComments_query_data_keeps l p r t :
  forall db db' query_data,
    I db ->
    saveComments_query_data scan_authors l p r t db = Ok (db', query_data) ->
    I db'.
Proof.
  induction l as [|c l IH]; cbn [saveComments_query_data];
    intros db db' query_data Hdb H; monad_inv; [exact Hdb|].
  lazymatch goal with
  | Ha : resolve_author _ _ _ = Ok _,
    Hq : saveComments_query_data _ _ _ _ _ _ = Ok _ |- _ =>
      eapply IH; [eapply resolve_author_keeps; [exact Hdb | exact Ha] | exact Hq]
  end.
Qed.

Lemma saveComments_keeps l p r t db db' :
  I db -> saveComments scan_authors l p r t db = Ok db' -> I db'.
Proof.
  intros Hdb H. unfold saveComments in H.
  destruct l as [[|c l]|]; try (now inversion H; subst).
  monad_inv.
  lazymatch goal with
  | Hq : saveComments_query_data _ _ _ _ _ _ = Ok _ |- _ =>
      eapply executemany_keeps;
        [apply keep_comments
        | eapply saveComments_query_data_keeps; [exact Hdb | exact Hq]
        | exact H]
  end.
Qed.

Lemma saveReviews_keeps l pull_request_id db db' :
  I db -> saveReviews scan_authors l pull_request_id db = Ok db' -> I db'.
Proof.
  assert (Hloop : forall l db db',
             I db ->
             saveReviews_loop scan_authors l pull_request_id db = Ok db' -> I db').
  { clear l db db'. induction l as [|review l IH]; cbn [saveReviews_loop];
      intros db db' Hdb H; monad_inv; [exact Hdb|].
    lazymatch goal with
    | Ha : resolve_author _ _ _ = Ok _,
      Hr : insert_into_reviews _ _ = Ok _,
      Hc : saveComments _ _ _ _ _ _ = Ok _ |- _ =>
        eapply IH; [|exact H];
        eapply saveComments_keeps; [|exact Hc];
        eapply keep_reviews; [|exact Hr];
        eapply resolve_author_keeps; [exact Hdb | exact Ha]
    end. }
  intros Hdb H. unfold saveReviews in H.
  destruct l as [[|a l]|]; try (now inversion H; subst). eauto.
Qed.

Lemma saveReviewThreads_keeps l pull_request_id db db' :
  I db -> saveReviewThreads scan_authors l pull_request_id db = Ok db' -> I db'.
Proof.
  assert (Hloop : forall l db db',
             I db ->
             saveReviewThreads_loop scan_authors l pull_request_id db = Ok db' ->
             I db').
  { clear l db db'. induction l as [|thread l IH]; cbn [saveReviewThreads_loop];
      intros db db' Hdb H; monad_inv; [exact Hdb|].
    lazymatch goal with
    | Hr : insert_into_review_threads _ _ = Ok _,
      Hc : saveComments _ _ _ _ _ _ = Ok _ |- _ =>
        eapply IH; [|exact H];
        eapply saveComments_keeps; [|exact Hc];
        eapply keep_review_threads; [exact Hdb | exact Hr]
    end. }
  intros Hdb H. unfold saveReviewThreads in H.
  destruct l as [[|a l]|]; try (now inversion H; subst). eauto.
Qed.

Lemma saveParticipants_keeps l pull_request_id db db' :
  I db -> saveParticipants scan_authors l pull_request_id db = Ok db' -> I db'.
Proof.
  intros Hdb H. unfold saveParticipants in H.
  destruct l as [[|a l]|]; try (now inversion H; subst).
  monad_inv.
  lazymatch goal with
  | Ha : saveAuthors _ _ = Ok _ |- _ =>
      eapply executemany_keeps;
        [apply keep_author_pull_request
        | eapply saveAuthors_keeps; [exact Hdb | exact Ha]
        | exact H]
  end.
Qed.

Lemma linkLabelsWithPullRequest_keeps l pull_request_id db db' :
  I db ->
  linkLabelsWithPullRequest scan_labels l pull_request_id db = Ok db' -> I db'.
Proof.
  intros Hdb H. unfold linkLabelsWithPullRequest in H.
  destruct l as [[|a l]|]; try (now inversion H; subst).
  monad_inv.
  lazymatch goal with
  | Ha : saveLabels _ _ = Ok _ |- _ =>
      eapply executemany_keeps;
        [apply keep_label_pull_request
        | eapply saveLabels_keeps; [exact Hdb | exact Ha]
        | exact H]
  end.
Qed.

Lemma savePullRequest_keeps pull_request db db' :
  I db ->
  savePullRequest scan_authors scan_labels pull_request db = Ok db' -> I db'.
Proof.
  intros Hdb H. unfold savePullRequest in H. monad_inv.
  lazymatch goal with
  | Ha : resolve_author _ _ _ = Ok _,
    Hi : insert_into_pull_requests _ _ = Ok _,
    H1 : saveCommits _ _ _ = Ok _,
    H2 : saveComments _ _ _ _ _ _ = Ok _,
    H3 : saveReviews _ _ _ _ = Ok _,
    H4 : saveReviewThreads _ _ _ _ = Ok _,
    H5 : saveFiles _ _ _ = Ok _,
    H6 : saveParticipants _ _ _ _ = Ok _ |- _ =>
      eapply linkLabelsWithPullRequest_keeps; [|exact H];
      eapply saveParticipants_keeps; [|exact H6];
      eapply saveFiles_keeps; [|exact H5];
      eapply saveReviewThreads_keeps; [|exact H4];
      eapply saveReviews_keeps; [|exact H3];
      eapply saveComments_keeps; [|exact H2];
      eapply saveCommits_keeps; [|exact H1];
      eapply keep_pull_requests; [|exact Hi];
      eapply resolve_author_keeps; [exact Hdb | exact Ha]
  end.
Qed.

Lemma savePullRequests_keeps : forall l db db',
  I db -> savePullRequests scan_authors scan_labels l db = Ok db' -> I db'.
Proof.
  induction l as [|pr l IH]; cbn [savePullRequests]; intros db db' Hdb H;
    monad_inv; [exact Hdb|].
  lazymatch goal with
  | H1 : savePullRequest _ _ _ _ = Ok _ |- _ =>
      eapply IH; [eapply savePullRequest_keeps; [exact Hdb | exact H1] | exact H]
  end.
Qed.

End Keeps.

(** ** The store only grows *)

Lemma prefix_refl {A} (l : list A) : prefix l l.
Proof. exists []. now rewrite app_nil_r. Qed.

Lemma prefix_app {A} (l extra : list A) : prefix l (l ++ extra).
Proof. now exists extra. Qed.

Lemma prefix_trans {A} (l1 l2 l3 : list A) :
  prefix l1 l2 -> prefix l2 l3 -> prefix l1 l3.
Proof.
  intros [e1 ->] [e2 ->]. exists (e1 ++ e2). now rewrite app_assoc.
Qed.

Lemma prefix_In {A} (l l' : list A) x : prefix l l' -> In x l -> In x l'.
Proof. intros [e ->] H. apply in_or_app. now left. Qed.

Lemma prefix_map {A B} (f : A -> B) l l' :
  prefix l l' -> prefix (map f l) (map f l').
Proof. intros [e ->]. rewrite map_app. apply prefix_app. Qed.

Lemma prefix_length {A} (l l' : list A) :
  prefix l l' -> (List.length l <= List.length l')%nat.
Proof. intros [e ->]. rewrite length_app. lia. Qed.

Lemma map_key_update {A K} (key : A -> K) (q : A -> bool) (upd : A -> A) l :
  (forall r, q r = true -> key (upd r) = key r) ->
  map key (map (fun r => if q r then upd r else r) l) = map key l.
Proof.
  intros Hk. induction l as [|a l IH]; cbn; [reflexivity|].
  rewrite IH. destruct (q a) eqn:E; [now rewrite Hk | reflexivity].
Qed.

Lemma grows_refl db : grows db db.
Proof. unfold grows. repeat split; apply prefix_refl. Qed.

Lemma grows_trans db1 db2 db3 : grows db1 db2 -> grows db2 db3 -> grows db1 db3.
Proof.
  unfold grows.
  intros (A1 & A2 & A3 & A4 & A5 & A6 & A7 & A8 & A9 & A10)
         (B1 & B2 & B3 & B4 & B5 & B6 & B7 & B8 & B9 & B10).
  repeat split; eapply prefix_trans; eassumption.
Qed.

(** Closes [grows db db'] when [db'] is [db] with one table that has a row
    appended or its rows updated in place under the kept columns. *)
Ltac grows_setter :=
  unfold grows; cbn;
  repeat lazymatch goal with |- _ /\ _ => split end;
  first
    [ apply prefix_refl
    | apply prefix_app
    | rewrite map_app; apply prefix_app
    | rewrite map_key_update by (intros; reflexivity); apply prefix_refl ].

Ltac grows_stmt :=
  monad_inv;
  repeat match goal with
    | H : (if ?c then _ else _) = Ok _ |- _ => destruct c
    | H : match ?x with _ => _ end = Ok _ |- _ => destruct x
    | _ => progress monad_inv
    end;
  try apply grows_refl; grows_setter.

Lemma insert_into_authors_grows p db db' :
  insert_into_authors p db = Ok db' -> grows db db'.
Proof. destruct p as [login name]. unfold insert_into_authors. intros H. grows_stmt. Qed.

Lemma insert_into_pull_requests_grows p db db' :
  insert_into_pull_requests p db = Ok db' -> grows db db'.
Proof.
  destruct p as [[[[[[[[[[[[[a b] c] d] e] f] g] h] i] j] k] l] m] n].
  unfold insert_into_pull_requests. intros H. grows_stmt.
Qed.

Lemma insert_into_commits_grows p db db' :
  insert_into_commits p db = Ok db' -> grows db db'.
Proof. destruct p as [[a b] c]. unfold insert_into_commits. intros H. grows_stmt. Qed.

Lemma insert_into_reviews_grows p db db' :
  insert_into_reviews p db = Ok db' -> grows db db'.
Proof. destruct p as [[[a b] c] d]. unfold insert_into_reviews. intros H. grows_stmt. Qed.

Lemma insert_into_review_threads_grows p db db' res :
  insert_into_review_threads p db = Ok (db', res) -> grows db db'.
Proof.
  destruct p as [node_id pid]. unfold insert_into_review_threads. intros H.
  monad_inv.
  destruct (find _ (review_threads db)) as [old|] eqn:Hfind; monad_inv.
  - rewrite map_update_id; [rewrite set_review_threads_same; apply grows_refl|].
    intros r _ Hr. apply String.eqb_eq in Hr. destruct r; cbn in *. now subst.
  - grows_setter.
Qed.

Lemma insert_into_comments_grows p db db' :
  insert_into_comments p db = Ok db' -> grows db db'.
Proof.
  destruct p as [[[[[a b] c] d] e] f]. unfold insert_into_comments.
  intros H. grows_stmt.
Qed.

Lemma insert_into_files_grows p db db' :
  insert_into_files p db = Ok db' -> grows db db'.
Proof.
  destruct p as [[[[a b] c] d] e]. unfold insert_into_files. intros H. grows_stmt.
Qed.

Lemma insert_into_author_pull_request_grows p db db' :
  insert_into_author_pull_request p db = Ok db' -> grows db db'.
Proof.
  destruct p as [a b]. unfold insert_into_author_pull_request. intros H.
  grows_stmt.
Qed.

Lemma insert_into_labels_grows p db db' :
  insert_into_labels p db = Ok db' -> grows db db'.
Proof. unfold insert_into_labels. intros H. grows_stmt. Qed.

Lemma insert_into_label_pull_request_grows p db db' :
  insert_into_label_pull_request p db = Ok db' -> grows db db'.
Proof.
  destruct p as [a b]. unfold insert_into_label_pull_request. intros H.
  grows_stmt.
Qed.

Lemma statements_keep_grows db0 : statements_keep (grows db0).
Proof.
  unfold statements_keep.
  repeat lazymatch goal with |- _ /\ _ => split end;
    intros; eapply grows_trans; try eassumption;
    eauto using insert_into_authors_grows, insert_into_pull_requests_grows,
      insert_into_commits_grows, insert_into_reviews_grows,
      insert_into_review_threads_grows, insert_into_comments_grows,
      insert_into_files_grows, insert_into_author_pull_request_grows,
      insert_into_labels_grows, insert_into_label_pull_request_grows.
Qed.

(** ** The foreign keys hold after every statement *)

Lemma references_incl parents parents' k :
  incl parents parents' ->
  references parents k = true -> references parents' k = true.
Proof.
  destruct k as [v|]; cbn; [|reflexivity].
  rewrite !existsb_exists. intros Hi (x & Hx & E). exists x. auto.
Qed.

Lemma fk_incl {R} (rows : list R) key parents parents' :
  incl parents parents' -> fk rows key parents -> fk rows key parents'.
Proof.
  intros Hi. unfold fk. apply Forall_impl. intros r.
  now apply references_incl.
Qed.

Lemma fk_app {R} (rows : list R) key parents row :
  fk rows key parents -> references parents (key row) = true ->
  fk (rows ++ [row]) key parents.
Proof.
  intros H Hrow. unfold fk. apply Forall_app. split; [exact H|].
  constructor; [exact Hrow | constructor].
Qed.

Lemma fk_map_update {R} (rows : list R) key parents (q : R -> bool) upd :
  fk rows key parents ->
  (forall r, references parents (key r) = true -> q r = true ->
             references parents (key (upd r)) = true) ->
  fk (map (fun r => if q r then upd r else r) rows) key parents.
Proof.
  unfold fk. intros H Hu. induction H as [|r l Hr _ IH]; cbn; constructor.
  - destruct (q r) eqn:E; auto.
  - exact IH.
Qed.

Lemma incl_map_app {A B} (f : A -> B) l extra : incl (map f l) (map f (l ++ extra)).
Proof. rewrite map_app. apply incl_appl, incl_refl. Qed.

(** One conjunct of [fk_valid] after a statement: the table and the
    parents are as before, or the parents have one more key or the same
    keys, or the table has one more row whose key was checked. *)
Ltac fk_conjunct :=
  first
    [ assumption
    | eapply fk_incl; [apply incl_map_app | assumption]
    | rewrite map_key_update by (intros; reflexivity); assumption
    | apply fk_app; [assumption | cbn; first [assumption | reflexivity]]
    | apply fk_app;
        [eapply fk_incl; [apply incl_map_app | assumption]
        | cbn; first [assumption | reflexivity]] ].

Ltac fk_open :=
  unfold fk_valid, author_ids, pull_request_ids, review_ids,
    review_thread_ids, label_ids in *;
  cbn [authors pull_requests commits reviews review_threads comments files
       author_pull_request labels label_pull_request set_authors
       set_pull_requests set_commits set_reviews set_review_threads
       set_comments set_files set_author_pull_request set_labels
       set_label_pull_request] in *.

Ltac fk_split H :=
  destruct H as (K1 & K2 & K3 & K4 & K5 & K6 & K7 & K8 & K9 & K10 & K11
                 & K12 & K13 & K14);
  repeat lazymatch goal with |- _ /\ _ => split end.

Lemma insert_into_authors_fk p db db' :
  fk_valid db -> insert_into_authors p db = Ok db' -> fk_valid db'.
Proof.
  destruct p as [login name]. unfold insert_into_authors. intros Hv H.
  monad_inv.
  destruct (existsb _ (authors db)); [destruct name|]; monad_inv;
    try exact Hv; fk_open; fk_split Hv; fk_conjunct.
Qed.

Lemma insert_into_commits_fk p db db' :
  fk_valid db -> insert_into_commits p db = Ok db' -> fk_valid db'.
Proof.
  destruct p as [[a b] c]. unfold insert_into_commits. intros Hv H.
  monad_inv. destruct (existsb _ (commits db)); monad_inv;
    try exact Hv; fk_open; fk_split Hv; fk_conjunct.
Qed.

Lemma insert_into_reviews_fk p db db' :
  fk_valid db -> insert_into_reviews p db = Ok db' -> fk_valid db'.
Proof.
  destruct p as [[[a b] c] d]. unfold insert_into_reviews. intros Hv H.
  monad_inv. destruct (existsb _ (reviews db)); monad_inv;
    try exact Hv; fk_open; fk_split Hv; fk_conjunct.
Qed.

Lemma insert_into_review_threads_fk p db db' res :
  fk_valid db -> insert_into_review_threads p db = Ok (db', res) -> fk_valid db'.
Proof.
  destruct p as [node_id pid]. unfold insert_into_review_threads. intros Hv H.
  monad_inv.
  destruct (find _ (review_threads db)) as [old|] eqn:Hfind; monad_inv.
  - rewrite map_update_id; [now rewrite set_review_threads_same|].
    intros r _ Hr. apply String.eqb_eq in Hr. destruct r; cbn in *. now subst.
  - fk_open; fk_split Hv; fk_conjunct.
Qed.

Lemma insert_into_files_fk p db db' :
  fk_valid db -> insert_into_files p db = Ok db' -> fk_valid db'.
Proof.
  destruct p as [[[[a b] c] d] e]. unfold insert_into_files. intros Hv H.
  monad_inv. destruct (existsb _ (files db)); monad_inv;
    try exact Hv; fk_open; fk_split Hv; fk_conjunct.
Qed.

Lemma insert_into_author_pull_request_fk p db db' :
  fk_valid db -> insert_into_author_pull_request p db = Ok db' -> fk_valid db'.
Proof.
  destruct p as [a b]. unfold insert_into_author_pull_request. intros Hv H.
  monad_inv. destruct (existsb _ (author_pull_request db)); monad_inv;
    try exact Hv; fk_open; fk_split Hv; fk_conjunct.
Qed.

Lemma insert_into_labels_fk p db db' :
  fk_valid db -> insert_into_labels p db = Ok db' -> fk_valid db'.
Proof.
  unfold insert_into_labels. intros Hv H.
  monad_inv. destruct (existsb _ (labels db)); monad_inv;
    try exact Hv; fk_open; fk_split Hv; fk_conjunct.
Qed.

Lemma insert_into_label_pull_request_fk p db db' :
  fk_valid db -> insert_into_label_pull_request p db = Ok db' -> fk_valid db'.
Proof.
  destruct p as [a b]. unfold insert_into_label_pull_request. intros Hv H.
  monad_inv. destruct (existsb _ (label_pull_request db)); monad_inv;
    try exact Hv; fk_open; fk_split Hv; fk_conjunct.
Qed.

Lemma insert_into_pull_requests_fk p db db' :
  fk_valid db -> insert_into_pull_requests p db = Ok db' -> fk_valid db'.
Proof.
  destruct p as [[[[[[[[[[[[[a b] c] d] e] f] g] h] i] j] k] l] m] n].
  unfold insert_into_pull_requests. intros Hv H. monad_inv.
  destruct (existsb _ (pull_requests db)); monad_inv;
    fk_open; fk_split Hv;
    first [ fk_conjunct
          | apply fk_map_update; [assumption | intros; cbn; assumption] ].
Qed.

Lemma insert_into_comments_fk p db db' :
  fk_valid db -> insert_into_comments p db = Ok db' -> fk_valid db'.
Proof.
  destruct p as [[[[[cid a] p] r] t] ca]. unfold insert_into_comments.
  intros Hv H. monad_inv.
  destruct (find _ (comments db)) as [old|] eqn:Hfind in H; monad_inv.
  - fk_open; fk_split Hv; try fk_conjunct;
      (apply fk_map_update; [assumption|]); intros row Hrow _;
      cbn [merge_comment Comment.author_id Comment.pull_request_id
           Comment.review_id Comment.review_thread_id] in *.
    + exact Hrow.
    + destruct p; [assumption | exact Hrow].
    + destruct r; [assumption | exact Hrow].
    + destruct t; [assumption | exact Hrow].
  - fk_open; fk_split Hv; fk_conjunct.
Qed.

Lemma statements_keep_fk : statements_keep fk_valid.
Proof.
  unfold statements_keep.
  repeat lazymatch goal with |- _ /\ _ => split end;
    eauto using insert_into_authors_fk, insert_into_pull_requests_fk,
      insert_into_commits_fk, insert_into_reviews_fk,
      insert_into_review_threads_fk, insert_into_comments_fk,
      insert_into_files_fk, insert_into_author_pull_request_fk,
      insert_into_labels_fk, insert_into_label_pull_request_fk.
Qed.

(** ** The uniqueness constraints hold after every statement *)

Lemma NoDup_app_one {A} (l : list A) x : NoDup l -> ~ In x l -> NoDup (l ++ [x]).
Proof.
  intros Hl Hx. apply NoDup_app; [exact Hl | repeat constructor; intros [] |].
  intros y Hy [<-|[]]. contradiction.
Qed.

Lemma existsb_Z_notin {R} (key : R -> Z) k l :
  existsb (fun r => key r =? k) l = false -> ~ In k (map key l).
Proof.
  intros E Hin. apply in_map_iff in Hin. destruct Hin as (r & <- & Hr).
  assert (existsb (fun r0 => key r0 =? key r) l = true)
    by (apply existsb_exists; exists r; split; [exact Hr | apply Z.eqb_refl]).
  congruence.
Qed.

Lemma existsb_string_notin {R} (key : R -> string) k l :
  existsb (fun r => String.eqb (key r) k) l = false -> ~ In k (map key l).
Proof.
  intros E Hin. apply in_map_iff in Hin. destruct Hin as (r & <- & Hr).
  assert (existsb (fun r0 => String.eqb (key r0) (key r)) l = true)
    by (apply existsb_exists; exists r; split; [exact Hr | apply String.eqb_refl]).
  congruence.
Qed.

Lemma somes_app {K} (l1 l2 : list (option K)) :
  somes (l1 ++ l2) = somes l1 ++ somes l2.
Proof.
  induction l1 as [|[k|] l1 IH]; cbn; [reflexivity | now rewrite IH | exact IH].
Qed.

Lemma In_somes {K} (l : list (option K)) k : In k (somes l) <-> In (Some k) l.
Proof.
  induction l as [|[x|] l IH]; cbn; [tauto | |].
  - rewrite IH. split; (intros [E|H]; [left; congruence | now right]).
  - rewrite IH. split; [now right | intros [E|H]; [discriminate | exact H]].
Qed.

(** A row appended after the conflict test of its statement found no row
    with its key keeps the constraint. *)
Lemma sql_unique_app {R K} (f : R -> option K) (g : R -> bool) l x :
  sql_unique (map f l) ->
  existsb g l = false ->
  (forall r k, f x = Some k -> f r = Some k -> g r = true) ->
  sql_unique (map f (l ++ [x])).
Proof.
  unfold sql_unique. intros Hl Hg Hk. rewrite map_app, somes_app. cbn.
  destruct (f x) as [k|] eqn:Ex; cbn; [|now rewrite app_nil_r].
  apply NoDup_app_one; [exact Hl|].
  intros Hin. apply In_somes, in_map_iff in Hin. destruct Hin as (r & Er & Hr).
  assert (existsb g l = true)
    by (apply existsb_exists; exists r; split; [exact Hr | now apply (Hk r k)]).
  congruence.
Qed.

Ltac uq_open :=
  unfold unique_valid, author_ids, pull_request_ids, review_ids,
    review_thread_ids, label_ids in *;
  cbn [authors pull_requests commits reviews review_threads comments files
       author_pull_request labels label_pull_request set_authors
       set_pull_requests set_commits set_reviews set_review_threads
       set_comments set_files set_author_pull_request set_labels
       set_label_pull_request] in *.

Ltac uq_split H :=
  destruct H as (U1 & U2 & U3 & U4 & U5 & U6 & U7 & U8 & U9 & U10 & U11
                 & U12 & U13 & U14 & U15);
  repeat lazymatch goal with |- _ /\ _ => split end.

(** One conjunct of [unique_valid] after a statement. *)
Ltac uq_conjunct :=
  first
    [ assumption
    | rewrite map_key_update by (intros; reflexivity); assumption
    | rewrite map_app; apply NoDup_app_one;
        [assumption
        | first [ apply next_rowid_fresh
                | apply existsb_Z_notin; assumption
                | apply existsb_string_notin; assumption ] ] ].

Lemma insert_into_authors_unique p db db' :
  unique_valid db -> insert_into_authors p db = Ok db' -> unique_valid db'.
Proof.
  destruct p as [login name]. unfold insert_into_authors. intros Hv H.
  monad_inv.
  destruct (existsb _ (authors db)) eqn:E; [destruct name|]; monad_inv;
    try exact Hv; uq_open; uq_split Hv; uq_conjunct.
Qed.

Lemma insert_into_pull_requests_unique p db db' :
  unique_valid db -> insert_into_pull_requests p db = Ok db' -> unique_valid db'.
Proof.
  destruct p as [[[[[[[[[[[[[a b] c] d] e] f] g] h] i] j] k] l] m] n].
  unfold insert_into_pull_requests. intros Hv H. monad_inv.
  destruct (existsb _ (pull_requests db)) eqn:E; monad_inv;
    uq_open; uq_split Hv; uq_conjunct.
Qed.

Lemma insert_into_reviews_unique p db db' :
  unique_valid db -> insert_into_reviews p db = Ok db' -> unique_valid db'.
Proof.
  destruct p as [[[a b] c] d]. unfold insert_into_reviews. intros Hv H.
  monad_inv. destruct (existsb _ (reviews db)) eqn:E; monad_inv;
    try exact Hv; uq_open; uq_split Hv; uq_conjunct.
Qed.

Lemma insert_into_labels_unique p db db' :
  unique_valid db -> insert_into_labels p db = Ok db' -> unique_valid db'.
Proof.
  unfold insert_into_labels. intros Hv H.
  monad_inv. destruct (existsb _ (labels db)) eqn:E; monad_inv;
    try exact Hv; uq_open; uq_split Hv; uq_conjunct.
Qed.

Lemma insert_into_review_threads_unique p db db' res :
  unique_valid db -> insert_into_review_threads p db = Ok (db', res) ->
  unique_valid db'.
Proof.
  destruct p as [node_id pid]. unfold insert_into_review_threads. intros Hv H.
  monad_inv.
  destruct (find _ (review_threads db)) as [old|] eqn:Hfind; monad_inv.
  - rewrite map_update_id; [now rewrite set_review_threads_same|].
    intros r _ Hr. apply String.eqb_eq in Hr. destruct r; cbn in *. now subst.
  - lazymatch type of Hfind with
    | find (fun r => String.eqb _ ?n) _ = None =>
        assert (E : existsb (fun r => String.eqb (ReviewThread.node_id r) n)
                            (review_threads db) = false)
          by (rewrite find_existsb; now rewrite Hfind)
    end.
    uq_open; uq_split Hv; uq_conjunct.
Qed.

Lemma insert_into_comments_unique p db db' :
  unique_valid db -> insert_into_comments p db = Ok db' -> unique_valid db'.
Proof.
  destruct p as [[[[[cid a] p] r] t] ca]. unfold insert_into_comments.
  intros Hv H. monad_inv.
  destruct (find _ (comments db)) as [old|] eqn:Hfind in H; monad_inv.
  - uq_open; uq_split Hv; uq_conjunct.
  - assert (E : existsb (fun r => Comment.id r =? cid) (comments db) = false)
      by (rewrite find_existsb; now rewrite Hfind).
    uq_open; uq_split Hv; uq_conjunct.
Qed.

Lemma key2_Some {A B} (a : option A) (b : option B) x y :
  key2 a b = Some (x, y) -> a = Some x /\ b = Some y.
Proof. destruct a, b; cbn; intros H; inversion H; auto. Qed.

Lemma insert_into_commits_unique p db db' :
  unique_valid db -> insert_into_commits p db = Ok db' -> unique_valid db'.
Proof.
  destruct p as [[pid url] date]. unfold insert_into_commits. intros Hv H.
  monad_inv. destruct (existsb _ (commits db)) eqn:E; monad_inv;
    try exact Hv; uq_open; uq_split Hv; try uq_conjunct.
  eapply sql_unique_app; [assumption | exact E |].
  intros r [k1 k2] Hx Hr.
  cbn [Commit.pull_request_id Commit.url] in Hx.
  apply key2_Some in Hx, Hr. destruct Hx as [Hp Hu], Hr as [Hp' Hu'].
  inversion Hp; subst. rewrite Hp', Hu'. cbn.
  now rewrite Z.eqb_refl, String.eqb_refl.
Qed.

Lemma insert_into_files_unique p db db' :
  unique_valid db -> insert_into_files p db = Ok db' -> unique_valid db'.
Proof.
  destruct p as [[[[pid path] ct] a] d]. unfold insert_into_files. intros Hv H.
  monad_inv. destruct (existsb _ (files db)) eqn:E; monad_inv;
    try exact Hv; uq_open; uq_split Hv; try uq_conjunct.
  eapply sql_unique_app; [assumption | exact E |].
  intros r [k1 k2] Hx Hr. cbn in Hx.
  apply key2_Some in Hr. destruct Hr as [Hp' Hu'].
  inversion Hx; subst. inversion Hu'. rewrite Hp'. cbn.
  now rewrite Z.eqb_refl, String.eqb_refl.
Qed.

Lemma insert_into_author_pull_request_unique p db db' :
  unique_valid db -> insert_into_author_pull_request p db = Ok db' ->
  unique_valid db'.
Proof.
  destruct p as [a pid]. unfold insert_into_author_pull_request. intros Hv H.
  monad_inv. destruct (existsb _ (author_pull_request db)) eqn:E; monad_inv;
    try exact Hv; uq_open; uq_split Hv; try uq_conjunct.
  eapply sql_unique_app; [assumption | exact E |].
  intros r [k1 k2] Hx Hr. cbn in Hx.
  apply key2_Some in Hr. destruct Hr as [Hp' Hu'].
  inversion Hx; subst. rewrite Hp', Hu'. cbn. now rewrite !Z.eqb_refl.
Qed.

Lemma insert_into_label_pull_request_unique p db db' :
  unique_valid db -> insert_into_label_pull_request p db = Ok db' ->
  unique_valid db'.
Proof.
  destruct p as [a pid]. unfold insert_into_label_pull_request. intros Hv H.
  monad_inv. destruct (existsb _ (label_pull_request db)) eqn:E; monad_inv;
    try exact Hv; uq_open; uq_split Hv; try uq_conjunct.
  eapply sql_unique_app; [assumption | exact E |].
  intros r [k1 k2] Hx Hr. cbn in Hx.
  apply key2_Some in Hr. destruct Hr as [Hp' Hu'].
  inversion Hx; subst. rewrite Hp', Hu'. cbn. now rewrite !Z.eqb_refl.
Qed.

Lemma statements_keep_unique : statements_keep unique_valid.
Proof.
  unfold statements_keep.
  repeat lazymatch goal with |- _ /\ _ => split end;
    eauto using insert_into_authors_unique, insert_into_pull_requests_unique,
      insert_into_commits_unique, insert_into_reviews_unique,
      insert_into_review_threads_unique, insert_into_comments_unique,
      insert_into_files_unique, insert_into_author_pull_request_unique,
      insert_into_labels_unique, insert_into_label_pull_request_unique.
Qed.

(** ** What the statements keep, a run keeps *)

Section RunKeeps.

Variable I : DB -> Prop.
Hypothesis statements : statements_keep I.
Variable scan_authors : list Author.row -> list Author.row.
Variable scan_labels : list Label.row -> list Label.row.
Variable token_pool : list string.

Lemma cooldown_con d : con (cooldown d) = con d.
Proof. apply cooldown_keeps. Qed.

Lemma turn_keeps x d :
  I (con d) ->
  not_crashed (turn scan_authors scan_labels token_pool x d) ->
  I (con (state_of (turn scan_authors scan_labels token_pool x d))).
Proof.
  intros Hd. unfold turn.
  destruct (nth_error token_pool (current_token_idx (cooldown d)));
    [|intros []].
  destruct (answer x) as [err|res].
  - intros _. unfold on_TransportServerError.
    destruct (negb _ && negb _); [|destruct (_ <=? _)%nat];
      cbn; now rewrite cooldown_con.
  - unfold on_result.
    destruct (Answer.repository res) as [repo|];
      [destruct (Answer.rateLimit res) as [rl|]|].
    + cbn [con executeQuery].
      destruct (savePullRequests _ _ _ _) as [db|e] eqn:E; [|intros []].
      intros _. cbn. eapply savePullRequests_keeps; [exact statements | | exact E].
      now rewrite cooldown_con.
    + destruct (Answer.message res); [intros []|].
      intros _. cbn. now rewrite cooldown_con.
    + destruct (Answer.message res); [intros []|].
      intros _. cbn. now rewrite cooldown_con.
Qed.

Lemma main_keeps : forall script d,
  I (con d) ->
  not_crashed (fst (main scan_authors scan_labels token_pool script d)) ->
  I (con (state_of (fst (main scan_authors scan_labels token_pool script d)))).
Proof.
  induction script as [|x script IH]; intros d Hd; cbn [main].
  - destruct (has_next_page d); intros _; exact Hd.
  - destruct (has_next_page d); [|intros _; exact Hd].
    pose proof (turn_keeps x d Hd) as Hturn.
    destruct (turn scan_authors scan_labels token_pool x d) as [d'|d'|d'|e d'];
      cbn [fst state_of not_crashed] in *; auto.
Qed.

End RunKeeps.

Lemma prefix_incl {A} (l l' : list A) : prefix l l' -> incl l l'.
Proof. intros H x Hx. eapply prefix_In; eauto. Qed.

(** The rows of the model are in the order of their insertion; what does
    not depend on that order is kept of the tables whose ids come from the
    answer. *)
Lemma grows_rows_kept db db' : grows db db' -> rows_kept db db'.
Proof.
  unfold grows, rows_kept.
  intros (A1 & A2 & A3 & A4 & A5 & A6 & A7 & A8 & A9 & A10).
  repeat lazymatch goal with |- _ /\ _ => split end;
    try assumption; now apply prefix_incl.
Qed.

Section StoreInvariants.

Variable scan_authors : list Author.row -> list Author.row.
Variable scan_labels : list Label.row -> list Label.row.
Variable token_pool : list string.

(** X2.  The upsert layer only adds.  After [savePullRequests], and
    after a whole run of the loop that did not crash, every row of
    commits, review_threads, files, labels and the two join tables is
    where it was, unchanged, and new rows come after; every stored review
    is still stored, unchanged; an author has kept its id and login; the
    id of every pull request and the id, author and date of every comment
    are still stored.  No save removes a row. *)
Theorem store_grows :
  (forall l db db',
      savePullRequests scan_authors scan_labels l db = Ok db' ->
      rows_kept db db')
  /\ (forall script d,
         not_crashed (fst (main scan_authors scan_labels token_pool script d)) ->
         rows_kept
           (con d)
           (con (state_of
                   (fst (main scan_authors scan_labels token_pool script d))))).
Proof.
  split.
  - intros l db db' H. apply grows_rows_kept.
    eapply (savePullRequests_keeps (grows db) (statements_keep_grows db));
      [apply grows_refl | exact H].
  - intros script d Hrun. apply grows_rows_kept. revert Hrun.
    apply (main_keeps (grows (con d)) (statements_keep_grows (con d))).
    apply grows_refl.
Qed.

(** X3.  The foreign keys of the schema are an invariant of the upsert
    layer: from a store in which every child key is null or names a stored
    parent, [savePullRequests], and a whole run of the loop that did not
    crash, end in such a store.  The store [db_init.py] creates is one. *)
Theorem foreign_keys_kept :
  fk_valid empty_db
  /\ (forall l db db',
         fk_valid db ->
         savePullRequests scan_authors scan_labels l db = Ok db' -> fk_valid db')
  /\ (forall script d,
         fk_valid (con d) ->
         not_crashed (fst (main scan_authors scan_labels token_pool script d)) ->
         fk_valid
           (con (state_of
                   (fst (main scan_authors scan_labels token_pool script d))))).
Proof.
  split; [|split].
  - unfold fk_valid, fk. cbn. repeat split; constructor.
  - intros l db db'. apply (savePullRequests_keeps fk_valid statements_keep_fk).
  - intros script d. apply (main_keeps fk_valid statements_keep_fk).
Qed.

(** X4.  The primary keys and the unique constraints of the schema are an
    invariant of the upsert layer: ids are never repeated in a table, nor
    are logins, label names and node identifiers, nor the pairs
    (pull_request_id, url), (pull_request_id, path), (author_id,
    pull_request_id) and (label_id, pull_request_id) whose columns are not
    null, after [savePullRequests] and after a run that did not crash. *)
Theorem unique_keys_kept :
  unique_valid empty_db
  /\ (forall l db db',
         unique_valid db ->
         savePullRequests scan_authors scan_labels l db = Ok db' ->
         unique_valid db')
  /\ (forall script d,
         unique_valid (con d) ->
         not_crashed (fst (main scan_authors scan_labels token_pool script d)) ->
         unique_valid
           (con (state_of
                   (fst (main scan_authors scan_labels token_pool script d))))).
Proof.
  split; [|split].
  - unfold unique_valid, sql_unique. cbn. repeat split; constructor.
  - intros l db db'.
    apply (savePullRequests_keeps unique_valid statements_keep_unique).
  - intros script d. apply (main_keeps unique_valid statements_keep_unique).
Qed.

End StoreInvariants.

Lemma store_grows_witness :
  exists db',
    savePullRequests rowid_order rowid_order sample_page sample_store = Ok db'
    /\ rows_kept sample_store db'.
Proof.
  destruct (savePullRequests rowid_order rowid_order sample_page sample_store)
    as [db'|e] eqn:E; [|vm_compute in E; discriminate].
  exists db'. split; [reflexivity|].
  exact (proj1 (store_grows rowid_order rowid_order []) _ _ _ E).
Defined.

Lemma foreign_keys_kept_witness :
  exists d',
    fst (main rowid_order rowid_order ["token-1"] [sample_answer]
              (initial empty_db 0)) = Finished d'
    /\ fk_valid (con d')
    /\ List.length (comments (con d')) = 1%nat.
Proof.
  pose proof (proj2 (proj2 (foreign_keys_kept rowid_order rowid_order ["token-1"]))
                [sample_answer] (initial empty_db 0)) as H.
  destruct (fst (main rowid_order rowid_order ["token-1"] [sample_answer]
                      (initial empty_db 0))) as [d'|d'|d'|e d'] eqn:E;
    try (vm_compute in E; discriminate).
  exists d'. split; [reflexivity|]. split.
  - apply H; [apply (proj1 (foreign_keys_kept rowid_order rowid_order [])) | exact I].
  - vm_compute in E. inversion E. reflexivity.
Defined.

Lemma unique_keys_kept_witness :
  unique_valid empty_db
  /\ exists db',
      savePullRequests rowid_order rowid_order (sample_page ++ sample_page)
                       empty_db = Ok db'
      /\ unique_valid db'.
Proof.
  pose proof (unique_keys_kept rowid_order rowid_order []) as (H0 & Hsave & _).
  split; [exact H0|].
  destruct (savePullRequests rowid_order rowid_order (sample_page ++ sample_page)
                             empty_db) as [db'|e] eqn:E;
    [|vm_compute in E; discriminate].
  exists db'. split; [reflexivity|]. exact (Hsave _ _ _ H0 E).
Defined.

(** ** Lookups after a save *)

Lemma eq_nocase_refl s : eq_nocase s s = true.
Proof.
  induction s as [|c s IH]; cbn; [reflexivity|].
  unfold chr_nocase_eqb. now rewrite Ascii.eqb_refl, IH.
Qed.

(** Without wildcard a pattern matches exactly the texts equal to it up to
    ASCII case. *)
Lemma like_no_wildcard p :
  no_wildcard p = true -> forall s, like p s = eq_nocase p s.
Proof.
  induction p as [|c p IH]; intros Hp s.
  - now destruct s.
  - cbn [no_wildcard] in Hp. apply andb_true_iff in Hp. destruct Hp as [Hc Hp].
    apply andb_true_iff in Hc. destruct Hc as [Hall Hone].
    apply negb_true_iff in Hall, Hone.
    rewrite like_cons, Hall, Hone. destruct s as [|c2 s]; [reflexivity|].
    cbn [eq_nocase]. now rewrite IH.
Qed.

(** After the upsert of a login a row carries it. *)
Lemma insert_into_authors_stores login name db db' :
  insert_into_authors (Some login, name) db = Ok db' ->
  exists r, In r (authors db') /\ Author.login r = login.
Proof.
  unfold insert_into_authors. cbn [not_null bind]. intros H.
  destruct (existsb _ (authors db)) eqn:E.
  - apply existsb_exists in E. destruct E as (r & Hin & Hl).
    destruct name as [n|]; monad_inv.
    + exists (Author.mk (Author.id r) (Author.login r) (Some n)).
      split; [|now apply String.eqb_eq]. cbn. apply in_map_iff. exists r.
      split; [|exact Hin]. now rewrite Hl.
    + exists r. split; [exact Hin | now apply String.eqb_eq].
  - monad_inv. eexists. split; [cbn; apply in_or_app; right; left; reflexivity|].
    reflexivity.
Qed.

Section ReadAfterWrite.

Variable scan_authors : list Author.row -> list Author.row.
Variable scan_labels : list Label.row -> list Label.row.
Hypothesis scan_authors_visits_all : forall l, Permutation (scan_authors l) l.
Hypothesis scan_labels_visits_all : forall l, Permutation (scan_labels l) l.

(** X5.  Read after write.  For an author object with a login, the lines
    [saveAuthor(author_login)] and [getAuthorIDByLogin(author_login)] of
    [saveComments], [saveReviews] and [savePullRequests] always succeed
    and never give a null [author_id]: the login is stored after the save,
    and the id is that of a stored author whose login matches the login as
    a LIKE pattern, which is the author of that login when no other stored
    login matches it. *)
Theorem author_resolved_after_save :
  forall (author : option Actor.t) (login : string) (db : DB),
    or_empty_get author Actor.login = Some login ->
    exists db' r,
      resolve_author scan_authors author db = Ok (db', Some (Author.id r))
      /\ grows db db'
      /\ In r (authors db')
      /\ like login (Author.login r) = true
      /\ In login (map Author.login (authors db'))
      /\ references (author_ids db') (Some (Author.id r)) = true
      /\ ((forall r', In r' (authors db') ->
                      like login (Author.login r') = true ->
                      Author.login r' = login) ->
          Author.login r = login).
Proof.
  intros author login db Hlogin. unfold resolve_author. rewrite Hlogin.
  destruct (saveAuthor_total login None db) as [db' Hsave]. rewrite Hsave.
  cbn [bind]. unfold saveAuthor in Hsave.
  destruct (insert_into_authors_stores _ _ _ _ Hsave) as (r0 & Hin0 & Hl0).
  destruct (fetchone_spec scan_authors (fun r => like login (Author.login r))
              (authors db') scan_authors_visits_all) as [Hsome Hex].
  destruct (Hex r0 Hin0) as [r Hr].
  { rewrite Hl0. apply like_eq_nocase, eq_nocase_refl. }
  destruct (Hsome _ Hr) as [Hin Hlike].
  exists db', r. unfold getAuthorIDByLogin. rewrite Hr.
  split; [reflexivity|]. split; [now apply insert_into_authors_grows in Hsave|].
  split; [exact Hin|]. split; [exact Hlike|]. split.
  { rewrite <- Hl0. now apply in_map. }
  split.
  { cbn. apply existsb_exists. exists (Author.id r). split.
    - unfold author_ids. now apply in_map.
    - apply Z.eqb_refl. }
  intros Honly. now apply Honly.
Qed.

(** X6.  A looked-up login or label name without [%] and [_] only ever
    resolves to a stored row that is equal to it up to ASCII case; it
    resolves to none exactly when no stored row is. *)
Theorem lookup_without_wildcard :
  forall (s : string) (db : DB),
    no_wildcard s = true ->
    (forall i, getAuthorIDByLogin scan_authors s db = Some i ->
               exists r, In r (authors db) /\ Author.id r = i
                         /\ eq_nocase s (Author.login r) = true)
    /\ (getAuthorIDByLogin scan_authors s db = None <->
        forall r, In r (authors db) -> eq_nocase s (Author.login r) = false)
    /\ (forall i, getLabelIDByName scan_labels s db = Some i ->
                  exists r, In r (labels db) /\ Label.id r = i
                            /\ eq_nocase s (Label.name r) = true)
    /\ (getLabelIDByName scan_labels s db = None <->
        forall r, In r (labels db) -> eq_nocase s (Label.name r) = false).
Proof.
  intros s db Hs.
  destruct (fetchone_spec scan_authors (fun r => like s (Author.login r))
              (authors db) scan_authors_visits_all) as [Ha1 Ha2].
  destruct (fetchone_spec scan_labels (fun r => like s (Label.name r))
              (labels db) scan_labels_visits_all) as [Hl1 Hl2].
  unfold getAuthorIDByLogin, getLabelIDByName.
  repeat lazymatch goal with |- _ /\ _ => split end.
  - intros i H. destruct (find _ (scan_authors _)) as [r|] eqn:E in H; [|discriminate].
    inversion H; subst. destruct (Ha1 _ E) as [Hin Hlike].
    exists r. rewrite <- (like_no_wildcard _ Hs). auto.
  - split.
    + intros H r Hin. destruct (find _ (scan_authors _)) as [r'|] eqn:E in H; [discriminate|].
      rewrite <- (like_no_wildcard _ Hs).
      destruct (like s (Author.login r)) eqn:El; [|reflexivity].
      destruct (Ha2 r Hin El) as [r' Hr']. congruence.
    + intros H. destruct (find _ (scan_authors _)) as [r'|] eqn:E; [|reflexivity].
      destruct (Ha1 _ eq_refl) as [Hin Hlike].
      rewrite (like_no_wildcard _ Hs), (H _ Hin) in Hlike. discriminate.
  - intros i H. destruct (find _ (scan_labels _)) as [r|] eqn:E in H; [|discriminate].
    inversion H; subst. destruct (Hl1 _ E) as [Hin Hlike].
    exists r. rewrite <- (like_no_wildcard _ Hs). auto.
  - split.
    + intros H r Hin. destruct (find _ (scan_labels _)) as [r'|] eqn:E in H; [discriminate|].
      rewrite <- (like_no_wildcard _ Hs).
      destruct (like s (Label.name r)) eqn:El; [|reflexivity].
      destruct (Hl2 r Hin El) as [r' Hr']. congruence.
    + intros H. destruct (find _ (scan_labels _)) as [r'|] eqn:E; [|reflexivity].
      destruct (Hl1 _ eq_refl) as [Hin Hlike].
      rewrite (like_no_wildcard _ Hs), (H _ Hin) in Hlike. discriminate.
Qed.

End ReadAfterWrite.

Lemma rowid_order_visits_all {R} (l : list R) : Permutation (rowid_order l) l.
Proof. apply Permutation_refl. Qed.

Lemma author_resolved_after_save_witness :
  (forall l : list Author.row, Permutation (rowid_order l) l)
  /\ or_empty_get (Some (Actor.mk (Some "bob") None)) Actor.login = Some "bob"
  /\ exists db' r,
      resolve_author rowid_order (Some (Actor.mk (Some "bob") None)) sample_store
      = Ok (db', Some (Author.id r))
      /\ In r (authors db')
      /\ like "bob" (Author.login r) = true.
Proof.
  split; [intros; apply rowid_order_visits_all|]. split; [reflexivity|].
  destruct (author_resolved_after_save rowid_order
              (fun l => rowid_order_visits_all l)
              (Some (Actor.mk (Some "bob") None)) "bob" sample_store eq_refl)
    as (db' & r & Hres & _ & Hin & Hlike & _).
  exists db', r. repeat split; assumption.
Defined.

Lemma lookup_without_wildcard_witness :
  (forall l : list Author.row, Permutation (rowid_order l) l)
  /\ (forall l : list Label.row, Permutation (rowid_order l) l)
  /\ no_wildcard "ALICE" = true
  /\ exists r,
      In r (authors sample_store)
      /\ Some (Author.id r) = getAuthorIDByLogin rowid_order "ALICE" sample_store
      /\ eq_nocase "ALICE" (Author.login r) = true.
Proof.
  split; [intros; apply rowid_order_visits_all|].
  split; [intros; apply rowid_order_visits_all|]. split; [reflexivity|].
  destruct (proj1 (lookup_without_wildcard rowid_order rowid_order
                     (fun l => rowid_order_visits_all l)
                     (fun l => rowid_order_visits_all l)
                     "ALICE" sample_store eq_refl) 1 eq_refl)
    as (r & Hin & Hid & Heq).
  exists r. split; [exact Hin|]. split; [|exact Heq]. now rewrite Hid.
Defined.

(** ** Saving the same list again *)

Lemma executemany_stored_kept {P} (stmt : P -> DB -> result DB)
    (stored : DB -> Prop) :
  (forall q db db', stored db -> stmt q db = Ok db' -> stored db') ->
  forall l db db', stored db -> executemany stmt l db = Ok db' -> stored db'.
Proof.
  intros Hs. induction l as [|q l IH]; cbn; intros db db' Hdb H.
  - now inversion H; subst.
  - monad_inv. eauto.
Qed.

Lemma executemany_all_stored {P} (stmt : P -> DB -> result DB)
    (stored : P -> DB -> Prop) (good : P -> Prop) :
  (forall p db db', good p -> stmt p db = Ok db' -> stored p db') ->
  (forall p q db db', stored p db -> stmt q db = Ok db' -> stored p db') ->
  forall l db db',
    Forall good l -> executemany stmt l db = Ok db' ->
    Forall (fun p => stored p db') l.
Proof.
  intros Hnew Hkept l db db' Hgood. revert db.
  induction Hgood as [|p l Hp _ IH]; intros db H; [constructor|].
  cbn in H. monad_inv.
  lazymatch goal with
  | Hstep : stmt p db = Ok ?d |- _ =>
      constructor; [|now apply (IH d)];
      apply (executemany_stored_kept stmt (stored p) (Hkept p) l d db');
        [now apply (Hnew p db d) | exact H]
  end.
Qed.

Lemma executemany_resave {P} (stmt : P -> DB -> result DB)
    (stored : P -> DB -> Prop) (bindable good : P -> Prop) :
  (forall p db db', good p -> stmt p db = Ok db' -> stored p db' /\ bindable p) ->
  (forall p q db db', stored p db -> stmt q db = Ok db' -> stored p db') ->
  (forall p db, stored p db -> bindable p -> stmt p db = Ok db) ->
  forall l db db',
    Forall good l -> executemany stmt l db = Ok db' ->
    executemany stmt l db' = Ok db'.
Proof.
  intros Hnew Hkept Hnoop l db db' Hgood H.
  assert (Hall : Forall (fun p => stored p db' /\ bindable p) l).
  { apply (executemany_all_stored stmt (fun p d => stored p d /\ bindable p)
             good) with (db := db); try assumption.
    intros p q d d' [Hs Hb] Hq. split; [now apply (Hkept p q d d') | exact Hb]. }
  clear H Hgood. induction Hall as [|p l [Hst Hb] _ IH]; cbn; [reflexivity|].
  now rewrite (Hnoop p db' Hst Hb).
Qed.

Lemma insert_into_commits_new p db db' :
  snd (fst p) <> None ->
  insert_into_commits p db = Ok db' -> commit_stored p db' /\ commit_bindable p.
Proof.
  destruct p as [[pid url] date]. cbn [fst snd]. intros Hurl H.
  destruct url as [u|]; [clear Hurl|contradiction].
  unfold insert_into_commits in H. monad_inv.
  split; [|cbn; split; [assumption | discriminate]].
  destruct (existsb _ (commits db)) eqn:E; monad_inv.
  - apply existsb_exists in E. destruct E as (r & Hin & Hr).
    apply andb_true_iff in Hr. destruct Hr as [Hp Hu].
    apply sql_eqb_Z_Some in Hp.
    exists r, u. repeat split; try assumption.
    destruct (Commit.url r) as [v|]; cbn in Hu; [|discriminate].
    apply String.eqb_eq in Hu. now subst.
  - eexists; exists u. split; [cbn; apply in_or_app; right; left; reflexivity|].
    repeat split.
Qed.

Lemma commit_stored_kept p q db db' :
  commit_stored p db -> insert_into_commits q db = Ok db' -> commit_stored p db'.
Proof.
  destruct p as [[pid url] date]. intros (r & u & Hin & Hrest) H.
  apply insert_into_commits_grows in H. destruct H as (_ & _ & Hc & _).
  exists r, u. split; [eapply prefix_In; eauto | exact Hrest].
Qed.

Lemma insert_into_files_new p db db' :
  insert_into_files p db = Ok db' -> file_stored p db' /\ file_bindable p.
Proof.
  destruct p as [[[[pid path] ct] a] d]. intros H.
  unfold insert_into_files in H. monad_inv.
  split; [|cbn; split; [|split]; assumption].
  destruct (existsb _ (files db)) eqn:E; monad_inv.
  - apply existsb_exists in E. destruct E as (r & Hin & Hr).
    apply andb_true_iff in Hr. destruct Hr as [Hp Hu].
    apply sql_eqb_Z_Some in Hp. apply String.eqb_eq in Hu.
    exists r. repeat split; try assumption. now rewrite Hu.
  - eexists. split; [cbn; apply in_or_app; right; left; reflexivity|].
    repeat split.
Qed.

Lemma file_stored_kept p q db db' :
  file_stored p db -> insert_into_files q db = Ok db' -> file_stored p db'.
Proof.
  destruct p as [[[[pid path] ct] a] d]. intros (r & Hin & Hrest) H.
  apply insert_into_files_grows in H.
  destruct H as (_ & _ & _ & _ & _ & _ & Hf & _).
  exists r. split; [eapply prefix_In; eauto | exact Hrest].
Qed.

Lemma insert_into_labels_new p db db' :
  insert_into_labels p db = Ok db' -> label_stored p db'.
Proof.
  intros H. unfold insert_into_labels in H. monad_inv.
  destruct (existsb _ (labels db)) eqn:E; monad_inv.
  - apply existsb_exists in E. destruct E as (r & Hin & Hr).
    apply String.eqb_eq in Hr. exists r. split; [exact Hin | now rewrite Hr].
  - eexists. split; [cbn; apply in_or_app; right; left; reflexivity|].
    reflexivity.
Qed.

Lemma label_stored_kept p q db db' :
  label_stored p db -> insert_into_labels q db = Ok db' -> label_stored p db'.
Proof.
  intros (r & Hin & Hrest) H. apply insert_into_labels_grows in H.
  destruct H as (_ & _ & _ & _ & _ & _ & _ & _ & Hl & _).
  exists r. split; [eapply prefix_In; eauto | exact Hrest].
Qed.

(** X7.  Saving the same list a second time changes nothing.  After a
    successful [saveCommits] of commits that all have a url, a successful
    [saveFiles] or a successful [saveLabels], the same call on the
    resulting store succeeds and returns that store: a page that is
    fetched again adds no commit, file or label. *)
Theorem resave_is_noop :
  (forall commits pull_request_id db db1,
      (forall commit, In commit commits ->
         or_empty_get (CommitNode.commit commit) CommitNode.commitUrl <> None) ->
      saveCommits (Some commits) pull_request_id db = Ok db1 ->
      saveCommits (Some commits) pull_request_id db1 = Ok db1)
  /\ (forall files pull_request_id db db1,
         saveFiles (Some files) pull_request_id db = Ok db1 ->
         saveFiles (Some files) pull_request_id db1 = Ok db1)
  /\ (forall labels db db1,
         saveLabels (Some labels) db = Ok db1 ->
         saveLabels (Some labels) db1 = Ok db1).
Proof.
  split; [|split].
  - intros commits pid db db1 Hurl H. unfold saveCommits in *.
    destruct commits as [|c l]; [reflexivity|].
    revert H.
    apply (executemany_resave insert_into_commits commit_stored commit_bindable
             (fun p => snd (fst p) <> None)).
    + intros p d d'. apply insert_into_commits_new.
    + apply commit_stored_kept.
    + intros p d Hs Hb. now apply insert_into_commits_stored.
    + apply Forall_forall. intros p Hp. apply in_map_iff in Hp.
      destruct Hp as (x & <- & Hx). cbn [fst snd]. now apply Hurl.
  - intros files pid db db1 H. unfold saveFiles in *.
    destruct files as [|c l]; [reflexivity|].
    revert H.
    apply (executemany_resave insert_into_files file_stored file_bindable
             (fun _ => True)).
    + intros p d d' _. apply insert_into_files_new.
    + apply file_stored_kept.
    + intros p d Hs Hb. now apply insert_into_files_stored.
    + apply Forall_forall. auto.
  - intros labels db db1 H. unfold saveLabels in *.
    destruct labels as [|c l]; [reflexivity|].
    revert H.
    apply (executemany_resave insert_into_labels label_stored (fun _ => True)
             (fun _ => True)).
    + intros p d d' _ Hp. split; [now apply insert_into_labels_new in Hp | exact I].
    + apply label_stored_kept.
    + intros p d Hs _. now apply insert_into_labels_stored.
    + apply Forall_forall. auto.
Qed.

Lemma resave_is_noop_witness :
  exists db1,
    saveFiles (Some [FileNode.mk (Some "src/parser.c") (Some "MODIFIED")
                                 (Some 10) (Some 2);
                     FileNode.mk (Some "src/lexer.c") None None None])
              5 sample_store = Ok db1
    /\ List.length (files db1) = 2%nat
    /\ saveFiles (Some [FileNode.mk (Some "src/parser.c") (Some "MODIFIED")
                                    (Some 10) (Some 2);
                        FileNode.mk (Some "src/lexer.c") None None None])
                 5 db1 = Ok db1.
Proof.
  eexists. split; [reflexivity|]. split; [reflexivity|].
  apply (proj1 (proj2 resave_is_noop) _ 5 sample_store). reflexivity.
Defined.

(** ** The join rows of a pull request *)

Lemma insert_into_label_pull_request_new p db db' :
  insert_into_label_pull_request p db = Ok db' ->
  label_pull_request_stored p db'.
Proof.
  destruct p as [a pid]. unfold insert_into_label_pull_request,
    label_pull_request_stored. cbn [fst snd]. intros H. monad_inv.
  destruct (existsb _ (label_pull_request db)) eqn:E; monad_inv.
  - apply existsb_exists in E. destruct E as ([l q] & Hin & Hr).
    apply andb_true_iff in Hr. cbn in Hr. destruct Hr as [Hl Hq].
    apply sql_eqb_Z_Some in Hl, Hq. now subst.
  - cbn. apply in_or_app. right. now left.
Qed.

Lemma label_pull_request_stored_kept p q db db' :
  label_pull_request_stored p db ->
  insert_into_label_pull_request q db = Ok db' ->
  label_pull_request_stored p db'.
Proof.
  unfold label_pull_request_stored. intros Hin H.
  apply insert_into_label_pull_request_grows in H.
  destruct H as (_ & _ & _ & _ & _ & _ & _ & _ & _ & Hl).
  eapply prefix_In; eauto.
Qed.

Lemma insert_into_author_pull_request_new p db db' :
  insert_into_author_pull_request p db = Ok db' ->
  author_pull_request_stored p db'.
Proof.
  destruct p as [a pid]. unfold insert_into_author_pull_request,
    author_pull_request_stored. cbn [fst snd]. intros H. monad_inv.
  destruct (existsb _ (author_pull_request db)) eqn:E; monad_inv.
  - apply existsb_exists in E. destruct E as ([l q] & Hin & Hr).
    apply andb_true_iff in Hr. cbn in Hr. destruct Hr as [Hl Hq].
    apply sql_eqb_Z_Some in Hl, Hq. now subst.
  - cbn. apply in_or_app. right. now left.
Qed.

Lemma author_pull_request_stored_kept p q db db' :
  author_pull_request_stored p db ->
  insert_into_author_pull_request q db = Ok db' ->
  author_pull_request_stored p db'.
Proof.
  unfold author_pull_request_stored. intros Hin H.
  apply insert_into_author_pull_request_grows in H.
  destruct H as (_ & _ & _ & _ & _ & _ & _ & Hl & _).
  eapply prefix_In; eauto.
Qed.

Lemma insert_into_authors_new p db db' :
  insert_into_authors p db = Ok db' -> login_stored p db'.
Proof.
  destruct p as [[login|] name]; unfold login_stored; cbn [fst]; intros H.
  - destruct (insert_into_authors_stores _ _ _ _ H) as (r & Hin & <-).
    now apply in_map.
  - discriminate H.
Qed.

Lemma login_stored_kept p q db db' :
  login_stored p db -> insert_into_authors q db = Ok db' -> login_stored p db'.
Proof.
  unfold login_stored. destruct (fst p) as [login|]; [|contradiction].
  intros Hin H. apply insert_into_authors_grows in H.
  destruct H as (Ha & _).
  apply (prefix_map snd) in Ha. rewrite !map_map in Ha. cbn [snd] in Ha.
  eapply prefix_In; eauto.
Qed.

Section Linking.

Variable scan_authors : list Author.row -> list Author.row.
Variable scan_labels : list Label.row -> list Label.row.
Hypothesis scan_authors_visits_all : forall l, Permutation (scan_authors l) l.
Hypothesis scan_labels_visits_all : forall l, Permutation (scan_labels l) l.

Lemma linkLabelsWithPullRequest_query_data_In l pull_request_id db :
  forall label name label_id,
    In label l -> LabelNode.name label = Some name ->
    getLabelIDByName scan_labels name db = Some label_id ->
    In (label_id, pull_request_id)
       (linkLabelsWithPullRequest_query_data scan_labels l pull_request_id db).
Proof.
  induction l as [|x l IH]; intros label name label_id Hin Hname Hid;
    [contradiction|].
  cbn [linkLabelsWithPullRequest_query_data].
  destruct Hin as [->|Hin].
  - rewrite Hname, Hid. now left.
  - specialize (IH _ _ _ Hin Hname Hid).
    destruct (match LabelNode.name x with
              | Some label_name => getLabelIDByName scan_labels label_name db
              | None => None
              end); [now right | exact IH].
Qed.

Lemma saveParticipants_query_data_In l pull_request_id db :
  forall author login author_id,
    In author l -> Actor.login author = Some login ->
    getAuthorIDByLogin scan_authors login db = Some author_id ->
    In (author_id, pull_request_id)
       (saveParticipants_query_data scan_authors l pull_request_id db).
Proof.
  induction l as [|x l IH]; intros author login author_id Hin Hlogin Hid;
    [contradiction|].
  cbn [saveParticipants_query_data].
  destruct Hin as [->|Hin].
  - rewrite Hlogin, Hid. now left.
  - specialize (IH _ _ _ Hin Hlogin Hid).
    destruct (match Actor.login x with
              | Some author_login => getAuthorIDByLogin scan_authors author_login db
              | None => None
              end); [now right | exact IH].
Qed.

(** X8.  Every label and every participant of a pull request gets its
    join row.  After a successful [linkLabelsWithPullRequest], each label
    of the list is linked to the pull request: [label_pull_request] holds
    the pair of the pull request and the id of a stored label whose name
    matches the label's name as a LIKE pattern.  After a successful
    [saveParticipants], each participant with a login is linked in
    [author_pull_request] in the same way.  No listed label or login is
    skipped by the [continue] of the loop. *)
Theorem labels_and_participants_linked :
  (forall labels_ pull_request_id db db',
      linkLabelsWithPullRequest scan_labels (Some labels_) pull_request_id db
      = Ok db' ->
      forall label name,
        In label labels_ -> LabelNode.name label = Some name ->
        exists r,
          In r (labels db') /\ like name (Label.name r) = true
          /\ In (LabelPullRequest.mk (Some (Label.id r)) (Some pull_request_id))
                (label_pull_request db'))
  /\ (forall authors_ pull_request_id db db',
         saveParticipants scan_authors (Some authors_) pull_request_id db
         = Ok db' ->
         forall author login,
           In author authors_ -> Actor.login author = Some login ->
           exists r,
             In r (authors db') /\ like login (Author.login r) = true
             /\ In (AuthorPullRequest.mk (Some (Author.id r))
                                         (Some pull_request_id))
                   (author_pull_request db')).
Proof.
  split.
  - intros l pid db db' H label name Hin Hname.
    unfold linkLabelsWithPullRequest in H.
    destruct l as [|x l'] eqn:El; [contradiction|]. rewrite <- El in *.
    clear El x l'. monad_inv.
    lazymatch goal with
    | Hs : saveLabels _ _ = Ok ?d |- _ => rename Hs into Hsave; rename d into db1
    end.
    assert (Hst : label_stored (Some name) db1).
    { unfold saveLabels in Hsave. destruct l as [|x l'] eqn:El; [contradiction|].
      rewrite <- El in *. clear El x l'.
      pose proof (executemany_all_stored insert_into_labels label_stored
                    (fun _ => True) (fun p d d' _ => insert_into_labels_new p d d')
                    label_stored_kept _ _ _
                    (proj2 (Forall_forall _ _) (fun _ _ => I)) Hsave) as Hall.
      rewrite Forall_forall in Hall. apply Hall.
      rewrite <- Hname. now apply in_map. }
    destruct Hst as (r0 & Hin0 & Hn0). inversion Hn0; subst name.
    destruct (fetchone_spec scan_labels
                (fun r => like (Label.name r0) (Label.name r))
                (labels db1) scan_labels_visits_all) as [Hsome Hex].
    destruct (Hex r0 Hin0 (like_eq_nocase _ _ (eq_nocase_refl _))) as [r Hr].
    destruct (Hsome _ Hr) as [Hinr Hlike].
    assert (Hid : getLabelIDByName scan_labels (Label.name r0) db1
                  = Some (Label.id r))
      by (unfold getLabelIDByName; now rewrite Hr).
    pose proof (linkLabelsWithPullRequest_query_data_In l pid db1 _ _ _
                  Hin Hname Hid) as Hq.
    pose proof (executemany_all_stored insert_into_label_pull_request
                  label_pull_request_stored (fun _ => True)
                  (fun p d d' _ => insert_into_label_pull_request_new p d d')
                  label_pull_request_stored_kept _ _ _
                  (proj2 (Forall_forall _ _) (fun _ _ => I)) H) as Hall.
    rewrite Forall_forall in Hall. specialize (Hall _ Hq).
    apply (executemany_frame _ _ insert_into_label_pull_request_frame) in H.
    use_frame H.
    exists r. split; [congruence|]. split; [exact Hlike | exact Hall].
  - intros l pid db db' H author login Hin Hlogin.
    unfold saveParticipants in H.
    destruct l as [|x l'] eqn:El; [contradiction|]. rewrite <- El in *.
    clear El x l'. monad_inv.
    lazymatch goal with
    | Hs : saveAuthors _ _ = Ok ?d |- _ => rename Hs into Hsave; rename d into db1
    end.
    assert (Hst : In login (map Author.login (authors db1))).
    { unfold saveAuthors in Hsave. destruct l as [|x l'] eqn:El; [contradiction|].
      rewrite <- El in *. clear El x l'.
      pose proof (executemany_all_stored insert_into_authors login_stored
                    (fun _ => True) (fun p d d' _ => insert_into_authors_new p d d')
                    login_stored_kept _ _ _
                    (proj2 (Forall_forall _ _) (fun _ _ => I)) Hsave) as Hall.
      rewrite Forall_forall in Hall.
      specialize (Hall (Actor.login author, Actor.name author)).
      unfold login_stored in Hall. cbn [fst] in Hall. rewrite Hlogin in Hall.
      apply Hall.
      apply in_map_iff. exists author. split; [now rewrite Hlogin | exact Hin]. }
    apply in_map_iff in Hst. destruct Hst as (r0 & Hn0 & Hin0). subst login.
    destruct (fetchone_spec scan_authors
                (fun r => like (Author.login r0) (Author.login r))
                (authors db1) scan_authors_visits_all) as [Hsome Hex].
    destruct (Hex r0 Hin0 (like_eq_nocase _ _ (eq_nocase_refl _))) as [r Hr].
    destruct (Hsome _ Hr) as [Hinr Hlike].
    assert (Hid : getAuthorIDByLogin scan_authors (Author.login r0) db1
                  = Some (Author.id r))
      by (unfold getAuthorIDByLogin; now rewrite Hr).
    pose proof (saveParticipants_query_data_In l pid db1 _ _ _
                  Hin Hlogin Hid) as Hq.
    pose proof (executemany_all_stored insert_into_author_pull_request
                  author_pull_request_stored (fun _ => True)
                  (fun p d d' _ => insert_into_author_pull_request_new p d d')
                  author_pull_request_stored_kept _ _ _
                  (proj2 (Forall_forall _ _) (fun _ _ => I)) H) as Hall.
    rewrite Forall_forall in Hall. specialize (Hall _ Hq).
    apply (executemany_frame _ _ insert_into_author_pull_request_frame) in H.
    use_frame H.
    exists r. split; [congruence|]. split; [exact Hlike | exact Hall].
Qed.

End Linking.

Lemma labels_and_participants_linked_witness :
  exists db',
    linkLabelsWithPullRequest rowid_order
      (Some [LabelNode.mk (Some "clang"); LabelNode.mk (Some "Clang")])
      5 sample_store = Ok db'
    /\ List.length (labels db') = 2%nat
    /\ exists r,
         In r (labels db') /\ like "Clang" (Label.name r) = true
         /\ In (LabelPullRequest.mk (Some (Label.id r)) (Some 5))
               (label_pull_request db').
Proof.
  eexists. split; [reflexivity|]. split; [reflexivity|].
  apply (proj1 (labels_and_participants_linked rowid_order rowid_order
                  rowid_order_visits_all rowid_order_visits_all)
           [LabelNode.mk (Some "clang"); LabelNode.mk (Some "Clang")]
           5 sample_store _ eq_refl (LabelNode.mk (Some "Clang")) "Clang");
    [right; left; reflexivity | reflexivity].
Defined.

(** ** The run of the loop *)

Lemma nth_error_in_range {A} (l : list A) i :
  (i < List.length l)%nat -> exists x, nth_error l i = Some x.
Proof.
  intros H. destruct (nth_error l i) as [x|] eqn:E; [eauto|].
  apply nth_error_None in E. lia.
Qed.

Section Run.

Variable scan_authors : list Author.row -> list Author.row.
Variable scan_labels : list Label.row -> list Label.row.
Variable token_pool : list string.

Lemma on_result_incomplete result d :
  Answer.repository result = None \/ Answer.rateLimit result = None ->
  on_result scan_authors scan_labels result d
  = match Answer.message result with
    | None => Exited d
    | Some _ => Crashed AttributeError d
    end.
Proof.
  unfold on_result. intros [-> | Hrl]; [reflexivity|].
  rewrite Hrl. now destruct (Answer.repository result).
Qed.

(** X9.  What ends a run.  A [TransportServerError] that names neither
    the rate limit nor the authorization ends the run at once, by
    [safeExit]: the credential index is not advanced and nothing is
    requested again.  An answer without [repository] or without
    [rateLimit] ends it too: by [safeExit] when it has no [message], by an
    [AttributeError] nobody catches when it has one, for [result.message]
    is read off a mapping; nothing is saved and no cost is counted.  An
    exception raised while a page is saved is not caught either.  In each
    case the exchanges that follow are left unused. *)
Theorem fatal_answers_end_the_run :
  forall (x : exchange) (script : list exchange) (d : driver) (token : string),
    has_next_page d = true ->
    nth_error token_pool (current_token_idx d) = Some token ->
    (forall err,
        answer x = TransportServerError err ->
        str_in "rate limit exceeded" err = false ->
        str_in "Unauthorized" err = false ->
        exists d',
          main scan_authors scan_labels token_pool (x :: script) d = (Exited d', script)
          /\ con d' = con d
          /\ current_token_idx d' = current_token_idx d
          /\ tokens (trace d') = tokens (trace d) ++ [token])
    /\ (forall result,
           answer x = Result result ->
           Answer.repository result = None \/ Answer.rateLimit result = None ->
           exists d',
             main scan_authors scan_labels token_pool (x :: script) d
             = (match Answer.message result with
                | None => Exited d'
                | Some _ => Crashed AttributeError d'
                end, script)
             /\ con d' = con d
             /\ current_cost d' = current_cost (cooldown d)
             /\ saved_pull_requests d' = saved_pull_requests d
             /\ tokens (trace d') = tokens (trace d) ++ [token])
    /\ (forall result repository rate_limit e,
           answer x = Result result ->
           Answer.repository result = Some repository ->
           Answer.rateLimit result = Some rate_limit ->
           savePullRequests scan_authors scan_labels
             (Answer.nodes (Answer.pullRequests repository)) (con d) = Raise e ->
           exists d',
             main scan_authors scan_labels token_pool (x :: script) d = (Crashed e d', script)
             /\ tokens (trace d') = tokens (trace d) ++ [token]).
Proof.
  intros x script d token Hnext Htok.
  destruct (cooldown_keeps d) as (Hi & _ & Ha & Hc & Ht & _).
  cbn [main]. rewrite Hnext. unfold turn.
  rewrite Hi, Htok. split; [|split].
  - intros err Herr Hr Hu. rewrite Herr. unfold on_TransportServerError.
    rewrite Hr, Hu. cbn [negb andb]. eexists. split; [reflexivity|].
    cbn. rewrite tokens_app, Ht. cbn. auto.
  - intros result Hres Hmiss. rewrite Hres.
    rewrite (on_result_incomplete _ _ Hmiss).
    exists (executeQuery token x (cooldown d)).
    split; [now destruct (Answer.message result)|].
    cbn. rewrite tokens_app, Ht. cbn.
    unfold cooldown. destruct (current_cost d >=? COST_PER_MINUTE);
      [destruct (_ >? 0)|]; cbn; auto.
  - intros result repository rate_limit e Hres Hrepo Hrl Hsave.
    rewrite Hres. unfold on_result. rewrite Hrepo, Hrl.
    cbn [con executeQuery]. rewrite Hc, Hsave.
    eexists. split; [reflexivity|]. cbn. rewrite tokens_app, Ht. reflexivity.
Qed.

Lemma turn_cursor x d token :
  nth_error token_pool (current_token_idx d) = Some token ->
  cursors (trace (state_of (turn scan_authors scan_labels token_pool x d))) = cursors (trace d) ++ [next_page_after d].
Proof.
  intros Htok. unfold turn.
  destruct (cooldown_keeps d) as (Hi & _ & Ha & _ & _ & Hcur).
  rewrite Hi, Htok.
  destruct (answer x) as [err|res].
  - unfold on_TransportServerError.
    destruct (negb _ && negb _); [|destruct (_ <=? _)%nat];
      cbn; now rewrite cursors_app, Hcur, Ha.
  - unfold on_result.
    destruct (Answer.repository res) as [repo|];
      [destruct (Answer.rateLimit res) as [rl|]|];
      try (destruct (Answer.message res); cbn;
           now rewrite cursors_app, Hcur, Ha).
    destruct (savePullRequests _ _ _ _); cbn;
      rewrite ?cursors_app, Hcur, Ha; cbn; now rewrite ?app_nil_r.
Qed.

Lemma turn_next x d d' :
  has_next_page d = true ->
  turn scan_authors scan_labels token_pool x d = Running d' ->
  next_page_after d' = cursor_after (next_page_after d) x
  /\ (current_token_idx d' < List.length token_pool)%nat
  /\ has_next_page d'
     = match page_of x with
       | Some page_info => Answer.hasNextPage page_info
       | None => true
       end
  /\ (has_next_page d' = false -> next_page_after d' = None).
Proof.
  intros Hn. unfold turn, cursor_after, page_of.
  destruct (cooldown_keeps d) as (Hi & Hh & Ha & _).
  rewrite Hi.
  destruct (nth_error token_pool (current_token_idx d)) as [token|] eqn:Htok;
    [|discriminate].
  assert (Hlt : (current_token_idx d < List.length token_pool)%nat)
    by (apply nth_error_Some; congruence).
  destruct (answer x) as [err|res].
  - unfold on_TransportServerError.
    destruct (negb _ && negb _); [discriminate|].
    destruct (_ <=? _)%nat eqn:El; [discriminate|].
    intros H. inversion H; subst d'. cbn in *. rewrite Hi in *.
    apply Nat.leb_gt in El. rewrite Ha, Hh, Hn.
    repeat split; try lia; try discriminate.
  - unfold on_result.
    destruct (Answer.repository res) as [repo|];
      [destruct (Answer.rateLimit res) as [rl|]|];
      try (destruct (Answer.message res); discriminate).
    destruct (savePullRequests _ _ _ _); [|discriminate].
    intros H. inversion H; subst d'. cbn. rewrite Hi.
    repeat split; try lia.
    now intros ->.
Qed.

Lemma turn_never_finished x d d' :
  turn scan_authors scan_labels token_pool x d <> Finished d'.
Proof.
  unfold turn.
  destruct (nth_error token_pool _); [|discriminate].
  destruct (answer x) as [err|res].
  - unfold on_TransportServerError.
    destruct (negb _ && negb _); [|destruct (_ <=? _)%nat]; discriminate.
  - unfold on_result.
    destruct (Answer.repository res) as [repo|];
      [destruct (Answer.rateLimit res) as [rl|]|];
      try (destruct (Answer.message res); discriminate).
    destruct (savePullRequests _ _ _ _); discriminate.
Qed.

Lemma main_finished script d :
  has_next_page d = false ->
  main scan_authors scan_labels token_pool script d = (Finished d, script).
Proof. intros H. destruct script; cbn [main]; now rewrite H. Qed.

Lemma one_used_exchange {A} (x y : A) pre post :
  [x] = pre ++ y :: post -> post = [].
Proof.
  destruct pre as [|a pre]; cbn; intros H; inversion H; [reflexivity|].
  now destruct pre.
Qed.

(** X10.  The run follows the cursor.  With a credential to start with,
    the loop makes exactly one request for each exchange it uses, and the
    cursor of each request is the one the exchanges before it left: none
    at the start, the [endCursor] of the latest page that was saved and had
    a next page, and the same cursor again after a failure that moved to
    the next credential.  An exchange that brings a page without a next
    page is the last one the run uses; a run that starts with
    [has_next_page] false uses none.  A run finishes only through such a
    page, and then the cursor is none. *)
Theorem requests_follow_the_cursor :
  forall (script : list exchange) (d : driver),
    (current_token_idx d < List.length token_pool)%nat ->
    exists used,
      script = used ++ snd (main scan_authors scan_labels token_pool script d)
      /\ cursors (trace (state_of
                    (fst (main scan_authors scan_labels token_pool script d))))
         = cursors (trace d) ++ cursors_of (next_page_after d) used
      /\ (has_next_page d = false -> used = [])
      /\ (forall pre x post page_info,
             used = pre ++ x :: post ->
             page_of x = Some page_info ->
             Answer.hasNextPage page_info = false ->
             post = [])
      /\ (forall d',
             fst (main scan_authors scan_labels token_pool script d)
             = Finished d' ->
             has_next_page d' = false
             /\ (has_next_page d = true ->
                 next_page_after d' = None
                 /\ exists pre x page_info,
                     used = pre ++ [x]
                     /\ page_of x = Some page_info
                     /\ Answer.hasNextPage page_info = false)).
Proof.
  assert (Hdone : forall script d,
             has_next_page d = false ->
             exists used,
               script
               = used ++ snd (main scan_authors scan_labels token_pool script d)
               /\ cursors (trace (state_of
                             (fst (main scan_authors scan_labels token_pool
                                        script d))))
                  = cursors (trace d) ++ cursors_of (next_page_after d) used
               /\ (has_next_page d = false -> used = [])
               /\ (forall pre x post page_info,
                      used = pre ++ x :: post ->
                      page_of x = Some page_info ->
                      Answer.hasNextPage page_info = false ->
                      post = [])
               /\ (forall d',
                      fst (main scan_authors scan_labels token_pool script d)
                      = Finished d' ->
                      has_next_page d' = false
                      /\ (has_next_page d = true ->
                          next_page_after d' = None
                          /\ exists pre x page_info,
                              used = pre ++ [x]
                              /\ page_of x = Some page_info
                              /\ Answer.hasNextPage page_info = false))).
  { intros script d Hn. exists []. rewrite (main_finished script d Hn).
    cbn [fst snd state_of app cursors_of]. rewrite app_nil_r.
    split; [reflexivity|]. split; [reflexivity|]. split; [reflexivity|].
    split.
    - intros pre x post p H. now destruct pre.
    - intros d' H. inversion H; subst d'. split; [exact Hn|]. congruence. }
  induction script as [|x script IH]; intros d Hlt.
  - destruct (Bool.bool_dec (has_next_page d) false) as [Hn|Hn];
      [now apply Hdone|]. apply not_false_is_true in Hn.
    exists []. cbn [main]. rewrite Hn. cbn [fst snd state_of app cursors_of].
    rewrite app_nil_r. split; [reflexivity|]. split; [reflexivity|].
    split; [reflexivity|]. split.
    + intros pre x post p H. now destruct pre.
    + intros d' H. discriminate H.
  - destruct (Bool.bool_dec (has_next_page d) false) as [Hn|Hn];
      [now apply Hdone|]. apply not_false_is_true in Hn.
    cbn [main]. rewrite Hn.
    destruct (nth_error_in_range _ _ Hlt) as [token Htok].
    pose proof (turn_cursor x d token Htok) as Hcur.
    pose proof (turn_next x d) as Hnextd.
    specialize (fun d' => Hnextd d' Hn).
    pose proof (turn_never_finished x d) as Hnf.
    destruct (turn scan_authors scan_labels token_pool x d) as [d1|d1|d1|e d1];
      cbn [state_of] in Hcur;
      try (exfalso; now apply (Hnf d1));
      try (exists [x]; cbn [fst snd state_of app cursors_of];
           split; [reflexivity|]; split; [exact Hcur|];
           split; [discriminate|]; split;
           [ intros pre y post p H _ _; now apply (one_used_exchange x y pre)
           | intros d' H; discriminate H ]).
    destruct (Hnextd d1 eq_refl) as (Hafter & Hlt1 & Hhas & Hnone).
    destruct (IH d1 Hlt1) as (used & Hused & Hc & Hempty & Hlast & Hfin).
    exists (x :: used). split; [cbn [app]; now rewrite <- Hused|].
    split; [|split; [discriminate|split]].
    + rewrite Hc, Hcur, <- app_assoc. cbn [app cursors_of].
      now rewrite Hafter.
    + intros pre y post p H Hp Hh. destruct pre as [|a pre]; cbn [app] in H.
      * inversion H; subst y post. apply Hempty.
        rewrite Hhas, Hp. exact Hh.
      * inversion H. now apply (Hlast pre y post p).
    + intros d' H. destruct (Hfin d' H) as [Hf Hd]. split; [exact Hf|].
      intros _. destruct (has_next_page d1) eqn:Hn1.
      * destruct (Hd eq_refl) as (Hnone' & pre & y & p & Hu & Hp & Hh).
        split; [exact Hnone'|]. exists (x :: pre), y, p.
        split; [cbn [app]; now rewrite Hu | auto].
      * rewrite (main_finished script d1 Hn1) in H. cbn [fst] in H.
        inversion H; subst d'. split; [now apply Hnone|].
        rewrite (Hempty eq_refl).
        destruct (page_of x) as [p|] eqn:Hp; [|discriminate].
        exists [], x, p. auto.
Qed.

End Run.

Lemma fatal_answers_end_the_run_witness :
  exists d',
    main rowid_order rowid_order ["token-1"; "token-2"]
         [bad_gateway; sample_answer] (initial sample_store 0)
    = (Exited d', [sample_answer])
    /\ con d' = con (initial sample_store 0)
    /\ current_token_idx d' = current_token_idx (initial sample_store 0)
    /\ tokens (trace d') = tokens (trace (initial sample_store 0)) ++ ["token-1"].
Proof.
  apply (proj1 (fatal_answers_end_the_run rowid_order rowid_order
                  ["token-1"; "token-2"] bad_gateway [sample_answer]
                  (initial sample_store 0) "token-1" eq_refl eq_refl)
           "502, message='Bad Gateway'" eq_refl eq_refl eq_refl).
Defined.

Lemma requests_follow_the_cursor_witness :
  exists used,
    [empty_page "cursor-1"; unauthorized; sample_answer; bad_gateway]
    = used ++ snd (main rowid_order rowid_order ["token-1"; "token-2"]
                        [empty_page "cursor-1"; unauthorized; sample_answer;
                         bad_gateway]
                        (initial empty_db 0))
    /\ cursors (trace (state_of
                  (fst (main rowid_order rowid_order ["token-1"; "token-2"]
                             [empty_page "cursor-1"; unauthorized; sample_answer;
                              bad_gateway]
                             (initial empty_db 0)))))
       = cursors (trace (initial empty_db 0))
         ++ cursors_of (next_page_after (initial empty_db 0)) used
    /\ (has_next_page (initial empty_db 0) = false -> used = [])
    /\ (forall pre x post page_info,
           used = pre ++ x :: post ->
           page_of x = Some page_info ->
           Answer.hasNextPage page_info = false ->
           post = [])
    /\ (forall d',
           fst (main rowid_order rowid_order ["token-1"; "token-2"]
                     [empty_page "cursor-1"; unauthorized; sample_answer;
                      bad_gateway]
                     (initial empty_db 0)) = Finished d' ->
           has_next_page d' = false
           /\ (has_next_page (initial empty_db 0) = true ->
               next_page_after d' = None
               /\ exists pre x page_info,
                   used = pre ++ [x]
                   /\ page_of x = Some page_info
                   /\ Answer.hasNextPage page_info = false)).
Proof.
  apply (requests_follow_the_cursor rowid_order rowid_order
           ["token-1"; "token-2"]
           [empty_page "cursor-1"; unauthorized; sample_answer; bad_gateway]
           (initial empty_db 0)).
  cbn. lia.
Defined.

(** The run of the example above requests the first page, then the second
    page twice, once with each credential, and finishes. *)
Example cursor_followed :
  exists d',
    main rowid_order rowid_order ["token-1"; "token-2"]
         [empty_page "cursor-1"; unauthorized; sample_answer; bad_gateway]
         (initial empty_db 0)
    = (Finished d', [bad_gateway])
    /\ cursors (trace d') = [None; Some "cursor-1"; Some "cursor-1"]
    /\ tokens (trace d') = ["token-1"; "token-1"; "token-2"].
Proof. eexists. split; [vm_compute; reflexivity|]. split; reflexivity. Qed.

(** ** Deletion and the foreign keys *)

Lemma references_after_delete parents parents' k a :
  (forall p, In p parents -> p <> a -> In p parents') ->
  references parents k = true -> k <> Some a ->
  references parents' k = true.
Proof.
  destruct k as [v|]; cbn; [|reflexivity].
  rewrite !existsb_exists. intros Hp (x & Hx & E) Hk.
  apply Z.eqb_eq in E. subst x. exists v. split; [|apply Z.eqb_refl].
  apply Hp; [exact Hx | congruence].
Qed.

(** The key on which the action runs references no deleted parent. *)
Lemma fk_on_parent_delete {R} action (key : R -> option Z) set_null a rows
    parents parents' :
  (forall r, key (set_null r) = None) ->
  (forall p, In p parents -> p <> a -> In p parents') ->
  fk rows key parents ->
  fk (on_parent_delete action key set_null a rows) key parents'.
Proof.
  intros Hnull Hp H. unfold fk in *. rewrite Forall_forall in *.
  intros r Hr. destruct action; cbn [on_parent_delete] in Hr.
  - apply in_map_iff in Hr. destruct Hr as (r0 & <- & Hin).
    destruct (sql_eqb Z.eqb (key r0) (Some a)) eqn:E.
    + now rewrite Hnull.
    + apply (references_after_delete parents _ _ a Hp (H _ Hin)).
      intros Hk. rewrite Hk in E. cbn in E. now rewrite Z.eqb_refl in E.
  - apply filter_In in Hr. destruct Hr as [Hin Hk].
    apply (references_after_delete parents _ _ a Hp (H _ Hin)).
    intros Hk'. rewrite Hk' in Hk. cbn in Hk. now rewrite Z.eqb_refl in Hk.
Qed.

(** Another key of the same table keeps its references. *)
Lemma fk_on_parent_delete_other {R} action (key key2 : R -> option Z) set_null
    a rows parents :
  (forall r, key2 (set_null r) = key2 r) ->
  fk rows key2 parents ->
  fk (on_parent_delete action key set_null a rows) key2 parents.
Proof.
  intros Hsame H. unfold fk in *. rewrite Forall_forall in *.
  intros r Hr. destruct action; cbn [on_parent_delete] in Hr.
  - apply in_map_iff in Hr. destruct Hr as (r0 & <- & Hin).
    destruct (sql_eqb Z.eqb (key r0) (Some a)); [rewrite Hsame|]; auto.
  - apply filter_In in Hr. destruct Hr as [Hin _]. auto.
Qed.

Lemma fk_filter {R} (f : R -> bool) rows key parents :
  fk rows key parents -> fk (filter f rows) key parents.
Proof.
  unfold fk. rewrite !Forall_forall. intros H r Hr.
  apply filter_In in Hr. now apply H.
Qed.

Lemma ids_on_parent_set_null {R} (id : R -> Z) (key : R -> option Z) set_null
    a rows :
  (forall r, id (set_null r) = id r) ->
  map id (on_parent_delete SET_NULL key set_null a rows) = map id rows.
Proof.
  intros Hid. cbn [on_parent_delete]. rewrite map_map. apply map_ext.
  intros r. destruct (sql_eqb Z.eqb (key r) (Some a)); [apply Hid | reflexivity].
Qed.

Lemma In_ids_after_delete {R} (id : R -> Z) a rows p :
  In p (map id rows) -> p <> a ->
  In p (map id (filter (fun r => negb (id r =? a)) rows)).
Proof.
  intros Hin Hp. apply in_map_iff in Hin. destruct Hin as (r & <- & Hin).
  apply in_map, filter_In. split; [exact Hin|].
  apply negb_true_iff, Z.eqb_neq, Hp.
Qed.

Lemma ids_after_delete {R} (id : R -> Z) a rows :
  ~ In a (map id (filter (fun r => negb (id r =? a)) rows)).
Proof.
  intros Hin. apply in_map_iff in Hin. destruct Hin as (r & Hr & Hin).
  apply filter_In in Hin. destruct Hin as [_ Hn].
  apply negb_true_iff, Z.eqb_neq in Hn. contradiction.
Qed.

(** X11.  The [on delete] actions of the schema keep the foreign keys.
    From a store whose foreign keys hold, deleting an author, or deleting
    a pull request, gives a store whose foreign keys hold: every key that
    named the deleted row has been set to null or has gone with its row,
    and the deleted id is the id of no row. *)
Theorem deletes_keep_foreign_keys :
  forall (author_id pull_request_id : Z) (db : DB),
    fk_valid db ->
    (fk_valid (delete_from_authors author_id db)
     /\ ~ In author_id (author_ids (delete_from_authors author_id db)))
    /\ (fk_valid (delete_from_pull_requests pull_request_id db)
        /\ ~ In pull_request_id
               (pull_request_ids (delete_from_pull_requests pull_request_id db))).
Proof.
  intros author_id pull_request_id db
    (H1 & H2 & H3 & H4 & H5 & H6 & H7 & H8 & H9 & H10 & H11 & H12 & H13 & H14).
  split; (split; [|apply ids_after_delete]).
  - unfold fk_valid, delete_from_authors, author_ids, pull_request_ids,
      review_ids, review_thread_ids, label_ids in *.
    cbn [authors pull_requests commits reviews review_threads comments files
         author_pull_request labels label_pull_request].
    unfold Schema.pull_requests_author_id, Schema.reviews_author_id,
      Schema.comments_author_id.
    rewrite !ids_on_parent_set_null by reflexivity.
    repeat lazymatch goal with |- _ /\ _ => split end;
      try assumption;
      try (apply fk_on_parent_delete_other; [reflexivity | assumption]);
      (eapply fk_on_parent_delete;
       [reflexivity | apply In_ids_after_delete | eassumption]).
  - unfold fk_valid, delete_from_pull_requests, author_ids, pull_request_ids,
      review_ids, review_thread_ids, label_ids in *.
    cbn [authors pull_requests commits reviews review_threads comments files
         author_pull_request labels label_pull_request].
    unfold Schema.reviews_pull_request_id,
      Schema.review_threads_pull_request_id.
    rewrite !ids_on_parent_set_null by reflexivity.
    repeat lazymatch goal with |- _ /\ _ => split end;
      try (apply fk_filter; assumption);
      try (apply fk_on_parent_delete_other; [reflexivity | assumption]);
      (eapply fk_on_parent_delete;
       [reflexivity | apply In_ids_after_delete | eassumption]).
Qed.

Lemma sample_store_full_fk_valid : fk_valid sample_store_full.
Proof.
  unfold fk_valid, fk. cbn.
  repeat lazymatch goal with |- _ /\ _ => split end;
    repeat constructor.
Qed.

Lemma deletes_keep_foreign_keys_witness :
  (fk_valid (delete_from_authors 1 sample_store_full)
   /\ ~ In 1 (author_ids (delete_from_authors 1 sample_store_full)))
  /\ (fk_valid (delete_from_pull_requests 5 sample_store_full)
      /\ ~ In 5 (pull_request_ids (delete_from_pull_requests 5 sample_store_full))).
Proof.
  apply (deletes_keep_foreign_keys 1 5 sample_store_full).
  apply sample_store_full_fk_valid.
Defined.

(** ** What a save leaves in the store *)

Lemma insert_into_reviews_new p db db' :
  insert_into_reviews p db = Ok db' -> review_stored p db'.
Proof.
  destruct p as [[[id aid] pid] created]. unfold insert_into_reviews.
  cbn [review_stored]. intros H. monad_inv.
  destruct (existsb _ (reviews db)) eqn:E; monad_inv.
  - apply existsb_exists in E. destruct E as (r & Hin & Hr).
    apply Z.eqb_eq in Hr. eauto.
  - eexists. split; [cbn; apply in_or_app; right; left; reflexivity|].
    reflexivity.
Qed.

Section SavedRows.

Variable scan_authors : list Author.row -> list Author.row.

Lemma saveComments_stores l p r t db db' :
  saveComments scan_authors (Some l) p r t db = Ok db' ->
  forall comment,
    In comment l ->
    exists id row,
      CommentNode.fullDatabaseId comment = Some id
      /\ find_comment id db' = Some row
      /\ (forall v, p = Some v -> Comment.pull_request_id row = Some v)
      /\ (forall v, r = Some v -> Comment.review_id row = Some v)
      /\ (forall v, t = Some v -> Comment.review_thread_id row = Some v).
Proof.
  intros H c Hin. unfold saveComments in H.
  destruct l as [|c0 l'] eqn:El; [destruct Hin|].
  rewrite <- El in *. clear El c0 l'. monad_inv.
  lazymatch goal with
  | Hq : saveComments_query_data _ _ _ _ _ _ = Ok (_, ?qd),
    He : executemany _ _ _ = Ok _ |- _ =>
      apply saveComments_query_data_spec in Hq;
      destruct Hq as (_ & Hlinks & Hids);
      rename He into Hexec; rename qd into query_data
  end.
  assert (Htup : exists tup,
             In tup query_data
             /\ CommentNode.fullDatabaseId c = Some (comment_id tup)).
  { assert (Hi : In (CommentNode.fullDatabaseId c)
                    (map CommentNode.fullDatabaseId l)) by now apply in_map.
    rewrite <- Hids in Hi. apply in_map_iff in Hi.
    destruct Hi as (tup & Ht & Hi). eauto. }
  destruct Htup as (tup & Htup & Hid).
  destruct (executemany_comments_links _ _ _ _ Hlinks _ _ Hexec _ Htup)
    as (stored & Hstored & Hp & Hr & Ht).
  exists (comment_id tup), stored. auto.
Qed.

(** A stored comment after [saveComments]: as it was, or merged. *)
Lemma saveComments_find l p r t db db' id old :
  find_comment id db = Some old ->
  saveComments scan_authors l p r t db = Ok db' ->
  exists new,
    find_comment id db' = Some new
    /\ (new = old \/ new = merge_comment p r t old).
Proof.
  intros Hold H. unfold saveComments in H.
  destruct l as [[|c0 l']|]; try (monad_inv; eauto; fail).
  cbv beta iota in H. monad_inv.
  lazymatch goal with
  | Hq : saveComments_query_data _ _ _ _ _ _ = Ok (?d1, ?qd),
    He : executemany _ _ _ = Ok _ |- _ =>
      apply saveComments_query_data_spec in Hq;
      destruct Hq as (Hf & Hlinks & _);
      rename He into Hexec; rename qd into query_data; rename d1 into db1
  end.
  destruct Hf as (_ & _ & _ & _ & _ & Hcomments & _).
  specialize (Hcomments ltac:(not_in_tables)).
  assert (Hold1 : find_comment id db1 = Some old)
    by (unfold find_comment in *; rewrite Hcomments; exact Hold).
  destruct (executemany_comments_find _ _ _ _ Hlinks _ _ Hexec _ _ Hold1)
    as [Hfind _].
  eexists. split; [exact Hfind|].
  destruct (existsb _ _); auto.
Qed.

(** A stored comment after the loop of [saveReviews]: its review is the
    one it had or one of the list. *)
Lemma saveReviews_loop_comment l pull_request_id :
  forall db db' id old,
    find_comment id db = Some old ->
    saveReviews_loop scan_authors l pull_request_id db = Ok db' ->
    exists new,
      find_comment id db' = Some new
      /\ (Comment.review_id new = Comment.review_id old
          \/ In (Comment.review_id new) (map ReviewNode.fullDatabaseId l)).
Proof.
  induction l as [|review l IH]; cbn [saveReviews_loop];
    intros db db' id old Hold H; monad_inv; [eauto|].
  lazymatch goal with
  | Hi : ReviewNode.fullDatabaseId review = Some ?rid,
    Ha : resolve_author _ _ _ = Ok (?d1, _),
    Hr : insert_into_reviews _ ?d1 = Ok ?d2,
    Hc : saveComments _ _ _ _ _ ?d2 = Ok ?d3 |- _ =>
      rename Hi into Hid; rename Ha into Hauthor; rename Hr into Hreview;
      rename Hc into Hcomments; rename d1 into db1; rename d2 into db2;
      rename d3 into db3
  end.
  apply resolve_author_frame in Hauthor.
  destruct Hauthor as (_ & _ & _ & _ & _ & Hc1 & _).
  specialize (Hc1 ltac:(not_in_tables)).
  apply insert_into_reviews_frame in Hreview.
  destruct Hreview as (_ & _ & _ & _ & _ & Hc2 & _).
  specialize (Hc2 ltac:(not_in_tables)).
  assert (Hold2 : find_comment id db2 = Some old)
    by (unfold find_comment in *; rewrite Hc2, Hc1; exact Hold).
  destruct (saveComments_find _ _ _ _ _ _ _ _ Hold2 Hcomments)
    as (new1 & Hnew1 & Hcase).
  destruct (IH _ _ _ _ Hnew1 H) as (new & Hnew & Hrest).
  exists new. split; [exact Hnew|].
  cbn [map In]. rewrite Hid.
  destruct Hrest as [Hsame|Hin]; [|auto].
  rewrite Hsame. destruct Hcase as [->| ->]; cbn; auto.
Qed.

Lemma saveReviews_loop_grows l pull_request_id db db' :
  saveReviews_loop scan_authors l pull_request_id db = Ok db' -> grows db db'.
Proof.
  intros H.
  apply (saveReviews_keeps (grows db) (statements_keep_grows db) scan_authors
           (Some l) pull_request_id db db' (grows_refl db)).
  unfold saveReviews. destruct l; [|exact H].
  cbn in H. exact H.
Qed.

Lemma saveReviews_loop_stores l pull_request_id :
  forall db db' review,
    saveReviews_loop scan_authors l pull_request_id db = Ok db' ->
    In review l ->
    exists review_id row,
      ReviewNode.fullDatabaseId review = Some review_id
      /\ In row (reviews db') /\ Review.id row = review_id
      /\ forall comments_ comment,
          or_empty_get (ReviewNode.comments review) nodes = Some comments_ ->
          In comment comments_ ->
          exists id stored,
            CommentNode.fullDatabaseId comment = Some id
            /\ find_comment id db' = Some stored
            /\ In (Comment.review_id stored)
                  (map ReviewNode.fullDatabaseId l).
Proof.
  induction l as [|hd l IH]; intros db db' review H Hin; [destruct Hin|].
  cbn [saveReviews_loop] in H. monad_inv.
  lazymatch goal with
  | Hi : ReviewNode.fullDatabaseId hd = Some ?rid,
    Hr : insert_into_reviews _ _ = Ok ?d2,
    Hc : saveComments _ _ _ _ _ ?d2 = Ok ?d3 |- _ =>
      rename Hi into Hid; rename Hr into Hreview;
      rename Hc into Hcomments; rename d2 into db2; rename d3 into db3;
      rename rid into review_id
  end.
  destruct Hin as [<-|Hin].
  - apply insert_into_reviews_new in Hreview.
    destruct Hreview as (row & Hrow & Hrid).
    pose proof (saveComments_keeps (grows db2) (statements_keep_grows db2)
                  scan_authors _ _ _ _ _ _ (grows_refl db2) Hcomments) as Hg3.
    pose proof (saveReviews_loop_grows _ _ _ _ H) as Hg.
    destruct (grows_trans _ _ _ Hg3 Hg) as (_ & _ & _ & Hreviews & _).
    exists review_id, row. split; [exact Hid|].
    split; [eapply prefix_In; eauto|]. split; [exact Hrid|].
    intros cs c Hcs Hc. rewrite Hcs in Hcomments.
    destruct (saveComments_stores _ _ _ _ _ _ Hcomments c Hc)
      as (cid & stored & Hcid & Hstored & _ & Hr & _).
    destruct (saveReviews_loop_comment _ _ _ _ _ _ Hstored H)
      as (new & Hnew & Hcase).
    exists cid, new. split; [exact Hcid|]. split; [exact Hnew|].
    cbn [map In]. rewrite Hid.
    destruct Hcase as [Hsame|Hl]; [|auto].
    left. rewrite Hsame. symmetry. now apply Hr.
  - destruct (IH _ _ _ H Hin) as (rid & row & Hrid & Hrow & Hr & Hcs).
    exists rid, row. repeat (split; [assumption|]).
    intros cs c Hc1 Hc2. destruct (Hcs cs c Hc1 Hc2) as (cid & st & A & B & C).
    exists cid, st. repeat (split; [assumption|]). now right.
Qed.

(** X12.  What a save of comments and of reviews leaves in the store.
    After a successful [saveComments], every comment of the list has its
    [fullDatabaseId] and is stored under it, with each of the three parent
    links that was passed.  After a successful [saveReviews], every review
    of the list has its [fullDatabaseId] and is stored under it, and every
    comment nested in it is stored with the id of a review of the list as
    its [review_id]. *)
Theorem saved_comments_and_reviews_are_stored :
  (forall l pull_request_id review_id review_thread_id db db',
      saveComments scan_authors (Some l) pull_request_id review_id
                   review_thread_id db = Ok db' ->
      forall comment,
        In comment l ->
        exists id row,
          CommentNode.fullDatabaseId comment = Some id
          /\ find_comment id db' = Some row
          /\ (forall v, pull_request_id = Some v ->
                        Comment.pull_request_id row = Some v)
          /\ (forall v, review_id = Some v -> Comment.review_id row = Some v)
          /\ (forall v, review_thread_id = Some v ->
                        Comment.review_thread_id row = Some v))
  /\ (forall l pull_request_id db db',
         saveReviews scan_authors (Some l) pull_request_id db = Ok db' ->
         forall review,
           In review l ->
           exists review_id row,
             ReviewNode.fullDatabaseId review = Some review_id
             /\ In row (reviews db') /\ Review.id row = review_id
             /\ forall comments_ comment,
                 or_empty_get (ReviewNode.comments review) nodes
                 = Some comments_ ->
                 In comment comments_ ->
                 exists id stored,
                   CommentNode.fullDatabaseId comment = Some id
                   /\ find_comment id db' = Some stored
                   /\ In (Comment.review_id stored)
                         (map ReviewNode.fullDatabaseId l)).
Proof.
  split.
  - intros l p r t db db'. apply saveComments_stores.
  - intros l pid db db' H review Hin. unfold saveReviews in H.
    destruct l as [|hd l'] eqn:El; [destruct Hin|]. rewrite <- El in *.
    now apply (saveReviews_loop_stores l pid db db').
Qed.

End SavedRows.

Lemma saved_comments_and_reviews_are_stored_witness :
  exists db',
    saveReviews rowid_order
      (Some [ReviewNode.mk (Some (Actor.mk (Some "bob") None))
               (Some "2023-09-01T08:00:00Z") (Some 7)
               (Some {| nodes := Some [sample_comment] |})])
      5 sample_store = Ok db'
    /\ exists review_id row,
        Some 7 = Some review_id
        /\ In row (reviews db') /\ Review.id row = review_id
        /\ forall comments_ comment,
            Some [sample_comment] = Some comments_ ->
            In comment comments_ ->
            exists id stored,
              CommentNode.fullDatabaseId comment = Some id
              /\ find_comment id db' = Some stored
              /\ In (Comment.review_id stored) [Some 7].
Proof.
  eexists. split; [reflexivity|].
  apply (proj2 (saved_comments_and_reviews_are_stored rowid_order)
           [ReviewNode.mk (Some (Actor.mk (Some "bob") None))
              (Some "2023-09-01T08:00:00Z") (Some 7)
              (Some {| nodes := Some [sample_comment] |})]
           5 sample_store _ eq_refl
           (ReviewNode.mk (Some (Actor.mk (Some "bob") None))
              (Some "2023-09-01T08:00:00Z") (Some 7)
              (Some {| nodes := Some [sample_comment] |}))).
  now left.
Defined.
